(** * my_Vlog: validation, slug handling, post store and upload guard

    A shallow embedding of the parts of the blog front end that carry
    branching logic:

    - [api.profile.js]  ([validateProfileData], [getProfile],
                         [updateMyProfile], [createInitialProfile],
                         [getOrCreateProfile], [isProfileComplete],
                         [formatTagsInput], [tagsToString]),
    - [api.posts.js]    ([validatePostData], [isValidSlug], [generateSlug],
                         [getPostByIdOrSlug], [getPostBySlug], [createPost],
                         [updatePost], [publishPost], [unpublishPost],
                         [deletePost]),
    - [auth.js]         ([requireAuth], [requireAdmin], [isAdmin]),
    - [upload.js]       ([validateImageFile], [uploadImage],
                         [uploadMultipleImages]),
    - [render.js]       ([HashRouter]: [matchRoute], [handleRoute]),
    - [config.js]       ([APP_CONFIG], [ADMIN_UIDS]).

    JavaScript objects are finite maps from property names to values, the
    [posts] collection is a finite map from document ids to objects, and the
    asynchronous functions are computations in a state-and-exception monad
    over the backend.

    Strings are sequences of code units below 256 (Latin-1); on that range
    [toLowerCase], [trim] and the regular expressions of the source are
    modelled exactly. *)

From Stdlib Require Import ZArith NArith Ascii String Bool List Lia.
From stdpp Require Import gmap strings list fin_maps.

Open Scope string_scope.

(** ** Characters and the string primitives used by the source *)

Definition code (c : ascii) : N := N_of_ascii c.

Definition inRange (lo hi : N) (c : ascii) : bool :=
  ((lo <=? code c) && (code c <=? hi))%N.

Definition isDigit (c : ascii) : bool := inRange 48 57 c.
Definition isUpper (c : ascii) : bool := inRange 65 90 c.
Definition isLower (c : ascii) : bool := inRange 97 122 c.
Definition isAlnum (c : ascii) : bool := isDigit c || isUpper c || isLower c.
Definition isHyphen (c : ascii) : bool := (code c =? 45)%N.
Definition isUnderscore (c : ascii) : bool := (code c =? 95)%N.

(** [\w] of a JavaScript regular expression: [[A-Za-z0-9_]]. *)
Definition isWord (c : ascii) : bool := isAlnum c || isUnderscore c.

(** [\s] (and the characters removed by [trim]): TAB, LF, VT, FF, CR,
    SPACE and NO-BREAK SPACE are the white space and line terminators
    below 256. *)
Definition isSpace (c : ascii) : bool :=
  inRange 9 13 c || (code c =? 32)%N || (code c =? 160)%N.

(** [String.prototype.toLowerCase] on one code unit: [A-Z] and the
    Latin-1 capitals [À-Ö], [Ø-Þ] move up by 32. *)
Definition lowerChar (c : ascii) : ascii :=
  if isUpper c || inRange 192 214 c || inRange 216 222 c
  then ascii_of_N (code c + 32)
  else c.

Fixpoint toLowerCase (s : string) : string :=
  match s with
  | EmptyString => EmptyString
  | String c r => String (lowerChar c) (toLowerCase r)
  end.

(** Removing the longest prefix, respectively suffix, of characters
    satisfying [p]: what [trim] does with white space and what
    [replace(/^-+|-+$/g, '')] does with hyphens. *)
Fixpoint dropLeading (p : ascii -> bool) (s : string) : string :=
  match s with
  | EmptyString => EmptyString
  | String c r => if p c then dropLeading p r else s
  end.

Fixpoint dropTrailing (p : ascii -> bool) (s : string) : string :=
  match s with
  | EmptyString => EmptyString
  | String c r =>
      match dropTrailing p r with
      | EmptyString => if p c then EmptyString else String c EmptyString
      | r' => String c r'
      end
  end.

(** [String.prototype.trim]. *)
Definition trim (s : string) : string :=
  dropTrailing isSpace (dropLeading isSpace s).

(** [s.substring(0, n)]. *)
Fixpoint substring0 (n : nat) (s : string) : string :=
  match n, s with
  | S n', String c r => String c (substring0 n' r)
  | _, _ => EmptyString
  end.

Fixpoint allChars (p : ascii -> bool) (s : string) : bool :=
  match s with
  | EmptyString => true
  | String c r => p c && allChars p r
  end.

(** The characters of [s] that satisfy [p], in order. *)
Fixpoint keepChars (p : ascii -> bool) (s : string) : string :=
  match s with
  | EmptyString => EmptyString
  | String c r => if p c then String c (keepChars p r) else keepChars p r
  end.

Definition firstChar (s : string) : option ascii :=
  match s with
  | EmptyString => None
  | String c _ => Some c
  end.

Fixpoint lastChar (s : string) : option ascii :=
  match s with
  | EmptyString => None
  | String c EmptyString => Some c
  | String _ r => lastChar r
  end.

Definition holds (p : ascii -> bool) (o : option ascii) : bool :=
  match o with
  | Some c => p c
  | None => false
  end.

(** ** JavaScript values and objects *)

#[warnings="-register-all"]
Inductive JsVal : Type :=
| VUndefined
| VNull
| VBool (b : bool)
| VNum (n : Z)
| VStr (s : string)
| VArr (items : list JsVal)
| VTime (t : Z).

(** A plain object: property name to value.  An absent property reads as
    [undefined], as in the source's [data.title !== undefined] tests. *)
Abbreviation Obj := (gmap string JsVal).

Definition prop (o : Obj) (name : string) : JsVal :=
  default VUndefined (o !! name).

(** [!v] is [negb (truthy v)]. *)
Definition truthy (v : JsVal) : bool :=
  match v with
  | VUndefined | VNull => false
  | VBool b => b
  | VNum n => negb (n =? 0)%Z
  | VStr s => negb (s =? "")
  | VArr _ | VTime _ => true
  end.

(** [v === s] for a string [s]. *)
Definition isStr (s : string) (v : JsVal) : bool :=
  match v with
  | VStr t => t =? s
  | _ => false
  end.

Definition isNull (v : JsVal) : bool :=
  match v with
  | VNull => true
  | _ => false
  end.

(** ** Errors

    Every failure of the source is [throw new Error(message)]; the
    constructors below name the messages after the error taxonomy of the
    specification. *)

Inductive Invalid : Type :=
| NotString (field : string)
| TooLong (field : string)
| TagsNotArray
| TooManyTags
| TagNotString
| TagTooLong.

Inductive Denied : Type :=
| NotAdmin
| NotOwner.

Inductive UploadFailure : Type :=
| HostMessage (message : string)
| HostStatus (status : Z)
| MissingUrl
| NoMessage.

Inductive Error : Type :=
| ValidationError (why : Invalid)
| RequiredFieldMissing (field : string)
| InvalidURL (field : string)
| InvalidStatus
| InvalidSlug
| SlugConflict
| Unauthenticated
| Forbidden (why : Denied)
| NotFound
| NoFile
| InvalidFile
| FileTooLarge
| UploadFailed (why : UploadFailure)
| BackendError (code : string).

Inductive Result (A : Type) : Type :=
| Ok (a : A)
| Throw (e : Error).

Arguments Ok {A} a.
Arguments Throw {A} e.

#[export] Instance Result_ret : MRet Result := fun A a => Ok a.
#[export] Instance Result_bind : MBind Result := fun A B f m =>
  match m with
  | Ok a => f a
  | Throw e => Throw e
  end.

(** [array.map(f)] with a callback that may throw: elements are visited
    left to right and the first exception aborts the whole map. *)
Fixpoint mapThrow {A B : Type} (f : A -> Result B) (l : list A) : Result (list B) :=
  match l with
  | [] => Ok []
  | x :: r => y ← f x; ys ← mapThrow f r; Ok (y :: ys)
  end.

(** ** config.js *)

Record AppConfig : Type := {
  postsPerPage : nat;
  maxImageSize : Z;
  allowedImageTypes : list string;
  maxTitleLength : nat;
  maxTagLength : nat;
  maxTagCount : nat;
  maxDisplayNameLength : nat;
  previewLength : nat;
  wordsPerMinute : nat
}.

Definition APP_CONFIG : AppConfig := {|
  postsPerPage := 10;
  maxImageSize := 5 * 1024 * 1024;
  allowedImageTypes := ["image/jpeg"; "image/png"; "image/gif"; "image/webp"];
  maxTitleLength := 120;
  maxTagLength := 16;
  maxTagCount := 10;
  maxDisplayNameLength := 40;
  previewLength := 150;
  wordsPerMinute := 400
|}.

Definition ADMIN_UIDS : list string := ["SjLJvvCJciUyhwWR6vaJnqQXUpx2"].

(** ** api.posts.js: slugs *)

(** [/^[a-zA-Z0-9]+([a-zA-Z0-9-]*[a-zA-Z0-9])?$/.test(slug)]: the
    expression accepts exactly the non-empty words over letters, digits
    and hyphens that begin and end with a letter or digit. *)
Definition isSlugChar (c : ascii) : bool := isAlnum c || isHyphen c.

Definition isValidSlug (slug : string) : bool :=
  allChars isSlugChar slug
  && holds isAlnum (firstChar slug)
  && holds isAlnum (lastChar slug).

(** [replace(/[^\w\s-]/g, '')]. *)
Definition isSlugSource (c : ascii) : bool := isWord c || isSpace c || isHyphen c.

Fixpoint stripSpecial (s : string) : string :=
  match s with
  | EmptyString => EmptyString
  | String c r => if isSlugSource c then String c (stripSpecial r) else stripSpecial r
  end.

(** [replace(/[\s_-]+/g, '-')]: every maximal run of separators becomes
    one hyphen.  [inRun] tells that the hyphen of the current run has
    already been emitted. *)
Definition isSeparator (c : ascii) : bool := isSpace c || isUnderscore c || isHyphen c.

Fixpoint collapseFrom (inRun : bool) (s : string) : string :=
  match s with
  | EmptyString => EmptyString
  | String c r =>
      if isSeparator c
      then (if inRun then collapseFrom true r else String "-" (collapseFrom true r))
      else String c (collapseFrom false r)
  end.

Definition collapseSeparators (s : string) : string := collapseFrom false s.

(** [replace(/^-+|-+$/g, '')]. *)
Definition trimHyphens (s : string) : string :=
  dropTrailing isHyphen (dropLeading isHyphen s).

Definition generateSlug (title : string) : string :=
  if title =? "" then ""
  else substring0 50 (trimHyphens (collapseSeparators (stripSpecial (toLowerCase title)))).

(** The alphabet of a generated slug: lower-case letters, digits, hyphen. *)
Definition isSlugOutput (c : ascii) : bool := isLower c || isDigit c || isHyphen c.

(** No two adjacent characters both satisfy [p]. *)
Fixpoint noRepeat (p : ascii -> bool) (s : string) : bool :=
  match s with
  | EmptyString => true
  | String c r => negb (p c && holds p (firstChar r)) && noRepeat p r
  end.

(** ** Field validation shared by api.profile.js and api.posts.js *)

(** The callback of [data.tags.map(...)]. *)
Definition checkTag (tag : JsVal) : Result JsVal :=
  match tag with
  | VStr s =>
      let trimmed := trim s in
      if (String.length trimmed =? 0)%nat then Ok VNull
      else if (maxTagLength APP_CONFIG <? String.length trimmed)%nat
           then Throw (ValidationError TagTooLong)
           else Ok (VStr trimmed)
  | _ => Throw (ValidationError TagNotString)
  end.

(** The tag block, identical in [validateProfileData] and
    [validatePostData]: array test, count guard, then
    [map(...).filter(tag => tag !== null).slice(0, maxTagCount)]. *)
Definition validateTags (tags : JsVal) : Result JsVal :=
  match tags with
  | VArr items =>
      if (maxTagCount APP_CONFIG <? length items)%nat
      then Throw (ValidationError TooManyTags)
      else
        mapped ← mapThrow checkTag items;
        Ok (VArr (take (maxTagCount APP_CONFIG)
                       (List.filter (fun tag => negb (isNull tag)) mapped)))
  | _ => Throw (ValidationError TagsNotArray)
  end.

(** A string field with a length limit, stored trimmed. *)
Definition checkText (field : string) (limit : nat) (v : JsVal) : Result JsVal :=
  match v with
  | VStr s =>
      if (limit <? String.length s)%nat
      then Throw (ValidationError (TooLong field))
      else Ok (VStr (trim s))
  | _ => Throw (ValidationError (NotString field))
  end.

(** [if (data.f !== undefined) { ...; validated.f = value }]. *)
Definition whenPresent (data : Obj) (field : string)
    (check : JsVal -> Result JsVal) (validated : Obj) : Result Obj :=
  match prop data field with
  | VUndefined => Ok validated
  | v => x ← check v; Ok (<[field := x]> validated)
  end.

(** A run of such blocks, in order. *)
Fixpoint runSteps (data : Obj) (steps : list (string * (JsVal -> Result JsVal)))
    (validated : Obj) : Result Obj :=
  match steps with
  | [] => Ok validated
  | (field, check) :: rest =>
      validated' ← whenPresent data field check validated;
      runSteps data rest validated'
  end.

(** ** The backend: auth provider, document store, clock, image host

    The external services are state the functions act on.  [calls] records
    every request sent to the document store or the image host, in order. *)

Record User : Type := { uid : string }.

Record File : Type := { fileName : string; fileType : string; fileSize : Z }.

(** What the image host answers to an upload: a rejected request, an HTTP
    error status with the message of its JSON body (empty when there is
    none), or a success body. *)
Inductive Reply : Type :=
| Unreachable (message : string)
| HttpError (status : Z) (message : string)
| HttpOk (result : Obj).

Inductive Call : Type :=
| DocGet (id : string)
| QueryBySlug (slug : string)
| DocAdd (data : Obj)
| DocUpdate (id : string) (patch : Obj)
| DocDelete (id : string)
| Upload (file : File) (folder : string).

(** [currentUser] is the identity the auth provider has established
    ([auth.currentUser] once initialised, mirrored by the module variable
    of auth.js); [autoId] and [generated] stand for the store's id
    generator.  [clock] is what the next [Timestamp.now()] returns and
    [clockAfter] the readings that follow it, one for each later call;
    [hostReply] is the answer of the image host to the next upload and
    [repliesAfter] its answers to the uploads after that. *)
Record Backend : Type := {
  posts : gmap string Obj;
  currentUser : option User;
  autoId : nat -> string;
  generated : nat;
  clock : Z;
  clockAfter : nat -> Z;
  hostReply : Reply;
  repliesAfter : nat -> Reply;
  calls : list Call
}.

Definition logCall (c : Call) (w : Backend) : Backend :=
  {| posts := posts w; currentUser := currentUser w; autoId := autoId w;
     generated := generated w; clock := clock w; clockAfter := clockAfter w;
     hostReply := hostReply w; repliesAfter := repliesAfter w;
     calls := calls w ++ [c] |}.

Definition setPosts (store : gmap string Obj) (w : Backend) : Backend :=
  {| posts := store; currentUser := currentUser w; autoId := autoId w;
     generated := generated w; clock := clock w; clockAfter := clockAfter w;
     hostReply := hostReply w; repliesAfter := repliesAfter w;
     calls := calls w |}.

Definition tickId (w : Backend) : Backend :=
  {| posts := posts w; currentUser := currentUser w; autoId := autoId w;
     generated := S (generated w); clock := clock w; clockAfter := clockAfter w;
     hostReply := hostReply w; repliesAfter := repliesAfter w;
     calls := calls w |}.

(** The clock after one reading has been taken. *)
Definition tickClock (w : Backend) : Backend :=
  {| posts := posts w; currentUser := currentUser w; autoId := autoId w;
     generated := generated w;
     clock := clockAfter w 0; clockAfter := fun n => clockAfter w (S n);
     hostReply := hostReply w; repliesAfter := repliesAfter w;
     calls := calls w |}.

(** The image host after it has answered one upload. *)
Definition nextReply (w : Backend) : Backend :=
  {| posts := posts w; currentUser := currentUser w; autoId := autoId w;
     generated := generated w; clock := clock w; clockAfter := clockAfter w;
     hostReply := repliesAfter w 0; repliesAfter := fun n => repliesAfter w (S n);
     calls := calls w |}.

(** Requests that change the store. *)
Definition isWrite (c : Call) : bool :=
  match c with
  | DocAdd _ | DocUpdate _ _ | DocDelete _ => true
  | _ => false
  end.

Definition noWrites (l : list Call) : Prop := Forall (fun c => isWrite c = false) l.

(** An [async] function: it runs against the backend and either returns
    or rejects; the backend keeps whatever was done before a rejection. *)
Definition M (A : Type) : Type := Backend -> Result A * Backend.

#[export] Instance M_ret : MRet M := fun A a w => (Ok a, w).
#[export] Instance M_bind : MBind M := fun A B f m w =>
  match m w with
  | (Ok a, w') => f a w'
  | (Throw e, w') => (Throw e, w')
  end.

Definition throw {A : Type} (e : Error) : M A := fun w => (Throw e, w).

Definition liftR {A : Type} (r : Result A) : M A := fun w => (r, w).

(** [handleFirebaseError] turns a backend error code into its message and
    leaves the message of any other error as it is; errors are identified
    by their message here, so the translation is the identity on [Error]. *)
Definition handleFirebaseError (e : Error) : Error := e.

(** The [catch] block of [uploadImage] rethrows
    [new Error(error.message || '图片上传失败')]: the message is kept, an
    empty one is replaced by the generic text. *)
Definition uploadErrorMessage (e : Error) : Error :=
  match e with
  | UploadFailed (HostMessage message) =>
      if message =? "" then UploadFailed NoMessage else e
  | _ => e
  end.

(** [try { body } catch (error) { throw new Error(translate(error)) }]. *)
Definition tryCatch {A : Type} (translate : Error -> Error) (body : M A) : M A := fun w =>
  match body w with
  | (Throw e, w') => (Throw (translate e), w')
  | r => r
  end.

(** *** Document store *)

Record Snapshot : Type := { snapId : string; snapData : option Obj }.

Definition snapExists (doc : Snapshot) : bool :=
  match snapData doc with
  | Some _ => true
  | None => false
  end.

(** [db.collection('posts').doc(id).get()].  Keys are taken to be
    well-formed document ids (non-empty, without [/]). *)
Definition docGet (id : string) : M Snapshot := fun w =>
  (Ok {| snapId := id; snapData := posts w !! id |}, logCall (DocGet id) w).

(** The store returns query results ordered by document id; with
    [limit(1)] only the match with the least id is delivered. *)
Definition leastId (docs : list (string * Obj)) : option (string * Obj) :=
  foldr (fun d best =>
           match best with
           | None => Some d
           | Some b => if String.ltb d.1 b.1 then Some d else Some b
           end) None docs.

Definition whereSlug (slug : string) (store : gmap string Obj) : list (string * Obj) :=
  List.filter (fun d => isStr slug (prop d.2 "slug")) (map_to_list store).

Definition firstWithSlug (slug : string) (store : gmap string Obj) : option (string * Obj) :=
  leastId (whereSlug slug store).

(** [db.collection('posts').where('slug', '==', slug).limit(1).get()]:
    the list of delivered documents ([snapshot.docs]). *)
Definition querySlug (slug : string) : M (list Snapshot) := fun w =>
  (Ok match firstWithSlug slug (posts w) with
      | Some d => [ {| snapId := d.1; snapData := Some d.2 |} ]
      | None => []
      end,
   logCall (QueryBySlug slug) w).

(** [db.collection('posts').add(data)]: stores [data] under a generated
    id and returns that id. *)
Definition docAdd (data : Obj) : M string := fun w =>
  let id := autoId w (generated w) in
  (Ok id, logCall (DocAdd data) (tickId (setPosts (<[id := data]> (posts w)) w))).

(** [doc(id).update(patch)]: merges the fields of [patch] into the stored
    document and fails with code [not-found] (one of the codes
    [handleFirebaseError] translates) when there is none. *)
Definition docUpdate (id : string) (patch : Obj) : M unit := fun w =>
  match posts w !! id with
  | Some d =>
      (Ok tt, logCall (DocUpdate id patch) (setPosts (<[id := patch ∪ d]> (posts w)) w))
  | None => (Throw (BackendError "not-found"), logCall (DocUpdate id patch) w)
  end.

(** [doc(id).delete()]: succeeds whether or not the document exists. *)
Definition docDelete (id : string) : M unit := fun w =>
  (Ok tt, logCall (DocDelete id) (setPosts (delete id (posts w)) w)).

(** [timestamp.now()]: every call takes a reading of its own. *)
Definition timestampNow : M JsVal := fun w => (Ok (VTime (clock w)), tickClock w).

(** *** auth.js *)

Definition isAdmin (user : option User) : bool :=
  match user with
  | None => false
  | Some u => existsb (String.eqb (uid u)) ADMIN_UIDS
  end.

(** [waitForAuthInit] resolves to the identity the provider has
    established, [null] when nobody is signed in. *)
Definition requireAuth : M User := fun w =>
  match currentUser w with
  | Some user => (Ok user, w)
  | None => (Throw Unauthenticated, w)
  end.

Definition requireAdmin : M User :=
  user ← requireAuth;
  if negb (isAdmin (Some user)) then throw (Forbidden NotAdmin) else mret user.

(** *** upload.js *)

(** [APP_CONFIG.allowedImageTypes.includes(file.type)]. *)
Definition typeAllowed (f : File) : bool :=
  existsb (String.eqb (fileType f)) (allowedImageTypes APP_CONFIG).

(** The source function returns nothing; here it hands the checked file
    back to its caller. *)
Definition validateImageFile (file : option File) : Result File :=
  match file with
  | None => Throw NoFile
  | Some f =>
      if negb (typeAllowed f)
      then Throw InvalidFile
      else if (maxImageSize APP_CONFIG <? fileSize f)%Z
           then Throw FileTooLarge
           else Ok f
  end.

(** [fetch(uploadUrl, { method: 'POST', body: formData })] followed by
    the reading of the response. *)
Definition postToHost (file : File) (folder : string) : M Obj := fun w =>
  let w' := nextReply (logCall (Upload file folder) w) in
  match hostReply w with
  | Unreachable message => (Throw (UploadFailed (HostMessage message)), w')
  | HttpError status message =>
      (Throw (UploadFailed (if message =? "" then HostStatus status
                            else HostMessage message)), w')
  | HttpOk result => (Ok result, w')
  end.

Definition getCurrentUser : M (option User) := fun w => (Ok (currentUser w), w).

Definition uploadImage (file : option File) (folder : string) : M Obj :=
  tryCatch uploadErrorMessage (
    f ← liftR (validateImageFile file);
    user ← getCurrentUser;
    let userFolder :=
      match user with
      | Some u => folder +:+ "/" +:+ uid u
      | None => folder
      end in
    result ← postToHost f userFolder;
    if negb (truthy (prop result "secure_url")) then throw (UploadFailed MissingUrl)
    else mret (<["url" := prop result "secure_url"]>
              (<["publicId" := prop result "public_id"]>
              (<["width" := prop result "width"]>
              (<["height" := prop result "height"]>
              (<["format" := prop result "format"]>
              (<["bytes" := prop result "bytes"]> (∅ : Obj)))))))).

(** A check is stable when it accepts its own results unchanged and never
    returns [undefined]. *)
Definition stable (check : JsVal -> Result JsVal) : Prop :=
  forall x y, check x = Ok y -> y <> VUndefined /\ check y = Ok y.

Section Blog.

(** [new URL(string).protocol], or [None] when the constructor throws.
    The URL parser belongs to the platform. *)
Variable urlProtocol : string -> option string.

Definition isValidURL (s : string) : bool :=
  match urlProtocol s with
  | Some protocol => (protocol =? "http:") || (protocol =? "https:")
  | None => false
  end.

Definition checkUrl (field : string) (v : JsVal) : Result JsVal :=
  match v with
  | VStr s =>
      let url := trim s in
      if negb (url =? "") && negb (isValidURL url)
      then Throw (InvalidURL field)
      else Ok (VStr url)
  | _ => Throw (ValidationError (NotString field))
  end.

(** *** api.profile.js *)

Definition urlFields : list string := ["photoURL"; "siteBgUrl"; "authorBgUrl"].

Definition validateProfileData (data : Obj) : Result Obj :=
  validated ← whenPresent data "displayName"
                 (checkText "displayName" (maxDisplayNameLength APP_CONFIG)) ∅;
  validated ← whenPresent data "nickname"
                 (checkText "nickname" (maxDisplayNameLength APP_CONFIG)) validated;
  validated ← whenPresent data "bio" (checkText "bio" 500) validated;
  validated ← whenPresent data "tags" validateTags validated;
  runSteps data ((fun field => (field, checkUrl field)) <$> urlFields) validated.

(** *** api.posts.js: [validatePostData] *)

Definition checkTitle (isUpdate : bool) (v : JsVal) : Result JsVal :=
  if negb isUpdate && negb (truthy v) then Throw (RequiredFieldMissing "title")
  else checkText "title" (maxTitleLength APP_CONFIG) v.

Definition checkContent (isUpdate : bool) (v : JsVal) : Result JsVal :=
  if negb isUpdate && negb (truthy v) then Throw (RequiredFieldMissing "contentHtml")
  else match v with
       | VStr s => Ok (VStr (trim s))
       | _ => Throw (ValidationError (NotString "contentHtml"))
       end.

Definition checkStatus (v : JsVal) : Result JsVal :=
  if existsb (fun s => isStr s v) ["draft"; "published"] then Ok v
  else Throw InvalidStatus.

Definition checkSlug (v : JsVal) : Result JsVal :=
  match v with
  | VStr s =>
      let slug := trim s in
      if negb (slug =? "") && negb (isValidSlug slug)
      then Throw InvalidSlug
      else Ok (VStr slug)
  | _ => Throw (ValidationError (NotString "slug"))
  end.

Definition validatePostData (data : Obj) (isUpdate : bool) : Result Obj :=
  validated ← whenPresent data "title" (checkTitle isUpdate) ∅;
  validated ← whenPresent data "contentHtml" (checkContent isUpdate) validated;
  validated ← whenPresent data "status" checkStatus validated;
  validated ← whenPresent data "tags" validateTags validated;
  validated ← whenPresent data "coverUrl" (checkUrl "coverUrl") validated;
  whenPresent data "slug" checkSlug validated.

(** The blocks of the two validators as lists, in source order. *)
Definition profileSteps : list (string * (JsVal -> Result JsVal)) :=
  [ ("displayName", checkText "displayName" (maxDisplayNameLength APP_CONFIG));
    ("nickname", checkText "nickname" (maxDisplayNameLength APP_CONFIG));
    ("bio", checkText "bio" 500);
    ("tags", validateTags) ]
  ++ ((fun field => (field, checkUrl field)) <$> urlFields).

Definition postSteps (isUpdate : bool) : list (string * (JsVal -> Result JsVal)) :=
  [ ("title", checkTitle isUpdate);
    ("contentHtml", checkContent isUpdate);
    ("status", checkStatus);
    ("tags", validateTags);
    ("coverUrl", checkUrl "coverUrl");
    ("slug", checkSlug) ].

(** The fields [validatePostData] can put into its result. *)
Definition postFields : gset string :=
  {[ "title"; "contentHtml"; "status"; "tags"; "coverUrl"; "slug" ]}.

(** *** api.posts.js: operations *)

(** [{ id: doc.id, ...doc.data() }]: a stored field named [id] wins over
    the document id. *)
Definition postView (id : string) (data : Obj) : Obj :=
  data ∪ {["id" := VStr id]}.

Definition viewOf (d : string * Obj) : Obj := postView d.1 d.2.

Definition getPostByIdOrSlug (key : string) : M (option Obj) :=
  tryCatch handleFirebaseError (
    doc ← docGet key;
    doc ← (if negb (snapExists doc) && (20 <? String.length key)%nat
           then
             snapshot ← querySlug key;
             match snapshot with
             | first :: _ => mret first
             | [] => mret doc
             end
           else mret doc);
    match snapData doc with
    | Some data => mret (Some (postView (snapId doc) data))
    | None => mret None
    end).

Definition getPostBySlug (slug : string) : M (option Obj) :=
  tryCatch handleFirebaseError (
    snapshot ← querySlug slug;
    match snapshot with
    | [] => mret None
    | doc :: _ => mret (Some (postView (snapId doc) (default ∅ (snapData doc))))
    end).

(** A parameter with a default value: [tags = []] and the like. *)
Definition orDefault (v fallback : JsVal) : JsVal :=
  match v with
  | VUndefined => fallback
  | _ => v
  end.

(** The parameter of [createPost] after destructuring, as it is handed to
    [validatePostData]: [{ title, contentHtml, tags, status, coverUrl, slug }]
    with [tags = []], [status = 'draft'], [coverUrl = ''] and [slug = '']
    as defaults. *)
Definition createInput (args : Obj) : Obj :=
  <["title" := prop args "title"]>
  (<["contentHtml" := prop args "contentHtml"]>
  (<["tags" := orDefault (prop args "tags") (VArr [])]>
  (<["status" := orDefault (prop args "status") (VStr "draft")]>
  (<["coverUrl" := orDefault (prop args "coverUrl") (VStr "")]>
  (<["slug" := orDefault (prop args "slug") (VStr "")]> ∅))))).

Definition createPost (args : Obj) : M Obj :=
  tryCatch handleFirebaseError (
    user ← requireAdmin;
    validatedData ← liftR (validatePostData (createInput args) false);
    (* [validatedData.slug] is a string here *)
    match prop validatedData "slug" with
    | VStr s =>
        if negb (s =? "")
        then existingPost ← getPostBySlug s;
             match existingPost with
             | Some _ => throw SlugConflict
             | None => mret tt
             end
        else mret tt
    | _ => mret tt
    end;;
    createdAt ← timestampNow;
    updatedAt ← timestampNow;
    let postData :=
      <["updatedAt" := updatedAt]> (<["createdAt" := createdAt]>
        (<["authorId" := VStr (uid user)]> validatedData)) in
    id ← docAdd postData;
    mret (postData ∪ {["id" := VStr id]})).

Definition updatePost (id : string) (patch : Obj) : M Obj :=
  tryCatch handleFirebaseError (
    user ← requireAdmin;
    existingPost ← getPostByIdOrSlug id;
    match existingPost with
    | None => throw NotFound
    | Some existingPost =>
        if negb (isStr (uid user) (prop existingPost "authorId"))
        then throw (Forbidden NotOwner)
        else
          validatedPatch ← liftR (validatePostData patch true);
          (* [validatedPatch.slug] is a string or absent *)
          match prop validatedPatch "slug" with
          | VStr s =>
              if negb (s =? "") && negb (isStr s (prop existingPost "slug"))
              then existingWithSlug ← getPostBySlug s;
                   match existingWithSlug with
                   | Some other =>
                       if negb (isStr id (prop other "id")) then throw SlugConflict
                       else mret tt
                   | None => mret tt
                   end
              else mret tt
          | _ => mret tt
          end;;
          updatedAt ← timestampNow;
          let validatedPatch := <["updatedAt" := updatedAt]> validatedPatch in
          docUpdate id validatedPatch;;
          mret (validatedPatch ∪ (existingPost ∪ {["id" := VStr id]}))
    end).

Definition deletePost (id : string) : M bool :=
  tryCatch handleFirebaseError (
    user ← requireAdmin;
    existingPost ← getPostByIdOrSlug id;
    match existingPost with
    | None => throw NotFound
    | Some existingPost =>
        if negb (isStr (uid user) (prop existingPost "authorId"))
        then throw (Forbidden NotOwner)
        else docDelete id;; mret true
    end).

End Blog.

(** * Further parts of the code *)

(** ** What validated fields look like *)

(** A stored tag: not blank, trimmed, within the length limit. *)
Definition goodTag (t : string) : Prop :=
  t <> "" /\ trim t = t /\ String.length t <= maxTagLength APP_CONFIG.

(** The field is absent, or its value satisfies [P]. *)
Definition fieldIs (o : Obj) (field : string) (P : JsVal -> Prop) : Prop :=
  prop o field = VUndefined \/ P (prop o field).

Definition trimmedWithin (limit : nat) (v : JsVal) : Prop :=
  exists s, v = VStr s /\ trim s = s /\ String.length s <= limit.

Definition trimmedText (v : JsVal) : Prop :=
  exists s, v = VStr s /\ trim s = s.

Definition goodTags (v : JsVal) : Prop :=
  exists tags, v = VArr (VStr <$> tags)
    /\ length tags <= maxTagCount APP_CONFIG /\ Forall goodTag tags.

Definition goodSlug (v : JsVal) : Prop :=
  exists s, v = VStr s /\ (s = "" \/ isValidSlug s = true).

Definition goodStatus (v : JsVal) : Prop :=
  v = VStr "draft" \/ v = VStr "published".

(** What the tag callback makes of a string entry that is not too long. *)
Definition tagOrNull (t : string) : JsVal :=
  if trim t =? "" then VNull else VStr (trim t).

Definition tagTooLong (t : string) : bool :=
  (maxTagLength APP_CONFIG <? String.length (trim t))%nat.

Definition nonBlank (t : string) : bool := negb (t =? "").

(** ** api.profile.js: the profile store

    The [profiles] collection, keyed by uid, beside the backend of the
    post functions.  Requests to it are not logged. *)

(** The identity handed over by the auth provider, with the two fields
    [createInitialProfile] reads besides the uid. *)
Record Identity : Type := {
  identityUser : User;
  identityDisplayName : JsVal;
  identityPhotoURL : JsVal
}.

Record Site : Type := { profiles : gmap string Obj; backend : Backend }.

Definition P (A : Type) : Type := Site -> Result A * Site.

#[export] Instance P_ret : MRet P := fun A a s => (Ok a, s).
#[export] Instance P_bind : MBind P := fun A B f m s =>
  match m s with
  | (Ok a, s') => f a s'
  | (Throw e, s') => (Throw e, s')
  end.

(** A function of the backend alone, run inside the site. *)
Definition onBackend {A : Type} (m : M A) : P A := fun s =>
  let (r, w') := m (backend s) in (r, {| profiles := profiles s; backend := w' |}).

Definition liftP {A : Type} (r : Result A) : P A := fun s => (r, s).

Definition tryCatchP {A : Type} (translate : Error -> Error) (body : P A) : P A := fun s =>
  match body s with
  | (Throw e, s') => (Throw (translate e), s')
  | r => r
  end.

(** [db.collection('profiles').doc(uid).get()]. *)
Definition profileGet (uid : string) : P Snapshot := fun s =>
  (Ok {| snapId := uid; snapData := profiles s !! uid |}, s).

(** [doc(uid).set(data)] replaces the document; with [{ merge: true }] the
    fields of [data] are merged into the stored document, which is created
    when there is none. *)
Definition profileSet (uid : string) (data : Obj) (merge : bool) : P unit := fun s =>
  let stored := if merge then data ∪ default ∅ (profiles s !! uid) else data in
  (Ok tt, {| profiles := <[uid := stored]> (profiles s); backend := backend s |}).

Definition getProfile (uid : string) : P (option Obj) :=
  tryCatchP handleFirebaseError (
    doc ← profileGet uid;
    match snapData doc with
    | Some data => mret (Some (postView (snapId doc) data))
    | None => mret None
    end).

(** [value || '']. *)
Definition orEmpty (v : JsVal) : JsVal := if truthy v then v else VStr "".

Definition createInitialProfile (user : Identity) : P Obj :=
  tryCatchP handleFirebaseError (
    createdAt ← onBackend timestampNow;
    updatedAt ← onBackend timestampNow;
    let profileData : Obj :=
      <["displayName" := orEmpty (identityDisplayName user)]>
      (<["nickname" := VStr ""]>
      (<["bio" := VStr ""]>
      (<["tags" := VArr []]>
      (<["photoURL" := orEmpty (identityPhotoURL user)]>
      (<["siteBgUrl" := VStr ""]>
      (<["authorBgUrl" := VStr ""]>
      (<["createdAt" := createdAt]>
      (<["updatedAt" := updatedAt]> ∅)))))))) in
    profileSet (uid (identityUser user)) profileData false;;
    mret profileData).

Definition getOrCreateProfile (user : Identity) : P Obj :=
  tryCatchP handleFirebaseError (
    profile ← getProfile (uid (identityUser user));
    match profile with
    | Some p => mret p
    | None => createInitialProfile user
    end).

(** [!!(profile?.displayName && profile?.bio)]; [None] is a [null]
    profile. *)
Definition isProfileComplete (profile : option Obj) : bool :=
  match profile with
  | Some p => truthy (prop p "displayName") && truthy (prop p "bio")
  | None => false
  end.

Section MoreBlog.

Variable urlProtocol : string -> option string.

Definition goodUrl (v : JsVal) : Prop :=
  exists url, v = VStr url /\ trim url = url
    /\ (url = "" \/ isValidURL urlProtocol url = true).

(** The fields [validateProfileData] can put into its result. *)
Definition profileFields : gset string :=
  {[ "displayName"; "nickname"; "bio"; "tags"; "photoURL"; "siteBgUrl"; "authorBgUrl" ]}.

(** *** api.profile.js: [updateMyProfile] *)

Definition updateMyProfile (profileData : Obj) : P Obj :=
  tryCatchP handleFirebaseError (
    user ← onBackend requireAuth;
    validatedData ← liftP (validateProfileData urlProtocol profileData);
    updatedAt ← onBackend timestampNow;
    let validatedData := <["updatedAt" := updatedAt]> validatedData in
    profileSet (uid user) validatedData true;;
    mret validatedData).

(** *** api.posts.js: publishing *)

Definition publishPost (id : string) : M Obj :=
  updatePost urlProtocol id {[ "status" := VStr "published" ]}.

Definition unpublishPost (id : string) : M Obj :=
  updatePost urlProtocol id {[ "status" := VStr "draft" ]}.

(** The error of [requireAdmin] for a caller who is no administrator. *)
Definition adminRefusal (w : Backend) : Error :=
  match currentUser w with
  | None => Unauthenticated
  | Some _ => Forbidden NotAdmin
  end.

End MoreBlog.

(** ** api.profile.js: tag input *)

(** A separator of [/[,，\s]+/]: the comma or white space (the full-width
    comma is not a code unit below 256). *)
Definition isTagSeparator (c : ascii) : bool := (code c =? 44)%N || isSpace c.

(** [input.split(/[,，\s]+/)]: the pieces between the maximal runs of
    separators; a run at the very beginning or end yields an empty piece
    there.  [inRun] tells that the scan is inside a run. *)
Fixpoint splitFrom (inRun : bool) (s : string) : list string :=
  match s with
  | EmptyString => [EmptyString]
  | String c r =>
      if isTagSeparator c
      then (if inRun then splitFrom true r else EmptyString :: splitFrom true r)
      else match splitFrom false r with
           | piece :: pieces => String c piece :: pieces
           | [] => [String c EmptyString]
           end
  end.

Definition formatTagsInput (input : JsVal) : list string :=
  match input with
  | VStr s =>
      if s =? "" then []
      else take (maxTagCount APP_CONFIG)
             (List.filter (fun tag => (0 <? String.length tag)%nat)
                (trim <$> splitFrom false s))
  | _ => []
  end.

(** [tags.join(', ')] for an array of strings ([Some]); any argument that
    is not an array ([None]) gives the empty string. *)
Definition tagsToString (tags : option (list string)) : string :=
  match tags with
  | Some items => String.concat ", " items
  | None => ""
  end.

Definition separatorFree (t : string) : bool :=
  allChars (fun c => negb (isTagSeparator c)) t.

(** ** upload.js: batch upload *)

(** The [error] field of an entry of [errors], that is [error.message] of
    what the [catch] block caught: the message of an error of
    [uploadImage], the message of the [TypeError] raised by calling a
    callback that is no function, or whatever the [message] property of a
    value thrown by the callback holds ([VUndefined] when it has none). *)
Inductive Message : Type :=
| UploadMessage (e : Error)
| NotCallable
| ThrownMessage (message : JsVal).

(** An entry of [errors]: [{ file: files[i].name, error: error.message }]. *)
Record UploadError : Type := { errorFile : string; errorMessage : Message }.

(** The argument of the [onProgress] callback. *)
Record Progress : Type := { completed : nat; total : nat; current : Obj }.

(** What [uploadMultipleImages] resolves to: [{ results, errors }]. *)
Record Batch : Type := { results : list Obj; errors : list UploadError }.

(** What the [catch] block catches: a value whose [message] can be read,
    or [null] or [undefined], on which reading [message] raises a
    [TypeError]. *)
Inductive Caught : Type :=
| CaughtError (message : Message)
| CaughtNullish.

(** The [onProgress] argument: falsy ([null] by default), truthy but not
    callable, or a function.  A function is called for its effect on the
    page; [run] tells what a call throws, if it throws.  It is taken to
    leave the files and the backend alone. *)
Inductive Callback : Type :=
| NoCallback
| NotAFunction
| Function (run : Progress -> option Caught).

(** [if (onProgress) { onProgress(progress) }]: what the statement throws. *)
Definition notify (onProgress : Callback) (progress : Progress) : option Caught :=
  match onProgress with
  | NoCallback => None
  | NotAFunction => Some (CaughtError NotCallable)
  | Function run => run progress
  end.

(** The promise [uploadMultipleImages] returns resolves, or rejects with
    the [TypeError] raised inside the [catch] block. *)
Inductive BatchOutcome : Type :=
| Resolved (batch : Batch)
| Rejected.

Definition pushResult (result : Obj) (b : Batch) : Batch :=
  {| results := results b ++ [result]; errors := errors b |}.

Definition pushError (f : File) (message : Message) (b : Batch) : Batch :=
  {| results := results b;
     errors := errors b ++ [ {| errorFile := fileName f; errorMessage := message |} ] |}.

(** The [for] loop from index [i] on.  An entry of [files] is a file, or
    [None] for [null] or [undefined].  The callback is called inside the
    [try] block, after the result has been pushed.  The [catch] block
    reads [files[i].name] and then [error.message]; either raises a
    [TypeError] on [null] or [undefined], which ends the loop and rejects
    the promise. *)
Fixpoint uploadFrom (i count : nat) (files : list (option File)) (folder : string)
    (onProgress : Callback) (b : Batch) (w : Backend) : BatchOutcome * Backend :=
  match files with
  | [] => (Resolved b, w)
  | file :: rest =>
      let (r, w1) := uploadImage file folder w in
      let (b1, caught) :=
        match r with
        | Ok result =>
            (pushResult result b,
             notify onProgress {| completed := S i; total := count; current := result |})
        | Throw e => (b, Some (CaughtError (UploadMessage e)))
        end in
      match caught with
      | None => uploadFrom (S i) count rest folder onProgress b1 w1
      | Some c =>
          match file, c with
          | Some f, CaughtError message =>
              uploadFrom (S i) count rest folder onProgress (pushError f message b1) w1
          | _, _ => (Rejected, w1)
          end
      end
  end.

Definition uploadMultipleImages (files : list (option File)) (folder : string)
    (onProgress : Callback) (w : Backend) : BatchOutcome * Backend :=
  uploadFrom 0 (length files) files folder onProgress {| results := []; errors := [] |} w.

(** The file passes [validateImageFile]. *)
Definition fileAccepted (f : File) : bool :=
  typeAllowed f && negb (maxImageSize APP_CONFIG <? fileSize f)%Z.

(** The folder [uploadImage] sends: [`${folder}/${user.uid}`] for a
    signed-in user. *)
Definition userFolder (w : Backend) (folder : string) : string :=
  match currentUser w with
  | Some u => folder +:+ "/" +:+ uid u
  | None => folder
  end.

(** The backend after [uploadImage] has run on each of [files] in turn. *)
Definition afterUploads (files : list File) (folder : string) (w : Backend) : Backend :=
  foldl (fun w0 f => (uploadImage (Some f) folder w0).2) w files.

(** What [uploadImage] returns for [f], the file at index [k] of [files],
    when the files before it have been uploaded. *)
Definition uploadOutcome (files : list File) (folder : string) (w : Backend)
    (k : nat) (f : File) : Result Obj :=
  (uploadImage (Some f) folder (afterUploads (take k files) folder w)).1.

(** The result a file contributes to [results]. *)
Definition resultEntry (r : Result Obj) : option Obj :=
  match r with
  | Ok result => Some result
  | Throw _ => None
  end.

(** The entry the file at index [k] contributes to [errors]: the error of
    its upload, or what the callback threw when told of its success. *)
Definition errorEntry (onProgress : Callback) (count k : nat) (f : File)
    (r : Result Obj) : option UploadError :=
  match r with
  | Throw e => Some {| errorFile := fileName f; errorMessage := UploadMessage e |}
  | Ok result =>
      match notify onProgress {| completed := S k; total := count; current := result |} with
      | Some (CaughtError message) =>
          Some {| errorFile := fileName f; errorMessage := message |}
      | _ => None
      end
  end.

(** The answer of the image host to upload number [n] from now. *)
Definition replyAt (w : Backend) (n : nat) : Reply :=
  match n with
  | 0 => hostReply w
  | S m => repliesAfter w m
  end.

(** The error of [validateImageFile] for a file it refuses. *)
Definition refusal (f : File) : Error :=
  if typeAllowed f then FileTooLarge else InvalidFile.

(** ** render.js: the hash router *)

Definition isSlash (c : ascii) : bool := (code c =? 47)%N.
Definition isColon (c : ascii) : bool := (code c =? 58)%N.

(** [s.split('/')]: the pieces between the slashes, empty pieces kept. *)
Fixpoint splitSlash (s : string) : list string :=
  match s with
  | EmptyString => [EmptyString]
  | String c r =>
      if isSlash c then EmptyString :: splitSlash r
      else match splitSlash r with
           | piece :: pieces => String c piece :: pieces
           | [] => [String c EmptyString]
           end
  end.

(** [s.slice(1)]. *)
Definition slice1 (s : string) : string :=
  match s with
  | EmptyString => EmptyString
  | String _ r => r
  end.

(** [patternPart.startsWith(':')]. *)
Definition isParam (patternPart : string) : bool := holds isColon (firstChar patternPart).

(** The [params] object: the values are path parts, hence strings. *)
Definition Params : Type := gmap string string.

(** [params[name] = value] on an object literal: assigning a string to
    [__proto__] goes to the setter inherited from [Object.prototype], which
    ignores values that are neither objects nor [null], so no property is
    created. *)
Definition setParam (name value : string) (params : Params) : Params :=
  if String.eqb name "__proto__" then params else <[name := value]> params.

(** The [for] loop of [matchRoute] from some index on; it runs on part
    lists of equal length. *)
Fixpoint matchParts (patternParts pathParts : list string) (params : Params)
    : option Params :=
  match patternParts, pathParts with
  | patternPart :: patternRest, pathPart :: pathRest =>
      if isParam patternPart
      then matchParts patternRest pathRest (setParam (slice1 patternPart) pathPart params)
      else if negb (String.eqb patternPart pathPart) then None
      else matchParts patternRest pathRest params
  | _, _ => Some params
  end.

(** [matchRoute(pattern, path)]: [None] is [null], [Some params] is
    [{ params }]. *)
Definition matchRoute (pattern path : string) : option Params :=
  if String.eqb pattern path then Some ∅
  else
    let patternParts := splitSlash pattern in
    let pathParts := splitSlash path in
    if negb (Nat.eqb (length patternParts) (length pathParts)) then None
    else matchParts patternParts pathParts ∅.

(** [currentRoute]. *)
Record Route : Type := { routePattern : string; routeParams : Params }.

(** A pattern part and a path part agree: the test of one loop round. *)
Definition partMatches (patternPart pathPart : string) : bool :=
  isParam patternPart || String.eqb patternPart pathPart.

Section Router.

(** The handlers are callbacks of the pages; the router only stores and
    calls them. *)
Variable Handler : Type.

(** [routes] is a [Map]: the entries in insertion order, one per key. *)
Definition Routes : Type := list (string * Handler).

(** [this.routes.get(key)]. *)
Fixpoint routesGet (key : string) (routes : Routes) : option Handler :=
  match routes with
  | [] => None
  | (p, h) :: rest => if String.eqb p key then Some h else routesGet key rest
  end.

(** The [for ... of this.routes] loop: the first entry whose pattern
    matches. *)
Fixpoint firstMatch (routes : Routes) (hash : string) : option (string * Handler * Params) :=
  match routes with
  | [] => None
  | (pattern, handler) :: rest =>
      match matchRoute pattern hash with
      | Some params => Some (pattern, handler, params)
      | None => firstMatch rest hash
      end
  end.

(** [window.location.hash.slice(1) || '/']. *)
Definition routeHash (locationHash : string) : string :=
  match slice1 locationHash with
  | EmptyString => "/"
  | h => h
  end.

(** [handleRoute()]: the handler called with its argument, if one is
    called, and [currentRoute] afterwards. *)
Definition handleRoute (routes : Routes) (currentRoute : option Route)
    (locationHash : string) : option (Handler * Params) * option Route :=
  let hash := routeHash locationHash in
  match firstMatch routes hash with
  | Some (pattern, handler, params) =>
      (Some (handler, params),
       Some {| routePattern := pattern; routeParams := params |})
  | None =>
      (match routesGet "/" routes with
       | Some handler => Some (handler, ∅)
       | None => None
       end,
       currentRoute)
  end.

End Router.

(** * Sample data *)

(** A stand-in for the platform's URL parser: it recognises the two
    schemes the validators accept. *)
Definition sampleUrlProtocol (s : string) : option string :=
  if String.prefix "http://" s then Some "http:"
  else if String.prefix "https://" s then Some "https:"
  else None.

Definition elevenTags : JsVal := VArr (replicate 11 (VStr "a")).

Definition sampleProfile : Obj :=
  <["displayName" := VStr "  Ann  "]>
  (<["bio" := VStr "writes "]>
  (<["tags" := VArr [VStr " rocq "; VStr "   "; VStr "js"]]>
  (<["photoURL" := VStr " https://example.org/a.png"]>
  (<["siteBgUrl" := VStr ""]> ∅)))).

Definition sampleProfileValidated : Obj :=
  <["displayName" := VStr "Ann"]>
  (<["bio" := VStr "writes"]>
  (<["tags" := VArr [VStr "rocq"; VStr "js"]]>
  (<["photoURL" := VStr "https://example.org/a.png"]>
  (<["siteBgUrl" := VStr ""]> ∅)))).

Definition admin : User := {| uid := "SjLJvvCJciUyhwWR6vaJnqQXUpx2" |}.

Definition firstPostId : string := "Xk3pQ9ZrT2mAbCdEfGhI".

Definition samplePost (slug : string) : Obj :=
  <["title" := VStr "First post"]>
  (<["contentHtml" := VStr "<p>Hello</p>"]>
  (<["status" := VStr "draft"]>
  (<["tags" := VArr [VStr "intro"]]>
  (<["coverUrl" := VStr ""]>
  (<["slug" := VStr slug]>
  (<["authorId" := VStr (uid admin)]>
  (<["createdAt" := VTime 1700000000]>
  (<["updatedAt" := VTime 1700000000]> ∅)))))))).

Definition sampleAutoId (n : nat) : string :=
  String (ascii_of_nat (65 + n)) "utoGeneratedId000001".

(** A backend holding one post, with the administrator signed in. *)
Definition backendWith (slug : string) : Backend :=
  {| posts := {[ firstPostId := samplePost slug ]};
     currentUser := Some admin;
     autoId := sampleAutoId;
     generated := 0;
     clock := 1700000500;
     clockAfter := fun n => (1700000560 + 60 * Z.of_nat n)%Z;
     hostReply := HttpError 401 "";
     repliesAfter := fun _ => HttpError 401 "";
     calls := [] |}.

Definition shortSlug : string := "hello-world".
Definition longSlug : string := "a-very-long-slug-for-my-first-post".

Definition publishPatch : Obj := {[ "status" := VStr "published" ]}.

Definition secondPostArgs : Obj :=
  <["title" := VStr "Second post"]>
  (<["contentHtml" := VStr "<p>Again</p>"]>
  (<["slug" := VStr shortSlug]> ∅)).

Definition untitledArgs : Obj := {[ "contentHtml" := VStr "<p>text</p>" ]}.

Definition textFile : File :=
  {| fileName := "notes.txt"; fileType := "text/plain"; fileSize := 1024 |}.

Definition hugePhoto : File :=
  {| fileName := "huge.png"; fileType := "image/png"; fileSize := 6 * 1024 * 1024 |}.

Definition secondPostValidated : Obj :=
  <["title" := VStr "Second post"]>
  (<["contentHtml" := VStr "<p>Again</p>"]>
  (<["status" := VStr "draft"]>
  (<["tags" := VArr []]>
  (<["coverUrl" := VStr ""]>
  (<["slug" := VStr shortSlug]> ∅))))).

Definition hijackPatch : Obj :=
  <["authorId" := VStr "someone-else"]> publishPatch.

(** A signed-in visitor who is not an administrator. *)
Definition reader : User := {| uid := "k2Reader0000000000000000000A" |}.

Definition readerBackend : Backend :=
  {| posts := {[ firstPostId := samplePost shortSlug ]};
     currentUser := Some reader;
     autoId := sampleAutoId;
     generated := 0;
     clock := 1700000500;
     clockAfter := fun n => (1700000560 + 60 * Z.of_nat n)%Z;
     hostReply := HttpError 401 "";
     repliesAfter := fun _ => HttpError 401 "";
     calls := [] |}.

Definition retitlePatch : Obj :=
  <["title" := VStr "  A new title "]> publishPatch.

Definition retitlePatchValidated : Obj :=
  <["title" := VStr "A new title"]> publishPatch.

Definition blankTitle : string := "   ".

Definition sampleTags : list string := ["rocq"; "js"].

Definition storedProfile : Obj :=
  <["displayName" := VStr "Ann"]>
  (<["nickname" := VStr "annie"]>
  (<["bio" := VStr ""]>
  (<["createdAt" := VTime 1700000000]> ∅))).

(** A site where the administrator has a profile without a bio. *)
Definition sampleSite : Site :=
  {| profiles := {[ uid admin := storedProfile ]};
     backend := backendWith shortSlug |}.

Definition postRoute : string := "/post/:id".
Definition aboutRoute : string := "/about".

Definition coverPhoto : File :=
  {| fileName := "cover.png"; fileType := "image/png"; fileSize := 204800 |}.

Definition hostAnswer : Obj :=
  <["secure_url" := VStr "https://res.cloudinary.com/demo/image/upload/v1/cover.png"]>
  (<["public_id" := VStr "posts/cover"]> ∅).

(** The administrator's backend with an image host that stores the first
    upload and is out of service afterwards. *)
Definition uploadBackend : Backend :=
  {| posts := ∅;
     currentUser := Some admin;
     autoId := sampleAutoId;
     generated := 0;
     clock := 1700000500;
     clockAfter := fun n => (1700000560 + 60 * Z.of_nat n)%Z;
     hostReply := HttpOk hostAnswer;
     repliesAfter := fun _ => HttpError 503 "";
     calls := [] |}.

(** A callback that throws when it is told of the second file. *)
Definition failingCallback : Callback :=
  Function (fun progress =>
    if Nat.eqb (completed progress) 2
    then Some (CaughtError (ThrownMessage (VStr "no progress bar")))
    else None).

Definition sampleBatch : list File := [textFile; coverPhoto; coverPhoto].

(** * Properties *)

(** ** Strings *)

Lemma dropLeading_head p s : holds p (firstChar (dropLeading p s)) = false.
Proof.
  induction s as [|c r IH]; simpl; [reflexivity|].
  destruct (p c) eqn:E; [exact IH | simpl; exact E].
Qed.

Lemma dropLeading_fixed p s :
  holds p (firstChar s) = false -> dropLeading p s = s.
Proof. destruct s as [|c r]; simpl; [reflexivity|]. intros ->. reflexivity. Qed.

Lemma dropTrailing_cons p c r :
  dropTrailing p (String c r) =
    if (dropTrailing p r =? "") && p c then "" else String c (dropTrailing p r).
Proof. simpl. destruct (dropTrailing p r); simpl; [destruct (p c)|]; reflexivity. Qed.

Lemma dropTrailing_idem p s : dropTrailing p (dropTrailing p s) = dropTrailing p s.
Proof.
  induction s as [|c r IH]; [reflexivity|].
  rewrite dropTrailing_cons.
  destruct (dropTrailing p r =? "") eqn:E; cbn [andb].
  - destruct (p c) eqn:Ec; [reflexivity|].
    rewrite dropTrailing_cons, IH, E, Ec. reflexivity.
  - rewrite dropTrailing_cons, IH, E. reflexivity.
Qed.

Lemma dropTrailing_head p s :
  holds p (firstChar s) = false -> holds p (firstChar (dropTrailing p s)) = false.
Proof.
  destruct s as [|c r]; [reflexivity|]. cbn [firstChar holds]. intros E.
  rewrite dropTrailing_cons, E, andb_false_r. exact E.
Qed.

Lemma dropTrailing_fixed p s :
  holds p (lastChar s) = false -> s <> "" -> dropTrailing p s = s.
Proof.
  induction s as [|c r IH]; [congruence|]. intros H _.
  rewrite dropTrailing_cons. destruct r as [|d r'].
  - simpl in *. rewrite H. reflexivity.
  - rewrite IH by (exact H || congruence). reflexivity.
Qed.

Lemma trim_idem s : trim (trim s) = trim s.
Proof.
  unfold trim.
  rewrite (dropLeading_fixed isSpace (dropTrailing isSpace _)).
  - apply dropTrailing_idem.
  - apply dropTrailing_head, dropLeading_head.
Qed.

Lemma length_dropLeading p s : String.length (dropLeading p s) <= String.length s.
Proof.
  induction s as [|c r IH]; simpl; [lia|]. destruct (p c); simpl; lia.
Qed.

Lemma length_dropTrailing p s : String.length (dropTrailing p s) <= String.length s.
Proof.
  induction s as [|c r IH]; [simpl; lia|]. rewrite dropTrailing_cons.
  destruct (_ && _); simpl; lia.
Qed.

Lemma length_trim s : String.length (trim s) <= String.length s.
Proof.
  unfold trim. etransitivity; [apply length_dropTrailing | apply length_dropLeading].
Qed.

Lemma length_substring0 n s : String.length (substring0 n s) <= n.
Proof.
  revert s. induction n as [|n IH]; intros [|c r]; simpl; try lia.
  specialize (IH r). lia.
Qed.

Lemma allChars_dropLeading q p s :
  allChars q s = true -> allChars q (dropLeading p s) = true.
Proof.
  induction s as [|c r IH]; simpl; [easy|]. intros H.
  destruct (p c); [|exact H]. apply andb_prop in H. apply IH, H.
Qed.

Lemma allChars_dropTrailing q p s :
  allChars q s = true -> allChars q (dropTrailing p s) = true.
Proof.
  induction s as [|c r IH]; [easy|]. intros H. simpl in H. apply andb_prop in H.
  rewrite dropTrailing_cons. destruct (_ && _); [reflexivity|].
  simpl. rewrite (proj1 H), IH; [reflexivity | apply H].
Qed.

Lemma allChars_substring0 q n s :
  allChars q s = true -> allChars q (substring0 n s) = true.
Proof.
  revert s. induction n as [|n IH]; intros [|c r]; simpl; try easy.
  intros H. apply andb_prop in H. rewrite (proj1 H), IH; [reflexivity | apply H].
Qed.

Lemma firstChar_substring0 n s : firstChar (substring0 (S n) s) = firstChar s.
Proof. destruct s; reflexivity. Qed.

(** A valid slug has no white space at either end. *)
Lemma alnum_not_space (o : option ascii) : holds isAlnum o = true -> holds isSpace o = false.
Proof.
  destruct o as [c|]; [|easy]. simpl.
  destruct c as [[] [] [] [] [] [] [] []]; vm_compute; congruence.
Qed.

Lemma isValidSlug_nonempty s : isValidSlug s = true -> s <> "".
Proof. intros H ->. discriminate H. Qed.

Lemma trim_valid_slug s : isValidSlug s = true -> trim s = s.
Proof.
  intros H. pose proof (isValidSlug_nonempty s H) as Hne.
  unfold isValidSlug in H. apply andb_prop in H as [H Hl]. apply andb_prop in H as [_ Hf].
  unfold trim. rewrite dropLeading_fixed by (apply alnum_not_space, Hf).
  apply dropTrailing_fixed; [apply alnum_not_space, Hl | exact Hne].
Qed.

(** ** [generateSlug] *)

Lemma lowerChar_kept c :
  isSlugSource (lowerChar c) = true -> isUpper (lowerChar c) = false.
Proof. destruct c as [[] [] [] [] [] [] [] []]; vm_compute; congruence. Qed.

Lemma kept_not_separator c :
  isSlugSource c = true -> isUpper c = false -> isSeparator c = false ->
  isSlugOutput c = true /\ isHyphen c = false.
Proof. destruct c as [[] [] [] [] [] [] [] []]; vm_compute; intuition congruence. Qed.

Lemma stripSpecial_lower s :
  allChars (fun c => isSlugSource c && negb (isUpper c)) (stripSpecial (toLowerCase s)) = true.
Proof.
  induction s as [|c r IH]; simpl; [reflexivity|].
  destruct (isSlugSource (lowerChar c)) eqn:E; [|exact IH].
  simpl. rewrite E, (lowerChar_kept c E), IH. reflexivity.
Qed.

Lemma collapseFrom_props s :
  allChars (fun c => isSlugSource c && negb (isUpper c)) s = true ->
  forall inRun,
    allChars isSlugOutput (collapseFrom inRun s) = true
    /\ noRepeat isHyphen (collapseFrom inRun s) = true
    /\ (inRun = true -> holds isHyphen (firstChar (collapseFrom inRun s)) = false).
Proof.
  induction s as [|c r IH]; intros H inRun; [simpl; auto|].
  simpl in H. apply andb_prop in H as [Hc Hr]. apply andb_prop in Hc as [Hs Hu].
  apply negb_true_iff in Hu.
  simpl. destruct (isSeparator c) eqn:Esep.
  - destruct (IH Hr true) as (Ha & Hn & Hh). specialize (Hh eq_refl).
    destruct inRun; [auto|].
    simpl. rewrite Ha, Hn, Hh. repeat split; discriminate.
  - destruct (IH Hr false) as (Ha & Hn & _).
    destruct (kept_not_separator c Hs Hu Esep) as [Ho Hy].
    simpl. rewrite Ho, Ha, Hn, Hy. auto.
Qed.

Lemma noRepeat_dropLeading p q s :
  noRepeat p s = true -> noRepeat p (dropLeading q s) = true.
Proof.
  induction s as [|c r IH]; simpl; [easy|]. intros H.
  destruct (q c); [|exact H]. apply andb_prop in H. apply IH, H.
Qed.

Lemma firstChar_dropTrailing p q s :
  holds p (firstChar s) = false -> holds p (firstChar (dropTrailing q s)) = false.
Proof.
  destruct s as [|c r]; [easy|]. rewrite dropTrailing_cons.
  destruct (_ && _); easy.
Qed.

Lemma noRepeat_dropTrailing p q s :
  noRepeat p s = true -> noRepeat p (dropTrailing q s) = true.
Proof.
  induction s as [|c r IH]; [easy|]. intros H. simpl in H. apply andb_prop in H as [Hc Hr].
  rewrite dropTrailing_cons. destruct ((dropTrailing q r =? "") && q c); [reflexivity|].
  simpl. rewrite (IH Hr), andb_true_r.
  destruct (p c); [|reflexivity]. simpl in *.
  apply negb_true_iff in Hc. rewrite (firstChar_dropTrailing p q r Hc). reflexivity.
Qed.

Lemma firstChar_substring0_holds p n s :
  holds p (firstChar s) = false -> holds p (firstChar (substring0 n s)) = false.
Proof. destruct n, s; easy. Qed.

Lemma noRepeat_substring0 p n s :
  noRepeat p s = true -> noRepeat p (substring0 n s) = true.
Proof.
  revert s. induction n as [|n IH]; intros [|c r]; simpl; try easy.
  intros H. apply andb_prop in H as [Hc Hr]. rewrite (IH r Hr), andb_true_r.
  destruct (p c); [|reflexivity]. simpl in *.
  apply negb_true_iff in Hc. rewrite (firstChar_substring0_holds p n r Hc). reflexivity.
Qed.

Lemma lastChar_dropTrailing p s : holds p (lastChar (dropTrailing p s)) = false.
Proof.
  induction s as [|c r IH]; [reflexivity|]. rewrite dropTrailing_cons.
  destruct (dropTrailing p r) as [|d r'] eqn:E.
  - cbn [String.eqb andb]. destruct (p c) eqn:Ec; [reflexivity | exact Ec].
  - cbn [String.eqb andb]. exact IH.
Qed.

Lemma substring0_all n s : String.length s <= n -> substring0 n s = s.
Proof.
  revert s. induction n as [|n IH]; intros [|c r] H; cbn in *; try reflexivity; try lia.
  rewrite IH by lia. reflexivity.
Qed.

Lemma length_substring0_min n s :
  String.length (substring0 n s) = Nat.min n (String.length s).
Proof.
  revert s. induction n as [|n IH]; intros [|c r]; cbn; try reflexivity.
  rewrite IH. reflexivity.
Qed.

Lemma isAlnum_lowerChar c : isAlnum (lowerChar c) = isAlnum c.
Proof. destruct c as [[] [] [] [] [] [] [] []]; vm_compute; reflexivity. Qed.

Lemma isAlnum_kept c : isAlnum c = true -> isSlugSource c = true /\ isSeparator c = false.
Proof. destruct c as [[] [] [] [] [] [] [] []]; vm_compute; intuition congruence. Qed.

Lemma keepChars_toLowerCase s :
  keepChars isAlnum (toLowerCase s) = toLowerCase (keepChars isAlnum s).
Proof.
  induction s as [|c r IH]; [reflexivity|]. cbn [toLowerCase keepChars].
  rewrite isAlnum_lowerChar. destruct (isAlnum c); cbn [toLowerCase]; rewrite IH; reflexivity.
Qed.

Lemma keepChars_stripSpecial s :
  keepChars isAlnum (stripSpecial s) = keepChars isAlnum s.
Proof.
  induction s as [|c r IH]; [reflexivity|]. cbn [stripSpecial keepChars].
  destruct (isAlnum c) eqn:Ea.
  - rewrite (proj1 (isAlnum_kept c Ea)). cbn [keepChars]. rewrite Ea, IH. reflexivity.
  - destruct (isSlugSource c); [cbn [keepChars]; rewrite Ea|]; exact IH.
Qed.

Lemma keepChars_collapseFrom s :
  forall inRun, keepChars isAlnum (collapseFrom inRun s) = keepChars isAlnum s.
Proof.
  induction s as [|c r IH]; intros inRun; [reflexivity|]. cbn [collapseFrom keepChars].
  destruct (isAlnum c) eqn:Ea.
  - rewrite (proj2 (isAlnum_kept c Ea)). cbn [keepChars]. rewrite Ea, IH. reflexivity.
  - destruct (isSeparator c).
    + destruct inRun; [apply IH|]. cbn [keepChars].
      change (isAlnum "-") with false. cbv iota. apply IH.
    + cbn [keepChars]. rewrite Ea. apply IH.
Qed.

Lemma keepChars_dropLeading q p s :
  (forall c, p c = true -> q c = false) ->
  keepChars q (dropLeading p s) = keepChars q s.
Proof.
  intros H. induction s as [|c r IH]; [reflexivity|]. cbn [dropLeading].
  destruct (p c) eqn:Ep; [|reflexivity]. cbn [keepChars]. rewrite (H c Ep). exact IH.
Qed.

Lemma keepChars_dropTrailing q p s :
  (forall c, p c = true -> q c = false) ->
  keepChars q (dropTrailing p s) = keepChars q s.
Proof.
  intros H. induction s as [|c r IH]; [reflexivity|]. rewrite dropTrailing_cons.
  destruct (dropTrailing p r =? "") eqn:E; cbn [andb].
  - apply String.eqb_eq in E. rewrite E in *. cbn [keepChars] in IH.
    destruct (p c) eqn:Ep; cbn [keepChars].
    + rewrite (H c Ep). exact IH.
    + rewrite <- IH. reflexivity.
  - cbn [keepChars]. rewrite IH. reflexivity.
Qed.

Lemma hyphen_not_alnum c : isHyphen c = true -> isAlnum c = false.
Proof. destruct c as [[] [] [] [] [] [] [] []]; vm_compute; congruence. Qed.

(** C6. [generateSlug] (the specification's [deriveSlug]) lower-cases the
    title, removes every character that is not a word character, white
    space or a hyphen, turns each run of white space, underscores and
    hyphens into one hyphen, removes the hyphens at both ends and keeps the
    first 50 characters.  What each step achieves: the slug before the cut
    has exactly the letters and digits of the title, in order and in lower
    case, joined by single hyphens, with no hyphen in front or at the end;
    the generated slug is its prefix of 50 characters, or all of it when it
    is shorter.  Hence a generated slug has at most 50 characters, all of
    them lower-case letters, digits or hyphens, never two hyphens in a row,
    no hyphen in front, and none at the end unless the cut left one there.
    ["Hello, World!  Test_123"] gives ["hello-world-test-123"], ["---"]
    gives the empty string and [" - Post #1 - "] gives ["post-1"]. *)
Theorem generateSlug_pipeline :
  generateSlug "Hello, World!  Test_123" = "hello-world-test-123"
  /\ generateSlug "---" = ""
  /\ generateSlug " - Post #1 - " = "post-1"
  /\ forall title : string,
       let uncut := dropTrailing isHyphen (dropLeading isHyphen
                      (collapseSeparators (stripSpecial (toLowerCase title)))) in
       generateSlug title = substring0 50 uncut
       /\ (keepChars isAlnum uncut = toLowerCase (keepChars isAlnum title)
           /\ allChars isSlugOutput uncut = true
           /\ noRepeat isHyphen uncut = true
           /\ holds isHyphen (firstChar uncut) = false
           /\ holds isHyphen (lastChar uncut) = false)
       /\ String.length (generateSlug title) = Nat.min 50 (String.length uncut)
       /\ (String.length uncut <= 50 -> generateSlug title = uncut)
       /\ String.length (generateSlug title) <= 50
       /\ allChars isSlugOutput (generateSlug title) = true
       /\ noRepeat isHyphen (generateSlug title) = true
       /\ holds isHyphen (firstChar (generateSlug title)) = false
       /\ (String.length uncut <= 50 ->
           holds isHyphen (lastChar (generateSlug title)) = false).
Proof.
  split; [reflexivity|]. split; [reflexivity|]. split; [reflexivity|]. intros title uncut.
  assert (E : generateSlug title = substring0 50 uncut).
  { unfold generateSlug, trimHyphens. destruct title; reflexivity. }
  destruct (collapseFrom_props _ (stripSpecial_lower title) false) as (Ha & Hn & _).
  fold (collapseSeparators (stripSpecial (toLowerCase title))) in Ha, Hn.
  assert (Hl : holds isHyphen (lastChar uncut) = false) by apply lastChar_dropTrailing.
  assert (Hk : keepChars isAlnum uncut = toLowerCase (keepChars isAlnum title)).
  { unfold uncut, collapseSeparators.
    rewrite (keepChars_dropTrailing _ _ _ hyphen_not_alnum).
    rewrite (keepChars_dropLeading _ _ _ hyphen_not_alnum).
    rewrite keepChars_collapseFrom, keepChars_stripSpecial. apply keepChars_toLowerCase. }
  split; [exact E|]. rewrite E.
  split; [split; [exact Hk|]; repeat split|].
  - apply allChars_dropTrailing, allChars_dropLeading, Ha.
  - apply noRepeat_dropTrailing, noRepeat_dropLeading, Hn.
  - apply dropTrailing_head, dropLeading_head.
  - exact Hl.
  - split; [apply length_substring0_min|].
    split; [intros H; apply substring0_all, H|].
    split; [apply length_substring0|].
    split; [apply allChars_substring0, allChars_dropTrailing, allChars_dropLeading, Ha|].
    split; [apply noRepeat_substring0, noRepeat_dropTrailing, noRepeat_dropLeading, Hn|].
    split; [apply firstChar_substring0_holds, dropTrailing_head, dropLeading_head|].
    intros H. rewrite (substring0_all _ _ H). exact Hl.
Qed.

(** ** Presence-guarded field blocks *)

Lemma bind_Ok {A B : Type} (f : A -> Result B) (m : Result A) (b : B) :
  m ≫= f = Ok b -> exists a, m = Ok a /\ f a = Ok b.
Proof. destruct m as [a|e]; [eauto | discriminate]. Qed.

Lemma whenPresent_absent data field check validated :
  prop data field = VUndefined -> whenPresent data field check validated = Ok validated.
Proof. unfold whenPresent. intros ->. reflexivity. Qed.

Lemma whenPresent_present data field check validated :
  prop data field <> VUndefined ->
  whenPresent data field check validated =
    x ← check (prop data field); Ok (<[field := x]> validated).
Proof. unfold whenPresent. destruct (prop data field); congruence. Qed.

Lemma prop_undefined_dec (data : Obj) field :
  {prop data field = VUndefined} + {prop data field <> VUndefined}.
Proof. destruct (prop data field); (left; reflexivity) || (right; discriminate). Qed.

(** Fields that no block of the run names keep their value. *)
Lemma runSteps_other data steps : forall acc v k,
  runSteps data steps acc = Ok v -> k ∉ steps.*1 -> v !! k = acc !! k.
Proof.
  induction steps as [|[f c] rest IH]; intros acc v k H Hk; simpl in *.
  - congruence.
  - apply bind_Ok in H as (acc' & H1 & H2).
    apply not_elem_of_cons in Hk as [Hne Hk].
    rewrite (IH _ _ _ H2 Hk).
    destruct (prop_undefined_dec data f) as [E|E].
    + rewrite whenPresent_absent in H1 by exact E. congruence.
    + rewrite whenPresent_present in H1 by exact E.
      apply bind_Ok in H1 as (x & _ & H1). injection H1 as <-.
      apply lookup_insert_ne. congruence.
Qed.

(** A field named by one block: untouched when absent from the input,
    otherwise set to what the block's check returned. *)
Lemma runSteps_field data steps : forall acc v k c,
  NoDup steps.*1 ->
  runSteps data steps acc = Ok v -> (k, c) ∈ steps ->
  (prop data k = VUndefined -> v !! k = acc !! k)
  /\ (prop data k <> VUndefined -> exists y, c (prop data k) = Ok y /\ v !! k = Some y).
Proof.
  induction steps as [|[f c'] rest IH]; intros acc v k c Hnd H Hin; simpl in *.
  - apply elem_of_nil in Hin as [].
  - apply NoDup_cons in Hnd as [Hf Hnd].
    apply bind_Ok in H as (acc' & H1 & H2).
    apply elem_of_cons in Hin as [Heq|Hin].
    + injection Heq as -> ->.
      rewrite (runSteps_other _ _ _ _ _ H2 Hf). split; intros E.
      * rewrite whenPresent_absent in H1 by exact E. congruence.
      * rewrite whenPresent_present in H1 by exact E.
        apply bind_Ok in H1 as (x & Hx & H1). injection H1 as <-.
        exists x. split; [exact Hx | apply lookup_insert_eq].
    + assert (Hne : f <> k).
      { intros ->. apply Hf. apply list_elem_of_fmap. exists (k, c). auto. }
      destruct (IH _ _ _ _ Hnd H2 Hin) as [Ha Hp].
      assert (Hacc : acc' !! k = acc !! k).
      { destruct (prop_undefined_dec data f) as [E|E].
        - rewrite whenPresent_absent in H1 by exact E. congruence.
        - rewrite whenPresent_present in H1 by exact E.
          apply bind_Ok in H1 as (x & _ & H1). injection H1 as <-.
          apply lookup_insert_ne. exact Hne. }
      split; [intros E; rewrite (Ha E); exact Hacc | exact Hp].
Qed.

(** The run succeeds as soon as every present field passes its check. *)
Lemma runSteps_total data steps : forall acc,
  (forall k c, (k, c) ∈ steps ->
     prop data k = VUndefined \/ exists y, c (prop data k) = Ok y) ->
  exists v, runSteps data steps acc = Ok v.
Proof.
  induction steps as [|[f c] rest IH]; intros acc H; simpl.
  - eauto.
  - destruct (H f c) as [E|[y Hy]]; [left | |].
    + rewrite whenPresent_absent by exact E. simpl.
      apply IH. intros k c' Hin. apply H. right. exact Hin.
    + destruct (prop_undefined_dec data f) as [E|E].
      * rewrite whenPresent_absent by exact E. simpl.
        apply IH. intros k c' Hin. apply H. right. exact Hin.
      * rewrite whenPresent_present by exact E. rewrite Hy. simpl.
        apply IH. intros k c' Hin. apply H. right. exact Hin.
Qed.

Lemma runSteps_app data pre post acc :
  runSteps data (pre ++ post) acc = runSteps data pre acc ≫= runSteps data post.
Proof.
  revert acc. induction pre as [|[f c] rest IH]; intros acc; [reflexivity|].
  cbn [app runSteps]. destruct (whenPresent data f c acc) as [acc'|e]; [|reflexivity].
  apply IH.
Qed.

(** A present field whose check throws stops the run there, unless an
    earlier block has thrown already. *)
Lemma runSteps_throw_at data pre k c post e acc :
  prop data k <> VUndefined -> c (prop data k) = Throw e ->
  runSteps data (pre ++ (k, c) :: post) acc
    = runSteps data pre acc ≫= fun _ => Throw e.
Proof.
  intros Hp Hc. rewrite runSteps_app.
  destruct (runSteps data pre acc) as [acc'|e']; [|reflexivity].
  cbn. rewrite whenPresent_present by exact Hp. rewrite Hc. reflexivity.
Qed.

Lemma prop_lookup (o : Obj) k y : o !! k = Some y -> prop o k = y.
Proof. unfold prop. intros ->. reflexivity. Qed.

Lemma prop_defined (o : Obj) k y : prop o k = y -> y <> VUndefined -> o !! k = Some y.
Proof. unfold prop. destruct (o !! k); simpl; congruence. Qed.

Lemma prop_absent (o : Obj) k : o !! k = None -> prop o k = VUndefined.
Proof. unfold prop. intros ->. reflexivity. Qed.

Lemma runSteps_idempotent data steps v :
  NoDup steps.*1 ->
  (forall k c, (k, c) ∈ steps -> stable c) ->
  runSteps data steps ∅ = Ok v ->
  runSteps v steps ∅ = Ok v.
Proof.
  intros Hnd Hst Hrun.
  assert (Hv : forall k c, (k, c) ∈ steps ->
            (prop data k = VUndefined /\ v !! k = None)
            \/ (exists y, v !! k = Some y /\ y <> VUndefined /\ c y = Ok y)).
  { intros k c Hin. destruct (runSteps_field _ _ _ _ _ _ Hnd Hrun Hin) as [Ha Hp].
    destruct (prop_undefined_dec data k) as [E|E].
    - left. split; [exact E|]. rewrite (Ha E). apply lookup_empty.
    - right. destruct (Hp E) as (y & Hy & Hl). exists y.
      split; [exact Hl | exact (Hst _ _ Hin _ _ Hy)]. }
  destruct (runSteps_total v steps ∅) as [v' Hrun'].
  { intros k c Hin. destruct (Hv k c Hin) as [[_ Hn]|(y & Hl & _ & Hc)].
    - left. apply prop_absent, Hn.
    - right. exists y. rewrite (prop_lookup _ _ _ Hl). exact Hc. }
  rewrite Hrun'. f_equal. apply map_eq. intros k.
  destruct (decide (k ∈ steps.*1)) as [Hk|Hk].
  - apply list_elem_of_fmap in Hk as ([k' c] & -> & Hin). simpl.
    destruct (runSteps_field _ _ _ _ _ _ Hnd Hrun' Hin) as [Ha Hp].
    destruct (Hv k' c Hin) as [[_ Hn]|(y & Hl & Hy & Hc)].
    + rewrite Hn. rewrite (Ha (prop_absent _ _ Hn)). apply lookup_empty.
    + rewrite Hl. pose proof (prop_lookup _ _ _ Hl) as Ep.
      destruct Hp as (y' & Hy' & Hl'); [congruence|].
      rewrite Hl'. rewrite Ep in Hy'. congruence.
  - rewrite (runSteps_other _ _ _ _ _ Hrun' Hk), (runSteps_other _ _ _ _ _ Hrun Hk).
    reflexivity.
Qed.

(** ** The validators *)

Lemma mapThrow_Ok {A B : Type} (f : A -> Result B) l ys :
  mapThrow f l = Ok ys -> Forall2 (fun x y => f x = Ok y) l ys.
Proof.
  revert ys. induction l as [|x r IH]; intros ys H; simpl in H.
  - injection H as <-. constructor.
  - apply bind_Ok in H as (y & Hy & H). apply bind_Ok in H as (ys' & Hr & H).
    injection H as <-. constructor; auto.
Qed.

Lemma mapThrow_fixed (f : JsVal -> Result JsVal) l :
  Forall (fun x => f x = Ok x) l -> mapThrow f l = Ok l.
Proof.
  induction 1 as [|x r Hx _ IH]; simpl; [reflexivity|]. rewrite Hx. simpl.
  rewrite IH. reflexivity.
Qed.

(** What [checkTag] lets through: [null] for a blank entry, otherwise a
    trimmed, non-empty tag within the length limit, which [checkTag]
    returns unchanged. *)
Lemma checkTag_Ok x y :
  checkTag x = Ok y -> y = VNull \/ (isNull y = false /\ checkTag y = Ok y).
Proof.
  destruct x; cbn [checkTag]; try discriminate. cbv zeta.
  destruct (String.length (trim s) =? 0)%nat eqn:E0; [intros [= <-]; auto|].
  destruct (maxTagLength APP_CONFIG <? String.length (trim s))%nat eqn:El; [discriminate|].
  intros [= <-]. right. split; [reflexivity|].
  cbn [checkTag]. cbv zeta. rewrite trim_idem, E0, El. reflexivity.
Qed.

Lemma filter_fixed {A : Type} (p : A -> bool) l :
  Forall (fun x => p x = true) l -> List.filter p l = l.
Proof. induction 1 as [|x r Hx _ IH]; simpl; [|rewrite Hx, IH]; reflexivity. Qed.

Lemma length_filter_le {A : Type} (p : A -> bool) l : length (List.filter p l) <= length l.
Proof. induction l as [|x r IH]; simpl; [lia|]. destruct (p x); simpl; lia. Qed.

Lemma validateTags_Ok tags out :
  validateTags tags = Ok out ->
  exists items mapped,
    tags = VArr items /\ length items <= maxTagCount APP_CONFIG
    /\ mapThrow checkTag items = Ok mapped
    /\ out = VArr (List.filter (fun tag => negb (isNull tag)) mapped).
Proof.
  destruct tags; try discriminate. cbn [validateTags].
  destruct (maxTagCount APP_CONFIG <? length items)%nat eqn:E; [discriminate|].
  apply Nat.ltb_ge in E. intros H. apply bind_Ok in H as (mapped & Hm & H).
  injection H as <-. exists items, mapped. repeat split; try assumption.
  f_equal. apply take_ge.
  pose proof (length_filter_le (fun tag => negb (isNull tag)) mapped).
  pose proof (Forall2_length _ _ _ (mapThrow_Ok _ _ _ Hm)).
  cbn [maxTagCount APP_CONFIG] in *. lia.
Qed.

Lemma stable_validateTags : stable validateTags.
Proof.
  intros x y H. apply validateTags_Ok in H as (items & mapped & -> & Hlen & Hm & ->).
  split; [discriminate|].
  set (kept := List.filter (fun tag => negb (isNull tag)) mapped).
  assert (Hk : Forall (fun v => isNull v = false /\ checkTag v = Ok v) kept).
  { apply Forall_forall. intros v Hv. apply list_elem_of_In, filter_In in Hv as [Hv Hn].
    apply negb_true_iff in Hn.
    apply mapThrow_Ok in Hm.
    split; [exact Hn|].
    apply list_elem_of_In, list_elem_of_lookup in Hv as [i Hi].
    destruct (Forall2_lookup_r _ _ _ _ _ Hm Hi) as (x & _ & Hx).
    apply checkTag_Ok in Hx as [->|[_ Hx]]; [discriminate | exact Hx]. }
  assert (Hlk : length kept <= maxTagCount APP_CONFIG).
  { pose proof (length_filter_le (fun tag => negb (isNull tag)) mapped).
    pose proof (Forall2_length _ _ _ (mapThrow_Ok _ _ _ Hm)). unfold kept. lia. }
  cbn [validateTags].
  apply Nat.ltb_ge in Hlk as Hlt. rewrite Hlt.
  rewrite (mapThrow_fixed checkTag kept) by (eapply Forall_impl; [exact Hk | intros ? []; assumption]).
  simpl. rewrite filter_fixed.
  - rewrite take_ge by exact Hlk. reflexivity.
  - eapply Forall_impl; [exact Hk|]. intros v [Hn _]. simpl. rewrite Hn. reflexivity.
Qed.

Lemma stable_checkText field limit : stable (checkText field limit).
Proof.
  intros x y. destruct x; cbn [checkText]; try discriminate.
  destruct (limit <? String.length s)%nat eqn:E; [discriminate|].
  intros [= <-]. split; [discriminate|]. cbn [checkText].
  apply Nat.ltb_ge in E. pose proof (length_trim s) as Hl.
  assert (E' : (limit <? String.length (trim s))%nat = false) by (apply Nat.ltb_ge; lia).
  rewrite E', trim_idem. reflexivity.
Qed.

Section Validators.

Variable urlProtocol : string -> option string.

Lemma stable_checkUrl field : stable (checkUrl urlProtocol field).
Proof.
  intros x y. destruct x; cbn [checkUrl]; try discriminate. cbv zeta.
  destruct (negb (trim s =? "") && negb (isValidURL urlProtocol (trim s))) eqn:E;
    [discriminate|].
  intros [= <-]. split; [discriminate|]. cbn [checkUrl]. cbv zeta.
  rewrite trim_idem, E. reflexivity.
Qed.

Lemma validateProfileData_steps data :
  validateProfileData urlProtocol data = runSteps data (profileSteps urlProtocol) ∅.
Proof.
  unfold validateProfileData, profileSteps. cbn [app runSteps].
  destruct (whenPresent data "displayName" _ ∅) as [v1|]; [|reflexivity]. cbn.
  destruct (whenPresent data "nickname" _ v1) as [v2|]; [|reflexivity]. cbn.
  destruct (whenPresent data "bio" _ v2) as [v3|]; [|reflexivity]. cbn.
  destruct (whenPresent data "tags" _ v3) as [v4|]; reflexivity.
Qed.

Lemma validatePostData_steps data isUpdate :
  validatePostData urlProtocol data isUpdate =
    runSteps data (postSteps urlProtocol isUpdate) ∅.
Proof.
  unfold validatePostData, postSteps. cbn [runSteps].
  destruct (whenPresent data "title" _ ∅) as [v1|]; [|reflexivity]. cbn.
  destruct (whenPresent data "contentHtml" _ v1) as [v2|]; [|reflexivity]. cbn.
  destruct (whenPresent data "status" _ v2) as [v3|]; [|reflexivity]. cbn.
  destruct (whenPresent data "tags" _ v3) as [v4|]; [|reflexivity]. cbn.
  destruct (whenPresent data "coverUrl" _ v4) as [v5|]; [|reflexivity]. cbn.
  destruct (whenPresent data "slug" _ v5) as [v6|]; reflexivity.
Qed.

Lemma profileSteps_NoDup : NoDup (profileSteps urlProtocol).*1.
Proof. cbn. apply (bool_decide_unpack _). vm_compute. exact I. Qed.

Lemma postSteps_NoDup isUpdate : NoDup (postSteps urlProtocol isUpdate).*1.
Proof. cbn. apply (bool_decide_unpack _). vm_compute. exact I. Qed.

(** C1 (amended). A tag sequence longer than the configured maximum count
    is rejected: the tag block throws the tag-count [ValidationError], so
    neither profile validation nor post validation (create or update)
    returns a result for such an input; the error is the tag-count error
    when the three fields checked before the tags pass, and otherwise the
    error of the first of them that fails.  A tag sequence is accepted only
    when its length is at most the maximum; the validated tags are then the
    non-blank entries, trimmed, and the final truncation removes nothing. *)
Theorem validation_rejects_too_many_tags (data : Obj) (items : list JsVal) :
  prop data "tags" = VArr items ->
  maxTagCount APP_CONFIG < length items ->
  validateTags (VArr items) = Throw (ValidationError TooManyTags)
  /\ validateProfileData urlProtocol data
     = (runSteps data (take 3 (profileSteps urlProtocol)) ∅
        ≫= fun _ => Throw (ValidationError TooManyTags))
  /\ (forall isUpdate,
        validatePostData urlProtocol data isUpdate
        = (runSteps data (take 3 (postSteps urlProtocol isUpdate)) ∅
           ≫= fun _ => Throw (ValidationError TooManyTags)))
  /\ (exists e, validateProfileData urlProtocol data = Throw e)
  /\ (forall isUpdate, exists e, validatePostData urlProtocol data isUpdate = Throw e)
  /\ (forall short out, validateTags (VArr short) = Ok out ->
        length short <= maxTagCount APP_CONFIG
        /\ exists mapped, mapThrow checkTag short = Ok mapped
           /\ out = VArr (List.filter (fun tag => negb (isNull tag)) mapped)).
Proof.
  intros Ht Hlen.
  assert (Hthrow : validateTags (VArr items) = Throw (ValidationError TooManyTags)).
  { cbn [validateTags]. apply Nat.ltb_lt in Hlen. rewrite Hlen. reflexivity. }
  assert (Hp : prop data "tags" <> VUndefined) by (rewrite Ht; discriminate).
  split; [exact Hthrow|]. rewrite <- Ht in Hthrow.
  assert (H1 : validateProfileData urlProtocol data
               = (runSteps data (take 3 (profileSteps urlProtocol)) ∅
                  ≫= fun _ => Throw (ValidationError TooManyTags))).
  { rewrite validateProfileData_steps.
    exact (runSteps_throw_at data (take 3 (profileSteps urlProtocol)) "tags"
             validateTags (drop 4 (profileSteps urlProtocol)) _ ∅ Hp Hthrow). }
  assert (H2 : forall isUpdate,
             validatePostData urlProtocol data isUpdate
             = (runSteps data (take 3 (postSteps urlProtocol isUpdate)) ∅
                ≫= fun _ => Throw (ValidationError TooManyTags))).
  { intros isUpdate. rewrite validatePostData_steps.
    exact (runSteps_throw_at data (take 3 (postSteps urlProtocol isUpdate)) "tags"
             validateTags (drop 4 (postSteps urlProtocol isUpdate)) _ ∅ Hp Hthrow). }
  split; [exact H1|]. split; [exact H2|]. split; [|split].
  - rewrite H1.
    destruct (runSteps data (take 3 (profileSteps urlProtocol)) ∅); eexists; reflexivity.
  - intros isUpdate. rewrite H2.
    destruct (runSteps data (take 3 (postSteps urlProtocol isUpdate)) ∅);
      eexists; reflexivity.
  - intros short out H.
    apply validateTags_Ok in H as (items' & mapped & [= <-] & Hl & Hm & ->). eauto.
Qed.

(** C7. Profile validation is idempotent: when [validateProfileData]
    accepts a partial profile, it accepts its own result and returns it
    unchanged. *)
Theorem validateProfileData_idempotent (data validated : Obj) :
  validateProfileData urlProtocol data = Ok validated ->
  validateProfileData urlProtocol validated = Ok validated.
Proof.
  rewrite !validateProfileData_steps.
  apply runSteps_idempotent; [apply profileSteps_NoDup|].
  intros k c Hin. unfold profileSteps in Hin. cbn in Hin.
  repeat (apply elem_of_cons in Hin as [[= -> ->]|Hin];
          [first [apply stable_checkText | apply stable_validateTags | apply stable_checkUrl]|]).
  apply elem_of_nil in Hin as [].
Qed.

End Validators.

(** ** The document store *)

Lemma leastId_nil docs : leastId docs = None -> docs = [].
Proof.
  destruct docs as [|d r]; [reflexivity|]. simpl.
  destruct (leastId r) as [b|]; [destruct (String.ltb d.1 b.1)|]; discriminate.
Qed.

Lemma leastId_elem docs d : leastId docs = Some d -> d ∈ docs.
Proof.
  induction docs as [|x r IH]; simpl; [discriminate|].
  destruct (leastId r) as [b|].
  - destruct (String.ltb x.1 b.1); intros [= <-];
      [apply list_elem_of_here | apply list_elem_of_further, IH; reflexivity].
  - intros [= <-]. apply list_elem_of_here.
Qed.

Lemma ltb_total s t : String.ltb s t = false -> s <> t -> String.ltb t s = true.
Proof.
  unfold String.ltb. rewrite (String.compare_antisym s t).
  destruct (String.compare t s) eqn:E; simpl; intros Hlt Hne; try congruence.
  apply String.compare_eq_iff in E. destruct Hne. symmetry. exact E.
Qed.

(** With [limit(1)] the store delivers the match that no other match
    precedes in id order. *)
Lemma leastId_least docs t :
  t ∈ docs ->
  (forall x, x ∈ docs -> x = t \/ (String.ltb x.1 t.1 = false /\ x.1 <> t.1)) ->
  leastId docs = Some t.
Proof.
  induction docs as [|x r IH]; intros Hin Hle; [apply elem_of_nil in Hin as []|].
  assert (Hr : forall y, y ∈ r -> y = t \/ (String.ltb y.1 t.1 = false /\ y.1 <> t.1)).
  { intros y Hy. apply Hle, list_elem_of_further, Hy. }
  simpl. destruct (leastId r) as [b|] eqn:Eb.
  - pose proof (leastId_elem _ _ Eb) as Hb.
    destruct (Hr b Hb) as [->|[Hlt Hne]].
    + destruct (Hle x (list_elem_of_here _ _)) as [->|[Hlt _]].
      * destruct (String.ltb t.1 t.1); reflexivity.
      * rewrite Hlt. reflexivity.
    + apply elem_of_cons in Hin as [->|Hin].
      * rewrite (ltb_total _ _ Hlt Hne). reflexivity.
      * specialize (IH Hin Hr). injection IH as ->. destruct Hne. reflexivity.
  - apply leastId_nil in Eb. subst r.
    apply elem_of_cons in Hin as [->|Hin]; [reflexivity | apply elem_of_nil in Hin as []].
Qed.

Lemma whereSlug_elem slug (store : gmap string Obj) i d :
  (i, d) ∈ whereSlug slug store <-> store !! i = Some d /\ isStr slug (prop d "slug") = true.
Proof.
  unfold whereSlug. rewrite list_elem_of_In, filter_In, <- list_elem_of_In.
  rewrite elem_of_map_to_list. reflexivity.
Qed.

Lemma isStr_true s v : isStr s v = true <-> v = VStr s.
Proof.
  destruct v; simpl; try (split; [discriminate | congruence]).
  rewrite String.eqb_eq. split; congruence.
Qed.

(** The slug query finds nothing exactly when no stored post carries the slug. *)
Lemma whereSlug_none slug (store : gmap string Obj) :
  (forall i d, store !! i = Some d -> prop d "slug" <> VStr slug) ->
  firstWithSlug slug store = None.
Proof.
  unfold firstWithSlug.
  intros H. destruct (leastId (whereSlug slug store)) as [[i d]|] eqn:E; [|reflexivity].
  apply leastId_elem, whereSlug_elem in E as [Hi Hs].
  apply isStr_true in Hs. destruct (H i d Hi Hs).
Qed.

Lemma whereSlug_some slug (store : gmap string Obj) i d :
  firstWithSlug slug store = Some (i, d) ->
  store !! i = Some d /\ prop d "slug" = VStr slug.
Proof.
  unfold firstWithSlug. intros E. apply leastId_elem, whereSlug_elem in E as [Hi Hs].
  apply isStr_true in Hs. auto.
Qed.

Lemma whereSlug_first slug (store : gmap string Obj) i d :
  store !! i = Some d -> prop d "slug" = VStr slug ->
  (forall j d', store !! j = Some d' -> prop d' "slug" = VStr slug -> String.ltb j i = false) ->
  firstWithSlug slug store = Some (i, d).
Proof.
  unfold firstWithSlug. intros Hi Hs Hle. apply leastId_least.
  - apply whereSlug_elem. split; [exact Hi | apply isStr_true, Hs].
  - intros [j d'] Hj. apply whereSlug_elem in Hj as [Hj Hs']. apply isStr_true in Hs'.
    destruct (decide (j = i)) as [->|Hne]; [left; congruence|].
    right. simpl. split; [eapply Hle; eassumption | exact Hne].
Qed.

(** ** Running the asynchronous functions *)

Lemma requireAdmin_run w :
  requireAdmin w =
    (match currentUser w with
     | Some user => if isAdmin (Some user) then Ok user else Throw (Forbidden NotAdmin)
     | None => Throw Unauthenticated
     end, w).
Proof.
  unfold requireAdmin, requireAuth, mbind, M_bind.
  destruct (currentUser w) as [u|]; [|reflexivity].
  destruct (isAdmin (Some u)); reflexivity.
Qed.

Lemma getPostBySlug_run slug w :
  getPostBySlug slug w =
    (Ok (viewOf <$> firstWithSlug slug (posts w)), logCall (QueryBySlug slug) w).
Proof.
  unfold getPostBySlug, tryCatch, querySlug, mbind, M_bind.
  destruct (firstWithSlug slug (posts w)) as [[i d]|]; reflexivity.
Qed.

Lemma getPostByIdOrSlug_run key w :
  getPostByIdOrSlug key w =
    match posts w !! key with
    | Some d => (Ok (Some (postView key d)), logCall (DocGet key) w)
    | None =>
        if (20 <? String.length key)%nat
        then (Ok (viewOf <$> firstWithSlug key (posts w)),
              logCall (QueryBySlug key) (logCall (DocGet key) w))
        else (Ok None, logCall (DocGet key) w)
    end.
Proof.
  unfold getPostByIdOrSlug, tryCatch, docGet, querySlug, mbind, M_bind, snapExists.
  cbn [snapData snapId posts logCall].
  destruct (posts w !! key) as [d|]; [reflexivity|]. cbn [negb andb].
  destruct (20 <? String.length key)%nat; [|reflexivity].
  cbn [posts logCall].
  destruct (firstWithSlug key (posts w)) as [[i d]|]; reflexivity.
Qed.

Section Posts.

Variable urlProtocol : string -> option string.

Ltac calls_eq :=
  first [ symmetry; apply app_nil_r
        | rewrite <- ?app_assoc; reflexivity ].

Ltac failed_early E :=
  injection E as <- <-;
  left; eexists _, _; cbn;
  split; [reflexivity|]; split; [reflexivity|];
  split; [calls_eq | repeat constructor].

(** Every run of [updatePost] either fails without sending a write, or
    passes the admin, existence, ownership, validation and slug checks and
    then sends exactly one write: an update of the document named by the
    key it was called with. *)
Lemma updatePost_cases (id : string) (patch : Obj) (w : Backend) :
  let r := updatePost urlProtocol id patch w in
  (exists e l, r.1 = Throw e /\ posts r.2 = posts w
               /\ calls r.2 = (calls w ++ l)%list /\ noWrites l)
  \/ (exists user existing v l,
        currentUser w = Some user /\ isAdmin (Some user) = true
        /\ (getPostByIdOrSlug id w).1 = Ok (Some existing)
        /\ isStr (uid user) (prop existing "authorId") = true
        /\ validatePostData urlProtocol patch true = Ok v
        /\ noWrites l
        /\ calls r.2 =
             (calls w ++ l ++ [DocUpdate id (<["updatedAt" := VTime (clock w)]> v)])%list
        /\ match posts w !! id with
           | Some d =>
               r.1 = Ok (<["updatedAt" := VTime (clock w)]> v
                         ∪ (existing ∪ {["id" := VStr id]}))
               /\ posts r.2 = <[id := <["updatedAt" := VTime (clock w)]> v ∪ d]> (posts w)
           | None => r.1 = Throw (BackendError "not-found") /\ posts r.2 = posts w
           end).
Proof.
  intros r. assert (E : updatePost urlProtocol id patch w = r) by reflexivity.
  clearbody r. destruct r as [res w']. cbn [fst snd].
  unfold updatePost, tryCatch in E.
  unfold mbind at 1 in E. unfold M_bind at 1 in E. rewrite requireAdmin_run in E.
  destruct (currentUser w) as [user|] eqn:Eu; [|failed_early E].
  destruct (isAdmin (Some user)) eqn:Ea; [|failed_early E].
  unfold mbind at 1 in E. unfold M_bind at 1 in E.
  pose proof (getPostByIdOrSlug_run id w) as Hres.
  destruct (getPostByIdOrSlug id w) as [found w1] eqn:Eres.
  assert (Hw1 : posts w1 = posts w /\ exists l1, calls w1 = (calls w ++ l1)%list /\ noWrites l1
                /\ clock w1 = clock w).
  { destruct (posts w !! id); [|destruct (20 <? String.length id)%nat];
      injection Hres as _ ->; (split; [reflexivity|]); eexists; cbn;
      (split; [calls_eq | split; [repeat constructor | reflexivity]]). }
  assert (Hfound : exists o, found = Ok o).
  { destruct (posts w !! id); [|destruct (20 <? String.length id)%nat];
      injection Hres as -> _; eauto. }
  clear Hres. destruct Hw1 as (Hp1 & l1 & Hc1 & Hn1 & Hk1). destruct Hfound as [o ->].
  destruct o as [existing|].
  2:{ cbn in E. injection E as <- <-. left. eexists _, l1. cbn. auto. }
  destruct (isStr (uid user) (prop existing "authorId")) eqn:Eown; cbn [negb] in E.
  2:{ cbn in E. injection E as <- <-. left. eexists _, l1. cbn. auto. }
  unfold mbind at 1 in E. unfold M_bind at 1 in E. unfold liftR at 1 in E.
  destruct (validatePostData urlProtocol patch true) as [v|e] eqn:Ev.
  2:{ cbn in E. injection E as <- <-. left. eexists _, l1. cbn. auto. }
  unfold mbind at 1 in E. unfold M_bind at 1 in E.
  match type of E with
  | (let (_, _) := let (_, _) := ?chk w1 in _ in _) = _ =>
      destruct (chk w1) as [r2 w2] eqn:Echk
  end.
  assert (Hw2 : posts w2 = posts w1 /\ clock w2 = clock w1
                /\ exists l2, calls w2 = (calls w1 ++ l2)%list /\ noWrites l2).
  { destruct (prop v "slug") as [| | | |s| |];
      try (injection Echk as _ <-; repeat split; exists []; split;
           [calls_eq | constructor]).
    destruct (negb (s =? "") && negb (isStr s (prop existing "slug")));
      [|injection Echk as _ <-; repeat split; exists []; split; [calls_eq | constructor]].
    unfold mbind, M_bind in Echk. rewrite getPostBySlug_run in Echk.
    destruct (viewOf <$> firstWithSlug s (posts w1)) as [other|];
      [destruct (negb (isStr id (prop other "id")))|];
      injection Echk as _ <-; repeat split; eexists; cbn;
      (split; [calls_eq | repeat constructor]). }
  destruct Hw2 as (Hp2 & Hk2 & l2 & Hc2 & Hn2).
  assert (Hl : calls w2 = (calls w ++ (l1 ++ l2))%list /\ noWrites (l1 ++ l2)).
  { split; [rewrite Hc2, Hc1, <- app_assoc; reflexivity | apply Forall_app; auto]. }
  destruct Hl as [Hc Hn]. clear Echk.
  destruct r2 as [[]|e].
  2:{ injection E as <- <-. left. eexists _, (l1 ++ l2)%list.
      repeat split; [congruence | exact Hc | exact Hn]. }
  unfold mbind, M_bind, timestampNow, docUpdate, mret, M_ret in E.
  cbn [tickClock posts clock] in E.
  right. exists user, existing, v, (l1 ++ l2)%list.
  rewrite <- Hp1, <- Hp2, <- Hk1, <- Hk2.
  destruct (posts w2 !! id) as [d|] eqn:Ed; injection E as <- <-; cbn;
    rewrite Hc, <- app_assoc; auto 10.
Qed.

Lemma validatePostData_fields data isUpdate v k :
  validatePostData urlProtocol data isUpdate = Ok v -> k ∉ postFields -> v !! k = None.
Proof.
  rewrite validatePostData_steps. intros H Hk.
  rewrite (runSteps_other _ _ _ _ k H); [apply lookup_empty|].
  intros Hin. apply Hk. unfold postFields. cbn in Hin.
  repeat (apply elem_of_cons in Hin as [->|Hin];
          [apply (bool_decide_unpack _); vm_compute; exact I|]).
  apply elem_of_nil in Hin as [].
Qed.

(** C9. [authorId] never changes through [updatePost]: the result of
    [validatePostData] has no fields besides [title], [contentHtml],
    [status], [tags], [coverUrl] and [slug]; every write that [updatePost]
    sends is an update whose patch holds only such fields and [updatedAt];
    so for every key, patch and backend state the [authorId] stored for
    each post (the target included) is the same before and after the call. *)
Theorem updatePost_keeps_authorId :
  (forall data isUpdate,
     match validatePostData urlProtocol data isUpdate with
     | Ok validated => dom validated ⊆ postFields
     | Throw _ => True
     end)
  /\ forall (id : string) (patch : Obj) (w : Backend),
       let w' := (updatePost urlProtocol id patch w).2 in
       (forall i, (fun d => prop d "authorId") <$> (posts w' !! i)
                  = (fun d => prop d "authorId") <$> (posts w !! i))
       /\ (forall c, c ∈ calls w' -> isWrite c = true ->
              c ∈ calls w
              \/ exists p, c = DocUpdate id p /\ dom p ⊆ postFields ∪ {["updatedAt"]}).
Proof.
  split.
  - intros data isUpdate.
    destruct (validatePostData urlProtocol data isUpdate) as [v|] eqn:E; [|exact I].
    intros k Hk. apply elem_of_dom in Hk as [x Hx].
    destruct (decide (k ∈ postFields)) as [|Hn]; [assumption|].
    rewrite (validatePostData_fields _ _ _ _ E Hn) in Hx. discriminate.
  - intros id patch w w'. subst w'.
    destruct (updatePost_cases id patch w) as
      [(e & l & _ & Hp & Hc & Hn)
      |(user & existing & v & l & _ & _ & _ & _ & Hv & Hn & Hc & Hm)].
    + split; [intros i; rewrite Hp; reflexivity|].
      intros c Hin Hw. left. rewrite Hc in Hin.
      apply elem_of_app in Hin as [Hin|Hin]; [exact Hin|].
      unfold noWrites in Hn. rewrite Forall_forall in Hn. rewrite (Hn c Hin) in Hw.
      discriminate.
    + set (patch' := <["updatedAt" := VTime (clock w)]> v) in *.
      assert (Ha : patch' !! "authorId" = None).
      { unfold patch'. rewrite lookup_insert_ne by discriminate.
        apply (validatePostData_fields _ _ _ _ Hv).
        apply (bool_decide_unpack _). vm_compute. exact I. }
      split.
      * intros i. destruct (posts w !! id) as [d|] eqn:Ed; destruct Hm as [_ ->];
          [|reflexivity].
        destruct (decide (id = i)) as [<-|Hne].
        -- rewrite lookup_insert_eq, Ed. simpl. f_equal. unfold prop.
           rewrite lookup_union_r by exact Ha. reflexivity.
        -- rewrite lookup_insert_ne by exact Hne. reflexivity.
      * intros c Hin Hw. rewrite Hc in Hin.
        apply elem_of_app in Hin as [Hin|Hin]; [left; exact Hin|].
        apply elem_of_app in Hin as [Hin|Hin].
        { unfold noWrites in Hn. rewrite Forall_forall in Hn. rewrite (Hn c Hin) in Hw.
          discriminate. }
        apply list_elem_of_singleton in Hin as ->. right. exists patch'. split; [reflexivity|].
        unfold patch'. rewrite dom_insert_L.
        intros k Hk. apply elem_of_union in Hk as [Hk|Hk];
          [apply elem_of_union; right; exact Hk|].
        apply elem_of_union. left. apply elem_of_dom in Hk as [x Hx].
        destruct (decide (k ∈ postFields)) as [|Hnot]; [assumption|].
        rewrite (validatePostData_fields _ _ _ _ Hv Hnot) in Hx. discriminate.
Qed.


Lemma prop_postView id d k : k <> "id" -> prop (postView id d) k = prop d k.
Proof.
  intros Hk. unfold prop, postView. rewrite lookup_union.
  rewrite lookup_singleton_ne by congruence. destruct (d !! k); reflexivity.
Qed.

Lemma getPostByIdOrSlug_posts key w : posts (getPostByIdOrSlug key w).2 = posts w.
Proof.
  rewrite getPostByIdOrSlug_run.
  destruct (posts w !! key); [|destruct (20 <? String.length key)%nat]; reflexivity.
Qed.

(** The two guards of [updatePost] for an administrator: an absent target
    gives [NotFound], a target with another author gives [Forbidden]; in
    both cases nothing is written. *)
Lemma updatePost_guards (id : string) (patch : Obj) (w : Backend) user :
  currentUser w = Some user -> isAdmin (Some user) = true ->
  ((getPostByIdOrSlug id w).1 = Ok None ->
     (updatePost urlProtocol id patch w).1 = Throw NotFound
     /\ posts (updatePost urlProtocol id patch w).2 = posts w)
  /\ (forall existing,
        (getPostByIdOrSlug id w).1 = Ok (Some existing) ->
        isStr (uid user) (prop existing "authorId") = false ->
        (updatePost urlProtocol id patch w).1 = Throw (Forbidden NotOwner)
        /\ posts (updatePost urlProtocol id patch w).2 = posts w).
Proof.
  intros Eu Ea. pose proof (getPostByIdOrSlug_posts id w) as Hp.
  assert (Hrun : forall found w1, getPostByIdOrSlug id w = (Ok found, w1) ->
            (found = None -> updatePost urlProtocol id patch w = (Throw NotFound, w1))
            /\ (forall existing, found = Some existing ->
                  isStr (uid user) (prop existing "authorId") = false ->
                  updatePost urlProtocol id patch w = (Throw (Forbidden NotOwner), w1))).
  { intros found w1 E.
    split; [intros -> | intros existing -> Hown];
      unfold updatePost, tryCatch;
      unfold mbind at 1; unfold M_bind at 1; rewrite requireAdmin_run, Eu, Ea;
      unfold mbind at 1; unfold M_bind at 1; rewrite E;
      [|rewrite Hown]; reflexivity. }
  destruct (getPostByIdOrSlug id w) as [found w1] eqn:E. cbn [fst snd] in *.
  split.
  - intros ->. destruct (Hrun None w1 eq_refl) as [H _]. rewrite (H eq_refl). auto.
  - intros existing -> Hown. destruct (Hrun (Some existing) w1 eq_refl) as [_ H].
    rewrite (H existing eq_refl Hown). auto.
Qed.

(** Addressed by document id, the owner's update with a valid patch that
    leaves the slug alone succeeds and merges the patch and [updatedAt]
    into the stored post. *)
Lemma updatePost_by_id (id : string) (patch : Obj) (w : Backend) user d v :
  currentUser w = Some user -> isAdmin (Some user) = true ->
  posts w !! id = Some d -> prop d "authorId" = VStr (uid user) ->
  validatePostData urlProtocol patch true = Ok v ->
  (forall s, prop v "slug" = VStr s -> s = "" \/ prop d "slug" = VStr s) ->
  updatePost urlProtocol id patch w =
    (Ok (<["updatedAt" := VTime (clock w)]> v ∪ (postView id d ∪ {["id" := VStr id]})),
     logCall (DocUpdate id (<["updatedAt" := VTime (clock w)]> v))
       (setPosts (<[id := <["updatedAt" := VTime (clock w)]> v ∪ d]> (posts w))
          (tickClock (logCall (DocGet id) w)))).
Proof.
  intros Eu Ea Hd Hown Hv Hslug.
  unfold updatePost, tryCatch.
  unfold mbind at 1. unfold M_bind at 1. rewrite requireAdmin_run, Eu, Ea.
  unfold mbind at 1. unfold M_bind at 1.
  rewrite getPostByIdOrSlug_run, Hd.
  rewrite prop_postView by discriminate. rewrite Hown. cbn [isStr].
  rewrite String.eqb_refl. cbn [negb].
  unfold mbind at 1. unfold M_bind at 1. unfold liftR at 1. rewrite Hv.
  unfold mbind at 1. unfold M_bind at 1.
  assert (Hchk : forall w1,
    match prop v "slug" with
    | VStr s =>
        if negb (s =? "") && negb (isStr s (prop (postView id d) "slug"))
        then getPostBySlug s ≫= (fun existingWithSlug : option Obj =>
               match existingWithSlug with
               | Some other =>
                   if negb (isStr id (prop other "id")) then throw SlugConflict
                   else mret tt
               | None => mret tt
               end)
        else mret tt
    | _ => mret tt
    end w1 = (Ok tt, w1)).
  { intros w1. destruct (prop v "slug") as [| | | |s| |] eqn:Es; try reflexivity.
    destruct (Hslug s eq_refl) as [->|Hs]; [reflexivity|].
    rewrite prop_postView by discriminate. rewrite Hs. cbn [isStr].
    rewrite String.eqb_refl, andb_false_r. reflexivity. }
  rewrite Hchk.
  unfold mbind, M_bind, mret, M_ret, timestampNow, docUpdate.
  cbn [posts clock logCall tickClock]. rewrite Hd. reflexivity.
Qed.

(** The run of [updatePost] when the key is not a document id, is longer
    than 20 characters and is the slug of a post that the calling
    administrator owns, for a valid patch without a slug. *)
Lemma updatePost_via_slug (id : string) (patch : Obj) (w : Backend) i d user v :
  posts w !! id = None -> (20 <? String.length id)%nat = true ->
  firstWithSlug id (posts w) = Some (i, d) ->
  currentUser w = Some user -> isAdmin (Some user) = true ->
  prop d "authorId" = VStr (uid user) ->
  validatePostData urlProtocol patch true = Ok v -> prop v "slug" = VUndefined ->
  updatePost urlProtocol id patch w =
    (Throw (BackendError "not-found"),
     logCall (DocUpdate id (<["updatedAt" := VTime (clock w)]> v))
       (tickClock (logCall (QueryBySlug id) (logCall (DocGet id) w)))).
Proof.
  intros Hmiss Hlong Hq Eu Ea Hown Hv Hs.
  unfold updatePost, tryCatch.
  unfold mbind at 1. unfold M_bind at 1. rewrite requireAdmin_run, Eu, Ea.
  unfold mbind at 1. unfold M_bind at 1.
  rewrite getPostByIdOrSlug_run, Hmiss, Hlong, Hq.
  cbn [fmap option_fmap option_map]. unfold viewOf. cbn [fst snd].
  rewrite prop_postView by discriminate. rewrite Hown. cbn [isStr].
  rewrite String.eqb_refl. cbn [negb].
  unfold mbind at 1. unfold M_bind at 1. unfold liftR at 1. rewrite Hv.
  unfold mbind at 1. unfold M_bind at 1. rewrite Hs.
  unfold mbind, M_bind, mret, M_ret, timestampNow, docUpdate.
  cbn [posts clock logCall tickClock]. rewrite Hmiss. reflexivity.
Qed.

(** C10. When the document lookup by [key] misses and [updatePost]
    resolves its target through the slug query, the target's own id
    differs from [key], and every write the call sends is an update of the
    document named [key]; none addresses the resolved post.  For the
    administrator who owns the resolved post and a valid patch without a
    slug, the requests are exactly: get [key], query the slug [key], update
    document [key]; the store has no such document, so the call fails with
    the backend's [not-found] and no post is changed. *)
Theorem updatePost_writes_under_key (key : string) (patch : Obj) (w : Backend)
    (i : string) (d : Obj) :
  posts w !! key = None ->
  20 < String.length key ->
  firstWithSlug key (posts w) = Some (i, d) ->
  let r := updatePost urlProtocol key patch w in
  (getPostByIdOrSlug key w).1 = Ok (Some (postView i d))
  /\ i <> key
  /\ (forall c, c ∈ calls r.2 -> isWrite c = true ->
         c ∈ calls w \/ exists p, c = DocUpdate key p)
  /\ (forall user v,
         currentUser w = Some user -> isAdmin (Some user) = true ->
         prop d "authorId" = VStr (uid user) ->
         validatePostData urlProtocol patch true = Ok v ->
         prop v "slug" = VUndefined ->
         calls r.2 = (calls w ++ [DocGet key; QueryBySlug key;
                        DocUpdate key (<["updatedAt" := VTime (clock w)]> v)])%list
         /\ r.1 = Throw (BackendError "not-found")
         /\ posts r.2 = posts w).
Proof.
  intros Hmiss Hlong Hq r. apply Nat.ltb_lt in Hlong as Hlong'.
  split; [|split; [|split]].
  - rewrite getPostByIdOrSlug_run, Hmiss, Hlong', Hq. reflexivity.
  - intros ->. apply whereSlug_some in Hq as [Hi _]. congruence.
  - intros c Hin Hw. subst r.
    destruct (updatePost_cases key patch w) as
      [(e & l & _ & _ & Hc & Hn)|(_ & _ & v & l & _ & _ & _ & _ & _ & Hn & Hc & _)];
      rewrite Hc in Hin; unfold noWrites in Hn; rewrite Forall_forall in Hn.
    + apply elem_of_app in Hin as [Hin|Hin]; [left; exact Hin|].
      rewrite (Hn c Hin) in Hw. discriminate.
    + apply elem_of_app in Hin as [Hin|Hin]; [left; exact Hin|].
      apply elem_of_app in Hin as [Hin|Hin]; [rewrite (Hn c Hin) in Hw; discriminate|].
      apply list_elem_of_singleton in Hin as ->. right. eauto.
  - intros user v Eu Ea Hown Hv Hs. subst r.
    rewrite (updatePost_via_slug key patch w i d user v) by assumption.
    cbn. rewrite <- !app_assoc. auto.
Qed.

(** C3 (amended). For a stored post, [getPostByIdOrSlug] called with its
    document id returns that post.  Called with its slug, it returns that
    post when the slug is longer than 20 characters, is not itself the id
    of a stored document, and no post carrying the same slug has a smaller
    id; a slug of 20 characters or fewer that is not a document id is
    never looked up by slug and yields [null]. *)
Theorem getPostByIdOrSlug_resolves (w : Backend) (i : string) (d : Obj) (slug : string) :
  posts w !! i = Some d ->
  prop d "slug" = VStr slug ->
  (getPostByIdOrSlug i w).1 = Ok (Some (postView i d))
  /\ (20 < String.length slug ->
      posts w !! slug = None ->
      (forall j d', posts w !! j = Some d' -> prop d' "slug" = VStr slug ->
                    String.ltb j i = false) ->
      (getPostByIdOrSlug slug w).1 = Ok (Some (postView i d)))
  /\ (String.length slug <= 20 ->
      posts w !! slug = None ->
      (getPostByIdOrSlug slug w).1 = Ok None).
Proof.
  intros Hi Hs. split; [|split].
  - rewrite getPostByIdOrSlug_run, Hi. reflexivity.
  - intros Hlong Hmiss Hfirst. apply Nat.ltb_lt in Hlong.
    rewrite getPostByIdOrSlug_run, Hmiss, Hlong.
    rewrite (whereSlug_first slug (posts w) i d Hi Hs Hfirst). reflexivity.
  - intros Hshort Hmiss. apply Nat.ltb_ge in Hshort.
    rewrite getPostByIdOrSlug_run, Hmiss, Hshort. reflexivity.
Qed.


(** The record [createPost] stores for validated fields [v]. *)
Lemma createPost_run (args : Obj) (w : Backend) user v slug :
  currentUser w = Some user -> isAdmin (Some user) = true ->
  validatePostData urlProtocol (createInput args) false = Ok v ->
  prop v "slug" = VStr slug -> slug <> "" ->
  let postData :=
    <["updatedAt" := VTime (clockAfter w 0)]> (<["createdAt" := VTime (clock w)]>
      (<["authorId" := VStr (uid user)]> v)) in
  let id := autoId w (generated w) in
  createPost urlProtocol args w =
    match firstWithSlug slug (posts w) with
    | Some _ => (Throw SlugConflict, logCall (QueryBySlug slug) w)
    | None =>
        (Ok (postData ∪ {["id" := VStr id]}),
         logCall (DocAdd postData)
           (tickId (setPosts (<[id := postData]> (posts w))
                      (tickClock (tickClock (logCall (QueryBySlug slug) w))))))
    end.
Proof.
  intros Eu Ea Hv Hs Hne postData id.
  unfold createPost, tryCatch.
  unfold mbind at 1. unfold M_bind at 1. rewrite requireAdmin_run, Eu, Ea.
  unfold mbind at 1. unfold M_bind at 1. unfold liftR at 1. rewrite Hv.
  unfold mbind at 1. unfold M_bind at 1. rewrite Hs.
  apply String.eqb_neq in Hne. rewrite Hne. cbn [negb].
  unfold mbind at 1. unfold M_bind at 1. rewrite getPostBySlug_run.
  destruct (firstWithSlug slug (posts w)) as [found|]; reflexivity.
Qed.

Lemma createInput_slug (args : Obj) slug v :
  prop args "slug" = VStr slug -> isValidSlug slug = true ->
  validatePostData urlProtocol (createInput args) false = Ok v ->
  prop v "slug" = VStr slug.
Proof.
  intros Ha Hvalid Hv. rewrite validatePostData_steps in Hv.
  assert (Hin : ("slug", checkSlug) ∈ postSteps urlProtocol false).
  { unfold postSteps. do 5 apply list_elem_of_further. apply list_elem_of_here. }
  destruct (runSteps_field _ _ _ _ _ _ (postSteps_NoDup urlProtocol false) Hv Hin) as [_ H].
  assert (Hp : prop (createInput args) "slug" = VStr slug).
  { unfold createInput, prop at 1. rewrite !lookup_insert_ne by discriminate.
    rewrite lookup_insert_eq. cbn [default]. rewrite Ha. reflexivity. }
  rewrite Hp in H. destruct H as (y & Hy & Hl); [discriminate|].
  cbn [checkSlug] in Hy. cbv zeta in Hy.
  rewrite (trim_valid_slug slug Hvalid), Hvalid, andb_false_r in Hy.
  injection Hy as <-. apply prop_lookup, Hl.
Qed.

(** C4. Let an administrator call [createPost] with fields that pass
    validation and an explicit well-formed slug that a stored post already
    carries.  The call fails with [SlugConflict]; the store is unchanged and
    no write is sent.  If that post is the one carrying the slug, then in
    any state whose store is the old one with that post deleted, the same
    call succeeds and stores a new post with the slug under the generated
    id. *)
Theorem createPost_slug_conflict (args : Obj) (w : Backend) (user : User)
    (slug : string) (i : string) (d v : Obj) :
  currentUser w = Some user -> isAdmin (Some user) = true ->
  prop args "slug" = VStr slug -> isValidSlug slug = true ->
  validatePostData urlProtocol (createInput args) false = Ok v ->
  posts w !! i = Some d -> prop d "slug" = VStr slug ->
  ((createPost urlProtocol args w).1 = Throw SlugConflict
   /\ posts (createPost urlProtocol args w).2 = posts w
   /\ List.filter isWrite (calls (createPost urlProtocol args w).2)
      = List.filter isWrite (calls w))
  /\ ((forall j d', posts w !! j = Some d' -> prop d' "slug" = VStr slug -> j = i) ->
      forall w', posts w' = delete i (posts w) -> currentUser w' = currentUser w ->
        exists post stored,
          (createPost urlProtocol args w').1 = Ok post
          /\ prop post "slug" = VStr slug
          /\ posts (createPost urlProtocol args w').2
             = <[autoId w' (generated w') := stored]> (delete i (posts w))
          /\ prop stored "slug" = VStr slug
          /\ prop stored "authorId" = VStr (uid user)).
Proof.
  intros Eu Ea Ha Hvalid Hv Hi Hs.
  pose proof (createInput_slug args slug v Ha Hvalid Hv) as Hvs.
  pose proof (isValidSlug_nonempty slug Hvalid) as Hne.
  split.
  - rewrite (createPost_run args w user v slug Eu Ea Hv Hvs Hne).
    destruct (firstWithSlug slug (posts w)) as [found|] eqn:Eq.
    + cbn. rewrite List.filter_app. cbn. rewrite app_nil_r. auto.
    + exfalso. unfold firstWithSlug in Eq. apply leastId_nil in Eq.
      assert (Hin : (i, d) ∈ whereSlug slug (posts w)).
      { apply whereSlug_elem. split; [exact Hi | apply isStr_true, Hs]. }
      rewrite Eq in Hin. apply elem_of_nil in Hin as [].
  - intros Huniq w' Hp' Hu'. rewrite Eu in Hu'.
    rewrite (createPost_run args w' user v slug Hu' Ea Hv Hvs Hne).
    rewrite (whereSlug_none slug (posts w')).
    + eexists _, _. cbn. split; [reflexivity|].
      assert (Hl : v !! "slug" = Some (VStr slug)) by (apply prop_defined; [exact Hvs | discriminate]).
      split; [|split; [rewrite Hp'; reflexivity|split]]; apply prop_lookup.
      * apply lookup_union_Some_l. rewrite !lookup_insert_ne by discriminate. exact Hl.
      * rewrite !lookup_insert_ne by discriminate. exact Hl.
      * rewrite !lookup_insert_ne by discriminate. apply lookup_insert_eq.
    + intros j d' Hj Hs'. rewrite Hp' in Hj.
      apply lookup_delete_Some in Hj as [Hne' Hj]. apply Hne'. symmetry.
      apply (Huniq j d' Hj Hs').
Qed.

End Posts.

(** ** upload.js *)

(** C8. [uploadImage] validates the file before anything is sent: a file
    whose declared type is not in the allow-list is refused with
    [InvalidFile], a file above the maximum size with [FileTooLarge] (with
    [InvalidFile] when its type is refused as well, the type being checked
    first), and in both cases the backend is left exactly as it was, so no
    request to the image host has been made.  A file that passes both checks
    is posted to the host. *)
Theorem uploadImage_fails_fast (f : File) (folder : string) (w : Backend) :
  (typeAllowed f = false ->
     uploadImage (Some f) folder w = (Throw InvalidFile, w))
  /\ ((maxImageSize APP_CONFIG < fileSize f)%Z ->
      uploadImage (Some f) folder w
        = (Throw (if typeAllowed f then FileTooLarge else InvalidFile), w)
      /\ calls (uploadImage (Some f) folder w).2 = calls w)
  /\ (typeAllowed f = true -> (fileSize f <= maxImageSize APP_CONFIG)%Z ->
      exists userFolder,
        calls (uploadImage (Some f) folder w).2 = (calls w ++ [Upload f userFolder])%list).
Proof.
  unfold uploadImage, tryCatch, mbind, M_bind, liftR, validateImageFile, getCurrentUser.
  split; [|split].
  - intros ->. reflexivity.
  - intros Hsize. apply Z.ltb_lt in Hsize.
    destruct (typeAllowed f); cbn [negb]; [rewrite Hsize|]; split; reflexivity.
  - intros -> Hsize. apply Z.ltb_ge in Hsize. cbn [negb]. rewrite Hsize.
    unfold postToHost. cbn [hostReply].
    destruct (currentUser w) as [u|]; eexists;
      (destruct (hostReply w) as [m|st m|result];
       [reflexivity | reflexivity |
        destruct (negb (truthy (prop result "secure_url"))); reflexivity]).
Qed.

(** * Sample runs *)

Lemma validation_rejects_too_many_tags_witness :
  prop ({[ "tags" := elevenTags ]} : Obj) "tags" = VArr (replicate 11 (VStr "a"))
  /\ maxTagCount APP_CONFIG < length (replicate 11 (VStr "a"))
  /\ validateTags (VArr (replicate 11 (VStr "a"))) = Throw (ValidationError TooManyTags).
Proof.
  assert (H1 : prop ({[ "tags" := elevenTags ]} : Obj) "tags"
               = VArr (replicate 11 (VStr "a"))) by reflexivity.
  assert (H2 : maxTagCount APP_CONFIG < length (replicate 11 (VStr "a")))
    by (vm_compute; lia).
  split; [exact H1|]. split; [exact H2|].
  exact (proj1 (validation_rejects_too_many_tags sampleUrlProtocol _ _ H1 H2)).
Defined.

(** Eleven well-formed tags: the claim of C1 promises the first ten as the
    result, the validators throw, although any ten of them pass. *)
Lemma too_many_tags_not_truncated :
  maxTagCount APP_CONFIG < length (replicate 11 (VStr "a"))
  /\ validateProfileData sampleUrlProtocol {[ "tags" := elevenTags ]}
     = Throw (ValidationError TooManyTags)
  /\ validatePostData sampleUrlProtocol {[ "tags" := elevenTags ]} true
     = Throw (ValidationError TooManyTags)
  /\ validateProfileData sampleUrlProtocol {[ "tags" := VArr (replicate 10 (VStr "a")) ]}
     = Ok {[ "tags" := VArr (replicate 10 (VStr "a")) ]}
  /\ ~ (exists out kept,
          validateProfileData sampleUrlProtocol {[ "tags" := elevenTags ]} = Ok out
          /\ prop out "tags" = VArr kept
          /\ length kept = maxTagCount APP_CONFIG).
Proof.
  split; [vm_compute; lia|]. split; [reflexivity|]. split; [reflexivity|].
  split; [reflexivity|]. intros (out & kept & H & _). discriminate H.
Qed.

Lemma validateProfileData_idempotent_witness :
  validateProfileData sampleUrlProtocol sampleProfile = Ok sampleProfileValidated
  /\ validateProfileData sampleUrlProtocol sampleProfileValidated
     = Ok sampleProfileValidated.
Proof.
  assert (H : validateProfileData sampleUrlProtocol sampleProfile
              = Ok sampleProfileValidated) by (vm_compute; reflexivity).
  split; [exact H|].
  exact (validateProfileData_idempotent sampleUrlProtocol _ _ H).
Defined.

Lemma getPostByIdOrSlug_resolves_witness :
  posts (backendWith longSlug) !! firstPostId = Some (samplePost longSlug)
  /\ prop (samplePost longSlug) "slug" = VStr longSlug
  /\ 20 < String.length longSlug
  /\ (getPostByIdOrSlug firstPostId (backendWith longSlug)).1
     = Ok (Some (postView firstPostId (samplePost longSlug)))
  /\ (getPostByIdOrSlug longSlug (backendWith longSlug)).1
     = Ok (Some (postView firstPostId (samplePost longSlug))).
Proof.
  assert (H1 : posts (backendWith longSlug) !! firstPostId = Some (samplePost longSlug))
    by reflexivity.
  assert (H2 : prop (samplePost longSlug) "slug" = VStr longSlug) by reflexivity.
  assert (H3 : 20 < String.length longSlug) by (vm_compute; lia).
  assert (H4 : posts (backendWith longSlug) !! longSlug = None) by reflexivity.
  assert (H5 : forall j d', posts (backendWith longSlug) !! j = Some d' ->
                 prop d' "slug" = VStr longSlug -> String.ltb j firstPostId = false).
  { intros j d' Hj _. unfold backendWith in Hj. cbn [posts] in Hj.
    apply lookup_singleton_Some in Hj as [<- _]. reflexivity. }
  destruct (getPostByIdOrSlug_resolves (backendWith longSlug) firstPostId
              (samplePost longSlug) longSlug H1 H2) as (Ha & Hb & _).
  split; [exact H1|]. split; [exact H2|]. split; [exact H3|]. split; [exact Ha|].
  exact (Hb H3 H4 H5).
Defined.

(** A stored post with a 20-character generated id and the distinct,
    non-empty slug ["hello-world"]: the id finds it, the slug does not. *)
Lemma short_slug_not_resolved :
  posts (backendWith shortSlug) !! firstPostId = Some (samplePost shortSlug)
  /\ String.length firstPostId <= 20
  /\ prop (samplePost shortSlug) "slug" = VStr shortSlug
  /\ shortSlug <> "" /\ shortSlug <> firstPostId
  /\ (getPostByIdOrSlug firstPostId (backendWith shortSlug)).1
     = Ok (Some (postView firstPostId (samplePost shortSlug)))
  /\ (getPostByIdOrSlug shortSlug (backendWith shortSlug)).1 = Ok None
  /\ (getPostByIdOrSlug shortSlug (backendWith shortSlug)).1
     <> (getPostByIdOrSlug firstPostId (backendWith shortSlug)).1.
Proof.
  split; [reflexivity|]. split; [vm_compute; lia|]. split; [reflexivity|].
  split; [discriminate|]. split; [discriminate|]. split; [reflexivity|].
  split; [reflexivity|]. discriminate.
Qed.

Lemma createPost_slug_conflict_witness :
  currentUser (backendWith shortSlug) = Some admin
  /\ isAdmin (Some admin) = true
  /\ prop secondPostArgs "slug" = VStr shortSlug
  /\ isValidSlug shortSlug = true
  /\ validatePostData sampleUrlProtocol (createInput secondPostArgs) false
     = Ok secondPostValidated
  /\ posts (backendWith shortSlug) !! firstPostId = Some (samplePost shortSlug)
  /\ prop (samplePost shortSlug) "slug" = VStr shortSlug
  /\ (createPost sampleUrlProtocol secondPostArgs (backendWith shortSlug)).1
     = Throw SlugConflict
  /\ (deletePost firstPostId (backendWith shortSlug)).1 = Ok true
  /\ exists post stored,
       (createPost sampleUrlProtocol secondPostArgs
          (deletePost firstPostId (backendWith shortSlug)).2).1 = Ok post
       /\ prop post "slug" = VStr shortSlug
       /\ posts (createPost sampleUrlProtocol secondPostArgs
                   (deletePost firstPostId (backendWith shortSlug)).2).2
          = <[sampleAutoId 0 := stored]> (delete firstPostId (posts (backendWith shortSlug)))
       /\ prop stored "slug" = VStr shortSlug
       /\ prop stored "authorId" = VStr (uid admin).
Proof.
  assert (H1 : currentUser (backendWith shortSlug) = Some admin) by reflexivity.
  assert (H2 : isAdmin (Some admin) = true) by reflexivity.
  assert (H3 : prop secondPostArgs "slug" = VStr shortSlug) by reflexivity.
  assert (H4 : isValidSlug shortSlug = true) by reflexivity.
  assert (H5 : validatePostData sampleUrlProtocol (createInput secondPostArgs) false
               = Ok secondPostValidated) by (vm_compute; reflexivity).
  assert (H6 : posts (backendWith shortSlug) !! firstPostId = Some (samplePost shortSlug))
    by reflexivity.
  assert (H7 : prop (samplePost shortSlug) "slug" = VStr shortSlug) by reflexivity.
  destruct (createPost_slug_conflict sampleUrlProtocol secondPostArgs
              (backendWith shortSlug) admin shortSlug firstPostId
              (samplePost shortSlug) secondPostValidated H1 H2 H3 H4 H5 H6 H7)
    as [(Hfail & _ & _) Hafter].
  repeat (split; [assumption|]).
  split; [reflexivity|].
  apply Hafter.
  - intros j d' Hj _. unfold backendWith in Hj. cbn [posts] in Hj.
    apply lookup_singleton_Some in Hj as [<- _]. reflexivity.
  - reflexivity.
  - reflexivity.
Defined.

Lemma uploadImage_fails_fast_witness :
  typeAllowed textFile = false
  /\ uploadImage (Some textFile) "uploads" (backendWith shortSlug)
     = (Throw InvalidFile, backendWith shortSlug)
  /\ (maxImageSize APP_CONFIG < fileSize hugePhoto)%Z
  /\ uploadImage (Some hugePhoto) "uploads" (backendWith shortSlug)
     = (Throw FileTooLarge, backendWith shortSlug).
Proof.
  assert (H1 : typeAllowed textFile = false) by reflexivity.
  assert (H2 : (maxImageSize APP_CONFIG < fileSize hugePhoto)%Z) by (vm_compute; reflexivity).
  split; [exact H1|].
  split; [exact (proj1 (uploadImage_fails_fast textFile "uploads" (backendWith shortSlug)) H1)|].
  split; [exact H2|].
  exact (proj1 (proj1 (proj2 (uploadImage_fails_fast hugePhoto "uploads"
                                (backendWith shortSlug))) H2)).
Defined.

Lemma updatePost_keeps_authorId_witness :
  (fun d => prop d "authorId")
    <$> (posts (updatePost sampleUrlProtocol firstPostId hijackPatch
                  (backendWith shortSlug)).2 !! firstPostId)
  = Some (VStr (uid admin)).
Proof.
  exact (proj1 (proj2 (updatePost_keeps_authorId sampleUrlProtocol)
                  firstPostId hijackPatch (backendWith shortSlug)) firstPostId).
Defined.

Lemma updatePost_writes_under_key_witness :
  posts (backendWith longSlug) !! longSlug = None
  /\ 20 < String.length longSlug
  /\ firstWithSlug longSlug (posts (backendWith longSlug))
     = Some (firstPostId, samplePost longSlug)
  /\ firstPostId <> longSlug
  /\ calls (updatePost sampleUrlProtocol longSlug publishPatch (backendWith longSlug)).2
     = [DocGet longSlug; QueryBySlug longSlug;
        DocUpdate longSlug (<["updatedAt" := VTime 1700000500]> publishPatch)]
  /\ (updatePost sampleUrlProtocol longSlug publishPatch (backendWith longSlug)).1
     = Throw (BackendError "not-found").
Proof.
  assert (H1 : posts (backendWith longSlug) !! longSlug = None) by reflexivity.
  assert (H2 : 20 < String.length longSlug) by (vm_compute; lia).
  assert (H3 : firstWithSlug longSlug (posts (backendWith longSlug))
               = Some (firstPostId, samplePost longSlug)) by (vm_compute; reflexivity).
  destruct (updatePost_writes_under_key sampleUrlProtocol longSlug publishPatch
              (backendWith longSlug) firstPostId (samplePost longSlug) H1 H2 H3)
    as (_ & Hne & _ & Hrun).
  destruct (Hrun admin publishPatch) as (Hc & Hr & _); try reflexivity.
  split; [exact H1|]. split; [exact H2|]. split; [exact H3|]. split; [exact Hne|].
  split; [exact Hc | exact Hr].
Defined.

(** ** Defects *)

(** C2 (defect). In create mode the emptiness test of a required field
    sits inside the [!== undefined] guard, so it is skipped when the field
    is absent: [validatePostData] accepts an input without [title], and
    [createPost] stores a post that has none, whereas an empty [title] is
    refused with [RequiredFieldMissing]. *)
Theorem createPost_accepts_missing_title :
  prop untitledArgs "title" = VUndefined
  /\ validatePostData sampleUrlProtocol untitledArgs false
     = Ok {[ "contentHtml" := VStr "<p>text</p>" ]}
  /\ (exists post stored,
        (createPost sampleUrlProtocol untitledArgs (backendWith shortSlug)).1 = Ok post
        /\ prop post "title" = VUndefined
        /\ posts (createPost sampleUrlProtocol untitledArgs (backendWith shortSlug)).2
             !! sampleAutoId 0 = Some stored
        /\ stored !! "title" = None)
  /\ validatePostData sampleUrlProtocol (<["title" := VStr ""]> untitledArgs) false
     = Throw (RequiredFieldMissing "title")
  /\ validatePostData sampleUrlProtocol {[ "title" := VStr "Only a title" ]} false
     = Ok {[ "title" := VStr "Only a title" ]}.
Proof.
  split; [reflexivity|]. split; [vm_compute; reflexivity|].
  split; [|split; vm_compute; reflexivity].
  eexists _, _. split; [vm_compute; reflexivity|].
  split; [vm_compute; reflexivity|]. split; vm_compute; reflexivity.
Qed.

(** C5 (defect). The administrator owns the stored post and updates it
    with a valid patch.  Addressed by its slug (longer than 20 characters)
    the post is found and the ownership check passes, but the update is
    sent to the document named by the slug, which does not exist: the call
    fails with the backend's [not-found] and the post keeps its status.
    Addressed by its id the same update succeeds. *)
Theorem updatePost_by_slug_fails_for_owner :
  (getPostByIdOrSlug longSlug (backendWith longSlug)).1
    = Ok (Some (postView firstPostId (samplePost longSlug)))
  /\ currentUser (backendWith longSlug) = Some admin
  /\ isAdmin (Some admin) = true
  /\ prop (samplePost longSlug) "authorId" = VStr (uid admin)
  /\ validatePostData sampleUrlProtocol publishPatch true = Ok publishPatch
  /\ (updatePost sampleUrlProtocol longSlug publishPatch (backendWith longSlug)).1
     = Throw (BackendError "not-found")
  /\ posts (updatePost sampleUrlProtocol longSlug publishPatch (backendWith longSlug)).2
     = posts (backendWith longSlug)
  /\ (exists post,
        (updatePost sampleUrlProtocol firstPostId publishPatch (backendWith longSlug)).1
          = Ok post
        /\ prop post "status" = VStr "published").
Proof.
  repeat (split; [vm_compute; reflexivity|]).
  eexists. split; vm_compute; reflexivity.
Qed.

(** * Further properties *)

(** ** Validated values *)

Lemma length_zero_empty s : (String.length s =? 0)%nat = (s =? "").
Proof. destruct s; reflexivity. Qed.

Lemma checkTag_string t :
  checkTag (VStr t) =
    if tagTooLong t then Throw (ValidationError TagTooLong) else Ok (tagOrNull t).
Proof.
  cbn [checkTag]. cbv zeta. unfold tagTooLong, tagOrNull.
  rewrite length_zero_empty. destruct (trim t =? "") eqn:E; [|reflexivity].
  apply String.eqb_eq in E. rewrite E. reflexivity.
Qed.

Lemma mapThrow_checkTag_strings (tags : list string) :
  mapThrow checkTag (VStr <$> tags) =
    if existsb tagTooLong tags then Throw (ValidationError TagTooLong)
    else Ok (tagOrNull <$> tags).
Proof.
  induction tags as [|t r IH]; [reflexivity|].
  cbn [fmap list_fmap mapThrow existsb]. fold (list_fmap _ _ VStr r).
  change (list_fmap string JsVal VStr r) with (VStr <$> r).
  rewrite checkTag_string. destruct (tagTooLong t); [reflexivity|].
  cbn. rewrite IH. destruct (existsb tagTooLong r); reflexivity.
Qed.

Lemma filter_tagOrNull (tags : list string) :
  List.filter (fun tag => negb (isNull tag)) (tagOrNull <$> tags)
  = VStr <$> List.filter nonBlank (trim <$> tags).
Proof.
  induction tags as [|t r IH]; [reflexivity|].
  rewrite !fmap_cons. cbn [List.filter]. rewrite IH.
  unfold tagOrNull, nonBlank. destruct (trim t =? ""); reflexivity.
Qed.

Lemma validateTags_closed_form (tags : list string) :
  validateTags (VArr (VStr <$> tags)) =
    if (maxTagCount APP_CONFIG <? length tags)%nat
    then Throw (ValidationError TooManyTags)
    else if existsb tagTooLong tags
         then Throw (ValidationError TagTooLong)
         else Ok (VArr (VStr <$> List.filter nonBlank (trim <$> tags))).
Proof.
  cbn [validateTags]. rewrite length_fmap.
  destruct (maxTagCount APP_CONFIG <? length tags)%nat eqn:E; [reflexivity|].
  rewrite mapThrow_checkTag_strings.
  destruct (existsb tagTooLong tags); [reflexivity|].
  cbn. rewrite filter_tagOrNull. do 2 f_equal. apply take_ge.
  apply Nat.ltb_ge in E. rewrite length_fmap.
  pose proof (length_filter_le nonBlank (trim <$> tags)) as H.
  rewrite length_fmap in H. cbn [maxTagCount APP_CONFIG] in *. lia.
Qed.

(** X1. The tag block on an array of strings, in closed form: more than
    [maxTagCount] entries are refused; otherwise an entry longer than
    [maxTagLength] after trimming is refused; otherwise the result is the
    list of trimmed entries with the blank ones left out, in order.  A blank
    entry is never an error. *)
Theorem validateTags_strings (tags : list string) :
  validateTags (VArr (VStr <$> tags)) =
    if (maxTagCount APP_CONFIG <? length tags)%nat
    then Throw (ValidationError TooManyTags)
    else if existsb tagTooLong tags
         then Throw (ValidationError TagTooLong)
         else Ok (VArr (VStr <$> List.filter nonBlank (trim <$> tags))).
Proof. exact (validateTags_closed_form tags). Qed.

Lemma checkText_out field limit x y :
  checkText field limit x = Ok y -> trimmedWithin limit y /\ y <> VUndefined.
Proof.
  destruct x; cbn [checkText]; try discriminate.
  destruct (limit <? String.length s)%nat eqn:E; [discriminate|].
  intros [= <-]. split; [|discriminate]. exists (trim s).
  apply Nat.ltb_ge in E. pose proof (length_trim s).
  split; [reflexivity|]. split; [apply trim_idem | lia].
Qed.

Lemma checkTag_out x y :
  checkTag x = Ok y -> y = VNull \/ exists t, y = VStr t /\ goodTag t.
Proof.
  destruct x; cbn [checkTag]; try discriminate. cbv zeta.
  destruct (String.length (trim s) =? 0)%nat eqn:E0; [intros [= <-]; auto|].
  destruct (maxTagLength APP_CONFIG <? String.length (trim s))%nat eqn:El; [discriminate|].
  intros [= <-]. right. exists (trim s). split; [reflexivity|].
  apply Nat.ltb_ge in El. apply Nat.eqb_neq in E0.
  split; [intros H; rewrite H in E0; apply E0; reflexivity|].
  split; [apply trim_idem | exact El].
Qed.

Lemma kept_tags mapped :
  Forall (fun y => y = VNull \/ exists t, y = VStr t /\ goodTag t) mapped ->
  exists tags, List.filter (fun tag => negb (isNull tag)) mapped = VStr <$> tags
    /\ Forall goodTag tags /\ length tags <= length mapped.
Proof.
  induction 1 as [|y r Hy _ (tags & E & Hg & Hl)].
  - exists []. repeat split; [constructor | reflexivity].
  - destruct Hy as [->|(t & -> & Ht)]; cbn [List.filter isNull negb].
    + exists tags. repeat split; [exact E | exact Hg | cbn; lia].
    + exists (t :: tags). rewrite fmap_cons, E.
      repeat split; [constructor; assumption | cbn; lia].
Qed.

Lemma validateTags_out x y :
  validateTags x = Ok y -> goodTags y /\ y <> VUndefined.
Proof.
  intros H. apply validateTags_Ok in H as (items & mapped & -> & Hlen & Hm & ->).
  split; [|discriminate].
  pose proof (mapThrow_Ok _ _ _ Hm) as H2.
  destruct (kept_tags mapped) as (tags & E & Hg & Hl).
  { apply Forall_forall. intros v Hv. apply list_elem_of_lookup in Hv as [i Hi].
    destruct (Forall2_lookup_r _ _ _ _ _ H2 Hi) as (x & _ & Hx).
    exact (checkTag_out _ _ Hx). }
  exists tags. rewrite E. split; [reflexivity|]. split; [|exact Hg].
  pose proof (Forall2_length _ _ _ H2). lia.
Qed.

Lemma prop_empty k : prop ∅ k = VUndefined.
Proof. reflexivity. Qed.

(** A field named by a block is in the result exactly when it is in the
    input, and then it is what the block's check let through. *)
Lemma runSteps_out data steps v k c (Q : JsVal -> Prop) :
  NoDup steps.*1 -> runSteps data steps ∅ = Ok v -> (k, c) ∈ steps ->
  (forall x y, c x = Ok y -> Q y /\ y <> VUndefined) ->
  (prop data k = VUndefined /\ prop v k = VUndefined)
  \/ (prop data k <> VUndefined /\ prop v k <> VUndefined /\ Q (prop v k)).
Proof.
  intros Hnd Hrun Hin Hc.
  destruct (runSteps_field _ _ _ _ _ _ Hnd Hrun Hin) as [Ha Hp].
  destruct (prop_undefined_dec data k) as [E|E].
  - left. split; [exact E|]. apply prop_absent. rewrite (Ha E). apply lookup_empty.
  - right. destruct (Hp E) as (y & Hy & Hl). rewrite (prop_lookup _ _ _ Hl).
    destruct (Hc _ _ Hy). auto.
Qed.

Ltac find_step :=
  unfold postSteps, profileSteps, urlFields; cbn [app fmap list_fmap];
  repeat first [apply list_elem_of_here | apply list_elem_of_further].

Section ValidatorOutputs.

Variable urlProtocol : string -> option string.

Lemma checkTitle_out isUpdate x y :
  checkTitle isUpdate x = Ok y ->
  trimmedWithin (maxTitleLength APP_CONFIG) y /\ y <> VUndefined.
Proof.
  unfold checkTitle. destruct (negb isUpdate && negb (truthy x)); [discriminate|].
  apply checkText_out.
Qed.

Lemma checkContent_out isUpdate x y :
  checkContent isUpdate x = Ok y -> trimmedText y /\ y <> VUndefined.
Proof.
  unfold checkContent. destruct (negb isUpdate && negb (truthy x)); [discriminate|].
  destruct x; try discriminate. intros [= <-]. split; [|discriminate].
  exists (trim s). split; [reflexivity | apply trim_idem].
Qed.

Lemma checkStatus_out x y : checkStatus x = Ok y -> goodStatus y /\ y <> VUndefined.
Proof.
  unfold checkStatus. cbn [existsb].
  destruct (isStr "draft" x) eqn:E1; [|destruct (isStr "published" x) eqn:E2];
    cbn [orb]; try discriminate; intros [= <-].
  - apply isStr_true in E1 as ->. split; [left; reflexivity | discriminate].
  - apply isStr_true in E2 as ->. split; [right; reflexivity | discriminate].
Qed.

Lemma checkUrl_out field x y :
  checkUrl urlProtocol field x = Ok y -> goodUrl urlProtocol y /\ y <> VUndefined.
Proof.
  destruct x; cbn [checkUrl]; try discriminate. cbv zeta.
  destruct (trim s =? "") eqn:E; cbn [negb andb].
  - intros [= <-]. split; [|discriminate]. exists (trim s).
    apply String.eqb_eq in E. repeat split; [apply trim_idem | left; exact E].
  - destruct (isValidURL urlProtocol (trim s)) eqn:Ev; [|discriminate].
    intros [= <-]. split; [|discriminate]. exists (trim s).
    repeat split; [apply trim_idem | right; exact Ev].
Qed.

Lemma checkSlug_out x y : checkSlug x = Ok y -> goodSlug y /\ y <> VUndefined.
Proof.
  destruct x; cbn [checkSlug]; try discriminate. cbv zeta.
  destruct (trim s =? "") eqn:E; cbn [negb andb].
  - intros [= <-]. split; [|discriminate]. exists (trim s).
    apply String.eqb_eq in E. split; [reflexivity | left; exact E].
  - destruct (isValidSlug (trim s)) eqn:Ev; [|discriminate].
    intros [= <-]. split; [|discriminate]. exists (trim s).
    split; [reflexivity | right; exact Ev].
Qed.


(** X2. Whatever [validatePostData] returns respects the limits of the
    data model, in create and in update mode: the title is a trimmed string
    of at most [maxTitleLength] characters, the content a trimmed string,
    the status [draft] or [published], the tags at most [maxTagCount]
    non-blank trimmed strings of at most [maxTagLength] characters, the
    cover URL empty or an http(s) URL, the slug empty or a well-formed
    slug.  A field is in the result exactly when it is one of these six and
    the input has it. *)
Theorem validatePostData_output (data : Obj) (isUpdate : bool) (v : Obj) :
  validatePostData urlProtocol data isUpdate = Ok v ->
  (forall k, prop v k <> VUndefined <-> k ∈ postFields /\ prop data k <> VUndefined)
  /\ fieldIs v "title" (trimmedWithin (maxTitleLength APP_CONFIG))
  /\ fieldIs v "contentHtml" trimmedText
  /\ fieldIs v "status" goodStatus
  /\ fieldIs v "tags" goodTags
  /\ fieldIs v "coverUrl" (goodUrl urlProtocol)
  /\ fieldIs v "slug" goodSlug.
Proof.
  intros Hv. pose proof Hv as Hrun. rewrite validatePostData_steps in Hrun.
  pose proof (postSteps_NoDup urlProtocol isUpdate) as Hnd.
  assert (Hf : forall k c (Q : JsVal -> Prop), (k, c) ∈ postSteps urlProtocol isUpdate ->
            (forall x y, c x = Ok y -> Q y /\ y <> VUndefined) ->
            fieldIs v k Q /\ (prop v k <> VUndefined <-> prop data k <> VUndefined)).
  { intros k c Q Hin Hc.
    destruct (runSteps_out data _ v k c Q Hnd Hrun Hin Hc) as [[Hd Hu]|(Hd & Hu & HQ)];
      unfold fieldIs; split; auto; split; intros H; congruence. }
  destruct (Hf "title" _ _ ltac:(find_step) (checkTitle_out isUpdate))
    as [T1 T2].
  destruct (Hf "contentHtml" _ _ ltac:(find_step)
              (checkContent_out isUpdate)) as [C1 C2].
  destruct (Hf "status" _ _ ltac:(find_step) checkStatus_out)
    as [S1 S2].
  destruct (Hf "tags" _ _ ltac:(find_step) validateTags_out)
    as [G1 G2].
  destruct (Hf "coverUrl" _ _ ltac:(find_step)
              (checkUrl_out "coverUrl")) as [U1 U2].
  destruct (Hf "slug" _ _ ltac:(find_step) checkSlug_out)
    as [L1 L2].
  split; [|auto 10].
  intros k. split.
  - intros Hk. destruct (decide (k ∈ postFields)) as [Hin|Hout].
    + split; [exact Hin|]. unfold postFields in Hin.
      repeat (apply elem_of_union in Hin as [Hin|Hin]);
        apply elem_of_singleton in Hin; subst k; tauto.
    + destruct Hk. apply prop_absent. exact (validatePostData_fields _ _ _ _ _ Hv Hout).
  - intros [Hin Hd]. unfold postFields in Hin.
    repeat (apply elem_of_union in Hin as [Hin|Hin]);
      apply elem_of_singleton in Hin; subst k; tauto.
Qed.

Lemma validateProfileData_fields data v k :
  validateProfileData urlProtocol data = Ok v -> k ∉ profileFields -> v !! k = None.
Proof.
  rewrite validateProfileData_steps. intros H Hk.
  rewrite (runSteps_other _ _ _ _ k H); [apply lookup_empty|].
  intros Hin. apply Hk. unfold profileFields. cbn in Hin.
  repeat (apply elem_of_cons in Hin as [->|Hin];
          [apply (bool_decide_unpack _); vm_compute; exact I|]).
  apply elem_of_nil in Hin as [].
Qed.

(** X3. Whatever [validateProfileData] returns respects the limits of the
    data model: display name and nickname are trimmed strings of at most
    [maxDisplayNameLength] characters, the bio a trimmed string of at most
    500 characters, the tags at most [maxTagCount] non-blank trimmed strings
    of at most [maxTagLength] characters, and each of the three URL fields
    is empty or an http(s) URL.  A field is in the result exactly when it is
    one of these seven and the input has it. *)
Theorem validateProfileData_output (data v : Obj) :
  validateProfileData urlProtocol data = Ok v ->
  (forall k, prop v k <> VUndefined <-> k ∈ profileFields /\ prop data k <> VUndefined)
  /\ fieldIs v "displayName" (trimmedWithin (maxDisplayNameLength APP_CONFIG))
  /\ fieldIs v "nickname" (trimmedWithin (maxDisplayNameLength APP_CONFIG))
  /\ fieldIs v "bio" (trimmedWithin 500)
  /\ fieldIs v "tags" goodTags
  /\ fieldIs v "photoURL" (goodUrl urlProtocol)
  /\ fieldIs v "siteBgUrl" (goodUrl urlProtocol)
  /\ fieldIs v "authorBgUrl" (goodUrl urlProtocol).
Proof.
  intros Hv. pose proof Hv as Hrun. rewrite validateProfileData_steps in Hrun.
  pose proof (profileSteps_NoDup urlProtocol) as Hnd.
  assert (Hf : forall k c (Q : JsVal -> Prop), (k, c) ∈ profileSteps urlProtocol ->
            (forall x y, c x = Ok y -> Q y /\ y <> VUndefined) ->
            fieldIs v k Q /\ (prop v k <> VUndefined <-> prop data k <> VUndefined)).
  { intros k c Q Hin Hc.
    destruct (runSteps_out data _ v k c Q Hnd Hrun Hin Hc) as [[Hd Hu]|(Hd & Hu & HQ)];
      unfold fieldIs; split; auto; split; intros H; congruence. }
  destruct (Hf "displayName" _ _ ltac:(find_step) (checkText_out "displayName" _))
    as [D1 D2].
  destruct (Hf "nickname" _ _ ltac:(find_step) (checkText_out "nickname" _)) as [N1 N2].
  destruct (Hf "bio" _ _ ltac:(find_step) (checkText_out "bio" _)) as [B1 B2].
  destruct (Hf "tags" _ _ ltac:(find_step) validateTags_out) as [G1 G2].
  destruct (Hf "photoURL" _ _ ltac:(find_step) (checkUrl_out "photoURL")) as [P1 P2].
  destruct (Hf "siteBgUrl" _ _ ltac:(find_step) (checkUrl_out "siteBgUrl")) as [S1 S2].
  destruct (Hf "authorBgUrl" _ _ ltac:(find_step) (checkUrl_out "authorBgUrl"))
    as [A1 A2].
  split; [|auto 10].
  intros k. split.
  - intros Hk. destruct (decide (k ∈ profileFields)) as [Hin|Hout].
    + split; [exact Hin|]. unfold profileFields in Hin.
      repeat (apply elem_of_union in Hin as [Hin|Hin]);
        apply elem_of_singleton in Hin; subst k; tauto.
    + destruct Hk. apply prop_absent. exact (validateProfileData_fields _ _ _ Hv Hout).
  - intros [Hin Hd]. unfold profileFields in Hin.
    repeat (apply elem_of_union in Hin as [Hin|Hin]);
      apply elem_of_singleton in Hin; subst k; tauto.
Qed.

Lemma stable_checkTitle_update : stable (checkTitle true).
Proof. unfold checkTitle. cbn [negb andb]. apply stable_checkText. Qed.

Lemma stable_checkContent_update : stable (checkContent true).
Proof.
  intros x y. unfold checkContent. cbn [negb andb].
  destruct x; try discriminate. intros [= <-]. split; [discriminate|].
  rewrite trim_idem. reflexivity.
Qed.

Lemma stable_checkStatus : stable checkStatus.
Proof.
  intros x y H. pose proof (checkStatus_out _ _ H) as [[->| ->] Hu];
    split; try exact Hu; reflexivity.
Qed.

Lemma isValidSlug_nonempty_eqb s : isValidSlug s = true -> (s =? "") = false.
Proof. destruct s; [discriminate | reflexivity]. Qed.

Lemma stable_checkSlug : stable checkSlug.
Proof.
  intros x y H. pose proof (checkSlug_out _ _ H) as [(s & -> & Hs) Hu].
  split; [exact Hu|]. cbn [checkSlug]. cbv zeta. destruct Hs as [->|Hs]; [reflexivity|].
  rewrite (trim_valid_slug s Hs), Hs, andb_false_r. reflexivity.
Qed.

(** X4. In update mode post validation is idempotent: a patch it accepts
    is returned in a form that it accepts again, unchanged. *)
Theorem validatePostData_update_idempotent (patch v : Obj) :
  validatePostData urlProtocol patch true = Ok v ->
  validatePostData urlProtocol v true = Ok v.
Proof.
  rewrite !validatePostData_steps.
  apply runSteps_idempotent; [apply postSteps_NoDup|].
  intros k c Hin. unfold postSteps in Hin.
  repeat (apply elem_of_cons in Hin as [[= -> ->]|Hin];
          [first [ apply stable_checkTitle_update | apply stable_checkContent_update
                 | apply stable_checkStatus | apply stable_validateTags
                 | apply stable_checkUrl | apply stable_checkSlug ]|]).
  apply elem_of_nil in Hin as [].
Qed.

Lemma prop_singleton_ne (f k : string) (x : JsVal) :
  f <> k -> prop ({[ f := x ]} : Obj) k = VUndefined.
Proof. intros H. unfold prop. rewrite lookup_singleton_ne by exact H. reflexivity. Qed.

Lemma prop_singleton (f : string) (x : JsVal) : prop ({[ f := x ]} : Obj) f = x.
Proof. unfold prop. rewrite lookup_singleton_eq. reflexivity. Qed.

(** On an input with a single field only that field's block runs. *)
Lemma runSteps_singleton f x steps c : forall acc,
  NoDup steps.*1 -> (f, c) ∈ steps -> x <> VUndefined ->
  runSteps {[ f := x ]} steps acc = y ← c x; Ok (<[f := y]> acc).
Proof.
  induction steps as [|[k c'] rest IH]; intros acc Hnd Hin Hx.
  - apply elem_of_nil in Hin as [].
  - cbn [runSteps]. apply NoDup_cons in Hnd as [Hk Hnd].
    apply elem_of_cons in Hin as [[= <- <-]|Hin].
    + rewrite whenPresent_present by (rewrite prop_singleton; exact Hx).
      rewrite prop_singleton. destruct (c x) as [y|e]; [|reflexivity]. cbn.
      clear IH Hnd. revert Hk. generalize (<[f:=y]> acc).
      induction rest as [|[k' c''] rest IH]; intros acc' Hk; [reflexivity|].
      cbn [runSteps]. apply not_elem_of_cons in Hk as [Hne Hk].
      rewrite whenPresent_absent by (apply prop_singleton_ne; exact Hne).
      cbn. apply IH. exact Hk.
    + assert (Hne : f <> k).
      { intros ->. apply Hk. apply list_elem_of_fmap. exists (k, c). auto. }
      rewrite whenPresent_absent by (apply prop_singleton_ne; exact Hne).
      cbn. apply IH; assumption.
Qed.

(** X5. In create mode a title, or a content, that consists of white
    space only passes validation (it is not empty when tested) and is then
    stored as the empty string; the result is no longer accepted in create
    mode, so create-mode validation is not idempotent. *)
Theorem validatePostData_create_blank (field : string) (s : string) :
  (field = "title" /\ String.length s <= maxTitleLength APP_CONFIG) \/ field = "contentHtml" ->
  s <> "" -> trim s = "" ->
  validatePostData urlProtocol {[ field := VStr s ]} false = Ok {[ field := VStr "" ]}
  /\ validatePostData urlProtocol {[ field := VStr "" ]} false
     = Throw (RequiredFieldMissing field).
Proof.
  intros Hf Hne Ht. apply String.eqb_neq in Hne.
  rewrite !validatePostData_steps.
  pose proof (postSteps_NoDup urlProtocol false) as Hnd.
  destruct Hf as [[-> Hlen]| ->].
  - apply Nat.ltb_ge in Hlen.
    rewrite !(runSteps_singleton "title" _ _ (checkTitle false) ∅ Hnd) by
      (discriminate || find_step).
    unfold checkTitle. cbn [truthy checkText negb andb]. rewrite Hne. cbn [negb andb].
    rewrite Hlen, Ht. split; reflexivity.
  - rewrite !(runSteps_singleton "contentHtml" _ _ (checkContent false) ∅ Hnd) by
      (discriminate || find_step).
    unfold checkContent. cbn [truthy negb andb]. rewrite Hne. cbn [negb andb].
    rewrite Ht. split; reflexivity.
Qed.

End ValidatorOutputs.

(** ** Generated slugs *)

Lemma allChars_lastChar q s : allChars q s = true -> s <> "" -> holds q (lastChar s) = true.
Proof.
  induction s as [|c r IH]; [congruence|]. intros H _. cbn in H.
  apply andb_prop in H as [Hc Hr]. destruct r as [|d r']; [exact Hc|].
  apply IH; [exact Hr | discriminate].
Qed.

Lemma allChars_firstChar q s : allChars q s = true -> s <> "" -> holds q (firstChar s) = true.
Proof.
  destruct s as [|c r]; [congruence|]. intros H _. cbn in H.
  apply andb_prop in H as [Hc _]. exact Hc.
Qed.

Lemma slugOutput_char c :
  isSlugOutput c = true ->
  isSlugChar c = true /\ isSlugSource c = true /\ lowerChar c = c
  /\ isSeparator c = isHyphen c
  /\ (isHyphen c = false -> isAlnum c = true)
  /\ (isHyphen c = true -> c = "-"%char).
Proof. destruct c as [[] [] [] [] [] [] [] []]; vm_compute; intuition congruence. Qed.

Lemma holds_weaken (p q : ascii -> bool) o :
  (forall c, p c = true -> q c = true) -> holds p o = true -> holds q o = true.
Proof. intros H. destruct o as [c|]; cbn; [apply H | discriminate]. Qed.

Lemma allChars_weaken (p q : ascii -> bool) s :
  (forall c, p c = true -> q c = true) -> allChars p s = true -> allChars q s = true.
Proof.
  intros H. induction s as [|c r IH]; [reflexivity|]. cbn. intros Hs.
  apply andb_prop in Hs as [Hc Hr]. rewrite (H c Hc), (IH Hr). reflexivity.
Qed.

Lemma holds_and (p q : ascii -> bool) o :
  holds p o = true -> holds q o = false -> holds (fun c => p c && negb (q c)) o = true.
Proof. destruct o as [c|]; cbn; [intros -> ->; reflexivity | discriminate]. Qed.

(** A non-empty word over the slug alphabet without a hyphen at either end
    is a well-formed slug. *)
Lemma slugOutput_valid s :
  allChars isSlugOutput s = true -> s <> "" ->
  holds isHyphen (firstChar s) = false -> holds isHyphen (lastChar s) = false ->
  isValidSlug s = true.
Proof.
  intros Ha Hne Hf Hl. unfold isValidSlug.
  assert (Hal : forall c, isSlugOutput c && negb (isHyphen c) = true -> isAlnum c = true).
  { intros c H. apply andb_prop in H as [H1 H2]. apply negb_true_iff in H2.
    apply (slugOutput_char c H1). exact H2. }
  rewrite (allChars_weaken isSlugOutput isSlugChar s
             (fun c H => proj1 (slugOutput_char c H)) Ha).
  rewrite (holds_weaken _ isAlnum _ Hal
             (holds_and _ _ _ (allChars_firstChar _ _ Ha Hne) Hf)).
  rewrite (holds_weaken _ isAlnum _ Hal
             (holds_and _ _ _ (allChars_lastChar _ _ Ha Hne) Hl)).
  reflexivity.
Qed.

(** The stages of [generateSlug] before the truncation. *)
Lemma generateSlug_untruncated title :
  exists u,
    generateSlug title = substring0 50 u
    /\ u = trimHyphens (collapseSeparators (stripSpecial (toLowerCase title)))
    /\ allChars isSlugOutput u = true
    /\ noRepeat isHyphen u = true
    /\ holds isHyphen (firstChar u) = false
    /\ holds isHyphen (lastChar u) = false.
Proof.
  exists (trimHyphens (collapseSeparators (stripSpecial (toLowerCase title)))).
  destruct (collapseFrom_props _ (stripSpecial_lower title) false) as (Ha & Hn & _).
  fold (collapseSeparators (stripSpecial (toLowerCase title))) in Ha, Hn.
  unfold trimHyphens. repeat split.
  - unfold generateSlug, trimHyphens. destruct title; reflexivity.
  - apply allChars_dropTrailing, allChars_dropLeading, Ha.
  - apply noRepeat_dropTrailing, noRepeat_dropLeading, Hn.
  - apply dropTrailing_head, dropLeading_head.
  - apply lastChar_dropTrailing.
Qed.

Lemma generateSlug_shape title :
  allChars isSlugOutput (generateSlug title) = true
  /\ noRepeat isHyphen (generateSlug title) = true
  /\ holds isHyphen (firstChar (generateSlug title)) = false
  /\ String.length (generateSlug title) <= 50.
Proof.
  destruct (generateSlug_untruncated title) as (u & -> & _ & Ha & Hn & Hf & _).
  repeat split.
  - apply allChars_substring0, Ha.
  - apply noRepeat_substring0, Hn.
  - apply firstChar_substring0_holds, Hf.
  - apply length_substring0.
Qed.

(** X6. A generated slug is accepted by the slug validation of
    [validatePostData] as it is: it is empty or, unless the truncation to
    50 characters left a hyphen at its end, a well-formed slug.  When the
    slug needs no truncation, no such hyphen is left. *)
Theorem generateSlug_valid (title : string) :
  (holds isHyphen (lastChar (generateSlug title)) = false ->
     (generateSlug title = "" \/ isValidSlug (generateSlug title) = true)
     /\ checkSlug (VStr (generateSlug title)) = Ok (VStr (generateSlug title)))
  /\ (String.length (trimHyphens (collapseSeparators (stripSpecial (toLowerCase title))))
        <= 50 ->
      holds isHyphen (lastChar (generateSlug title)) = false).
Proof.
  split.
  - intros Hl. destruct (generateSlug_shape title) as (Ha & _ & Hf & _).
    destruct (String.eqb_spec (generateSlug title) "") as [E|E].
    + rewrite E. split; [left|]; reflexivity.
    + pose proof (slugOutput_valid _ Ha E Hf Hl) as Hv. split; [right; exact Hv|].
      cbn [checkSlug]. cbv zeta.
      rewrite (trim_valid_slug _ Hv), Hv, andb_false_r. reflexivity.
  - intros Hlen. destruct (generateSlug_untruncated title) as (u & -> & -> & _ & _ & _ & Hl).
    rewrite substring0_all by exact Hlen. exact Hl.
Qed.

Lemma toLowerCase_fixed s : allChars isSlugOutput s = true -> toLowerCase s = s.
Proof.
  induction s as [|c r IH]; [reflexivity|]. cbn. intros H.
  apply andb_prop in H as [Hc Hr].
  destruct (slugOutput_char c Hc) as (_ & _ & -> & _). rewrite (IH Hr). reflexivity.
Qed.

Lemma stripSpecial_fixed s : allChars isSlugOutput s = true -> stripSpecial s = s.
Proof.
  induction s as [|c r IH]; [reflexivity|]. cbn. intros H.
  apply andb_prop in H as [Hc Hr].
  destruct (slugOutput_char c Hc) as (_ & -> & _). rewrite (IH Hr). reflexivity.
Qed.

Lemma collapseFrom_fixed s : forall inRun,
  allChars isSlugOutput s = true -> noRepeat isHyphen s = true ->
  (inRun = true -> holds isHyphen (firstChar s) = false) ->
  collapseFrom inRun s = s.
Proof.
  induction s as [|c r IH]; intros inRun Ha Hn Hf; [reflexivity|].
  cbn in Ha, Hn. apply andb_prop in Ha as [Hc Hr]. apply andb_prop in Hn as [Hcn Hrn].
  destruct (slugOutput_char c Hc) as (_ & _ & _ & Hsep & _ & Hy).
  cbn [collapseFrom]. rewrite Hsep. destruct (isHyphen c) eqn:Eh.
  - destruct inRun; [specialize (Hf eq_refl); cbn in Hf; congruence|].
    rewrite (Hy eq_refl). f_equal. apply IH; [exact Hr | exact Hrn|].
    intros _. rewrite ?Eh in Hcn. cbn [andb] in Hcn. apply negb_true_iff in Hcn. exact Hcn.
  - f_equal. apply IH; [exact Hr | exact Hrn | discriminate].
Qed.

(** X7. Applying [generateSlug] to a generated slug changes nothing except
    that a hyphen left at the end by the truncation is removed; on a slug
    without such a hyphen [generateSlug] is idempotent. *)
Theorem generateSlug_twice (title : string) :
  generateSlug (generateSlug title) = dropTrailing isHyphen (generateSlug title)
  /\ (holds isHyphen (lastChar (generateSlug title)) = false ->
      generateSlug (generateSlug title) = generateSlug title).
Proof.
  destruct (generateSlug_shape title) as (Ha & Hn & Hf & Hlen).
  set (s := generateSlug title) in *.
  assert (E : generateSlug s = dropTrailing isHyphen s).
  { unfold generateSlug at 1. destruct (s =? "") eqn:Es.
    - apply String.eqb_eq in Es. rewrite Es. reflexivity.
    - rewrite (toLowerCase_fixed s Ha), (stripSpecial_fixed s Ha).
      unfold collapseSeparators. rewrite (collapseFrom_fixed s false Ha Hn) by discriminate.
      unfold trimHyphens. rewrite (dropLeading_fixed isHyphen s Hf).
      apply substring0_all. pose proof (length_dropTrailing isHyphen s). lia. }
  split; [exact E|]. intros Hl. rewrite E.
  destruct (String.eqb_spec s "") as [->|Hne]; [reflexivity|].
  apply dropTrailing_fixed; assumption.
Qed.

(** ** Tag input *)

Lemma splitFrom_nonempty inRun s : splitFrom inRun s <> [].
Proof.
  revert inRun. induction s as [|c r IH]; intros inRun; cbn; [discriminate|].
  destruct (isTagSeparator c).
  - destruct inRun; [apply IH | discriminate].
  - destruct (splitFrom false r); discriminate.
Qed.

Lemma splitFrom_separatorFree inRun s :
  Forall (fun piece => separatorFree piece = true) (splitFrom inRun s).
Proof.
  revert inRun. induction s as [|c r IH]; intros inRun; cbn.
  - repeat constructor.
  - destruct (isTagSeparator c) eqn:E.
    + destruct inRun; [apply IH | constructor; [reflexivity | apply IH]].
    + specialize (IH false). destruct (splitFrom false r) as [|p ps].
      * repeat constructor. unfold separatorFree. cbn. rewrite E. reflexivity.
      * inversion IH as [|? ? Hp Hps]; subst. constructor; [|exact Hps].
        unfold separatorFree in *. cbn. rewrite E, Hp. reflexivity.
Qed.

Lemma separator_space c : isSpace c = true -> isTagSeparator c = true.
Proof. unfold isTagSeparator. intros ->. apply orb_true_r. Qed.

Lemma separatorFree_head t : separatorFree t = true -> holds isSpace (firstChar t) = false.
Proof.
  destruct t as [|c r]; [reflexivity|]. unfold separatorFree. cbn. intros H.
  apply andb_prop in H as [H _]. apply negb_true_iff in H.
  destruct (isSpace c) eqn:E; [|reflexivity]. rewrite (separator_space c E) in H. discriminate.
Qed.

Lemma separatorFree_last t : separatorFree t = true -> holds isSpace (lastChar t) = false.
Proof.
  unfold separatorFree. induction t as [|c r IH]; [reflexivity|]. cbn. intros H.
  apply andb_prop in H as [Hc Hr]. destruct r as [|d r']; [|apply IH, Hr].
  cbn. apply negb_true_iff in Hc.
  destruct (isSpace c) eqn:E; [|reflexivity]. rewrite (separator_space c E) in Hc. discriminate.
Qed.

Lemma trim_separatorFree t : separatorFree t = true -> trim t = t.
Proof.
  intros H. unfold trim. rewrite dropLeading_fixed by (apply separatorFree_head, H).
  destruct t as [|c r]; [reflexivity|].
  apply dropTrailing_fixed; [apply separatorFree_last, H | discriminate].
Qed.

Lemma fmap_fixed {A : Type} (f : A -> A) l :
  Forall (fun x => f x = x) l -> f <$> l = l.
Proof. induction 1 as [|x r Hx _ IH]; [reflexivity|]. rewrite fmap_cons, Hx, IH. reflexivity. Qed.

Lemma filter_Forall {A : Type} (p : A -> bool) (P : A -> Prop) l :
  Forall P l -> Forall (fun x => P x /\ p x = true) (List.filter p l).
Proof.
  induction 1 as [|x r Hx _ IH]; cbn; [constructor|].
  destruct (p x) eqn:E; [constructor; auto | exact IH].
Qed.

Lemma existsb_agree {A : Type} (f g : A -> bool) l :
  Forall (fun x => f x = g x) l -> existsb f l = existsb g l.
Proof. induction 1 as [|x r Hx _ IH]; [reflexivity|]. cbn. rewrite Hx, IH. reflexivity. Qed.

Lemma positive_length t : (0 <? String.length t)%nat = true <-> t <> "".
Proof. destruct t; cbn; split; congruence. Qed.

Lemma formatTagsInput_pieces input :
  length (formatTagsInput input) <= maxTagCount APP_CONFIG
  /\ Forall (fun tag => tag <> "" /\ separatorFree tag = true) (formatTagsInput input).
Proof.
  destruct input; try (split; [cbn; lia | constructor]).
  cbn [formatTagsInput]. destruct (s =? ""); [split; [cbn; lia | constructor]|].
  split; [rewrite length_take; lia|]. apply Forall_take.
  rewrite (fmap_fixed trim).
  - eapply Forall_impl; [apply filter_Forall, (splitFrom_separatorFree false s)|].
    intros t [Hs Hl]. split; [apply positive_length, Hl | exact Hs].
  - eapply Forall_impl; [apply (splitFrom_separatorFree false s)|].
    intros t Ht. apply trim_separatorFree, Ht.
Qed.

(** X8. [formatTagsInput] returns at most [maxTagCount] tags, none of them
    empty, none containing a comma or white space (so each is already
    trimmed); anything that is not a non-empty string gives no tags. *)
Theorem formatTagsInput_output (input : JsVal) :
  length (formatTagsInput input) <= maxTagCount APP_CONFIG
  /\ Forall (fun tag => tag <> "" /\ separatorFree tag = true /\ trim tag = tag)
       (formatTagsInput input)
  /\ ((forall s, input = VStr s -> s = "") -> formatTagsInput input = []).
Proof.
  destruct (formatTagsInput_pieces input) as [Hl Hf]. split; [exact Hl|]. split.
  - eapply Forall_impl; [exact Hf|]. intros t [Hne Hs].
    repeat split; [exact Hne | exact Hs | apply trim_separatorFree, Hs].
  - intros H. destruct input; try reflexivity. rewrite (H s eq_refl). reflexivity.
Qed.

(** X9. The tags [formatTagsInput] returns always pass the count guard of
    the validators, and are validated to themselves: validation of them
    fails only when one of them is longer than [maxTagLength], and
    otherwise returns them unchanged. *)
Theorem formatTagsInput_validates (input : JsVal) :
  validateTags (VArr (VStr <$> formatTagsInput input)) =
    if existsb (fun tag => (maxTagLength APP_CONFIG <? String.length tag)%nat)
         (formatTagsInput input)
    then Throw (ValidationError TagTooLong)
    else Ok (VArr (VStr <$> formatTagsInput input)).
Proof.
  destruct (formatTagsInput_pieces input) as [Hl Hf].
  rewrite validateTags_closed_form.
  apply Nat.ltb_ge in Hl. rewrite Hl.
  assert (Ht : Forall (fun tag => trim tag = tag) (formatTagsInput input)).
  { eapply Forall_impl; [exact Hf|]. intros t [_ Hs]. apply trim_separatorFree, Hs. }
  assert (E : existsb tagTooLong (formatTagsInput input)
              = existsb (fun tag => (maxTagLength APP_CONFIG <? String.length tag)%nat)
                  (formatTagsInput input)).
  { apply existsb_agree. eapply Forall_impl; [exact Ht|].
    intros t Hx. unfold tagTooLong. rewrite Hx. reflexivity. }
  rewrite E. clear E.
  destruct (existsb (fun tag => (maxTagLength APP_CONFIG <? String.length tag)%nat)
              (formatTagsInput input)); [reflexivity|].
  rewrite (fmap_fixed trim _ Ht). rewrite filter_fixed; [reflexivity|].
  eapply Forall_impl; [exact Hf|]. intros t [Hne _]. unfold nonBlank.
  apply negb_true_iff, String.eqb_neq, Hne.
Qed.

Lemma append_empty_r s : (s ++ "")%string = s.
Proof.
  induction s as [|c r IH]; [reflexivity|].
  change (String c (r +:+ "") = String c r). f_equal. exact IH.
Qed.

Lemma splitFrom_prefix t s :
  separatorFree t = true ->
  splitFrom false (t ++ s) =
    match splitFrom false s with
    | piece :: pieces => (t ++ piece)%string :: pieces
    | [] => [t]
    end.
Proof.
  unfold separatorFree. induction t as [|c r IH]; intros H.
  - change ("" +:+ s) with s. pose proof (splitFrom_nonempty false s).
    destruct (splitFrom false s); [congruence | reflexivity].
  - cbn in H. apply andb_prop in H as [Hc Hr]. apply negb_true_iff in Hc.
    change (String c r +:+ s) with (String c (r +:+ s)).
    cbn [splitFrom]. rewrite Hc, (IH Hr).
    pose proof (splitFrom_nonempty false s).
    destruct (splitFrom false s); [congruence | reflexivity].
Qed.

Lemma splitFrom_inRun t s :
  separatorFree t = true -> t <> "" ->
  splitFrom true (t ++ s) = splitFrom false (t ++ s).
Proof.
  destruct t as [|c r]; [congruence|]. intros H _.
  unfold separatorFree in H. cbn [allChars] in H.
  apply andb_prop in H as [Hc _]. apply negb_true_iff in Hc.
  change (String c r +:+ s) with (String c (r +:+ s)).
  cbn [splitFrom]. rewrite Hc. reflexivity.
Qed.

Lemma concat_cons_prefix sep t r : exists s, String.concat sep (t :: r) = (t ++ s)%string.
Proof.
  destruct r as [|t2 r']; cbn.
  - exists "". symmetry. apply append_empty_r.
  - eexists. reflexivity.
Qed.

Lemma splitFrom_join t r :
  Forall (fun tag => tag <> "" /\ separatorFree tag = true) (t :: r) ->
  splitFrom false (String.concat ", " (t :: r)) = t :: r.
Proof.
  revert t. induction r as [|t2 r' IH]; intros t H.
  - inversion H as [|? ? [_ Ht] _]; subst. cbn [String.concat].
    rewrite <- (append_empty_r t) at 1. rewrite (splitFrom_prefix t "" Ht). cbn.
    rewrite append_empty_r. reflexivity.
  - inversion H as [|? ? [_ Ht] Hr]; subst.
    change (String.concat ", " (t :: t2 :: r'))
      with (t ++ (", " ++ String.concat ", " (t2 :: r')))%string.
    rewrite (splitFrom_prefix t _ Ht).
    change (splitFrom false (", " ++ String.concat ", " (t2 :: r')))
      with ("" :: splitFrom true (String.concat ", " (t2 :: r'))).
    cbv beta iota. rewrite append_empty_r. f_equal.
    inversion Hr as [|? ? [Hne2 Ht2] _]; subst.
    destruct (concat_cons_prefix ", " t2 r') as [s E].
    rewrite E, splitFrom_inRun by assumption. rewrite <- E. apply IH, Hr.
Qed.

(** X10. Round trip of the tag editor: for at most [maxTagCount] tags, each
    non-empty and free of commas and white space, parsing the text that
    [tagsToString] makes of them gives the same tags back. *)
Theorem formatTagsInput_tagsToString (tags : list string) :
  length tags <= maxTagCount APP_CONFIG ->
  Forall (fun tag => tag <> "" /\ separatorFree tag = true) tags ->
  formatTagsInput (VStr (tagsToString (Some tags))) = tags.
Proof.
  intros Hlen Hf. destruct tags as [|t r]; [reflexivity|].
  cbn [tagsToString formatTagsInput].
  assert (Hne : (String.concat ", " (t :: r) =? "") = false).
  { destruct (concat_cons_prefix ", " t r) as [s ->].
    inversion Hf as [|? ? [Hne _] _]; subst. destruct t; [congruence | reflexivity]. }
  rewrite Hne, (splitFrom_join t r Hf).
  rewrite (fmap_fixed trim).
  - rewrite filter_fixed.
    + apply take_ge. exact Hlen.
    + eapply Forall_impl; [exact Hf|]. intros x [Hx _]. apply positive_length, Hx.
  - eapply Forall_impl; [exact Hf|]. intros x [_ Hx]. apply trim_separatorFree, Hx.
Qed.

(** ** Post operations: authorisation, deletion, publishing *)

Section PostsMore.

Variable urlProtocol : string -> option string.

Lemma requireAdmin_refused w :
  isAdmin (currentUser w) = false -> requireAdmin w = (Throw (adminRefusal w), w).
Proof.
  intros H. rewrite requireAdmin_run. unfold adminRefusal.
  destruct (currentUser w) as [u|]; [rewrite H|]; reflexivity.
Qed.

(** X11. Without a signed-in administrator none of [createPost],
    [updatePost], [deletePost] does anything: each fails with
    [Unauthenticated] when nobody is signed in and with [Forbidden]
    otherwise, before any request is sent, and the backend is exactly what
    it was. *)
Theorem post_writes_require_admin (w : Backend) :
  isAdmin (currentUser w) = false ->
  (forall args, createPost urlProtocol args w = (Throw (adminRefusal w), w))
  /\ (forall id patch, updatePost urlProtocol id patch w = (Throw (adminRefusal w), w))
  /\ (forall id, deletePost id w = (Throw (adminRefusal w), w)).
Proof.
  intros H. pose proof (requireAdmin_refused w H) as E.
  split; [|split]; intros;
    [unfold createPost | unfold updatePost | unfold deletePost];
    unfold tryCatch; unfold mbind at 1; unfold M_bind at 1; rewrite E; reflexivity.
Qed.

Lemma deletePost_run (id : string) (w : Backend) user :
  currentUser w = Some user -> isAdmin (Some user) = true ->
  deletePost id w =
    match getPostByIdOrSlug id w with
    | (Ok None, w1) => (Throw NotFound, w1)
    | (Ok (Some existing), w1) =>
        if isStr (uid user) (prop existing "authorId")
        then (Ok true, logCall (DocDelete id) (setPosts (delete id (posts w1)) w1))
        else (Throw (Forbidden NotOwner), w1)
    | (Throw e, w1) => (Throw e, w1)
    end.
Proof.
  intros Eu Ea. unfold deletePost, tryCatch.
  unfold mbind at 1. unfold M_bind at 1. rewrite requireAdmin_run, Eu, Ea.
  unfold mbind at 1. unfold M_bind at 1.
  destruct (getPostByIdOrSlug id w) as [[[existing|]|e] w1]; try reflexivity.
  destruct (isStr (uid user) (prop existing "authorId")); reflexivity.
Qed.

Lemma deletePost_refused (id : string) (w : Backend) :
  isAdmin (currentUser w) = false -> deletePost id w = (Throw (adminRefusal w), w).
Proof.
  intros H. unfold deletePost, tryCatch.
  unfold mbind at 1. unfold M_bind at 1. rewrite (requireAdmin_refused w H). reflexivity.
Qed.

(** X12. [deletePost] called with the document id by the administrator
    who is the post's author returns [true] and removes that document and
    no other. *)
Theorem deletePost_by_id (id : string) (w : Backend) (user : User) (d : Obj) :
  currentUser w = Some user -> isAdmin (Some user) = true ->
  posts w !! id = Some d -> prop d "authorId" = VStr (uid user) ->
  (deletePost id w).1 = Ok true
  /\ posts (deletePost id w).2 = delete id (posts w)
  /\ posts (deletePost id w).2 !! id = None
  /\ (forall j, j <> id -> posts (deletePost id w).2 !! j = posts w !! j)
  /\ calls (deletePost id w).2 = (calls w ++ [DocGet id; DocDelete id])%list.
Proof.
  intros Eu Ea Hd Hown. rewrite (deletePost_run id w user Eu Ea).
  rewrite getPostByIdOrSlug_run, Hd. rewrite prop_postView by discriminate.
  rewrite Hown. cbn [isStr]. rewrite String.eqb_refl. cbn.
  split; [reflexivity|]. split; [reflexivity|]. split; [apply lookup_delete_eq|].
  split; [intros j Hj; apply lookup_delete_ne; congruence|].
  rewrite <- app_assoc. reflexivity.
Qed.

(** X13. [deletePost] never removes anything but the document named by
    its argument, and that one only for a signed-in administrator who is its
    author; it never adds or changes a post. *)
Theorem deletePost_only_own (id : string) (w : Backend) :
  (forall j x, posts (deletePost id w).2 !! j = Some x -> posts w !! j = Some x)
  /\ (forall i d, posts w !! i = Some d -> posts (deletePost id w).2 !! i = None ->
        i = id
        /\ exists user, currentUser w = Some user /\ isAdmin (Some user) = true
                        /\ prop d "authorId" = VStr (uid user)).
Proof.
  destruct (isAdmin (currentUser w)) eqn:Ea.
  2:{ rewrite (deletePost_refused id w Ea). cbn.
      split; [auto|]. intros i d H1 H2. congruence. }
  destruct (currentUser w) as [user|] eqn:Eu; [|discriminate].
  rewrite (deletePost_run id w user Eu Ea).
  pose proof (getPostByIdOrSlug_posts id w) as Hp.
  pose proof (getPostByIdOrSlug_run id w) as Hrun.
  destruct (getPostByIdOrSlug id w) as [[[existing|]|e] w1]; cbn [fst snd] in *;
    try (split; [intros j x; rewrite Hp; auto | intros i d H1 H2; congruence]).
  destruct (isStr (uid user) (prop existing "authorId")) eqn:Eown; cbn [fst snd];
    [|split; [intros j x; rewrite Hp; auto | intros i d H1 H2; congruence]].
  cbn [posts logCall setPosts]. rewrite Hp. split.
  - intros j x H. apply lookup_delete_Some in H as [_ H]. exact H.
  - intros i d Hi Hgone. rewrite lookup_delete in Hgone.
    destruct (decide (id = i)) as [<-|Hne]; [|congruence].
    split; [reflexivity|]. exists user. repeat split; try assumption.
    rewrite Hi in Hrun. injection Hrun as -> _.
    rewrite prop_postView in Eown by discriminate. apply isStr_true in Eown. exact Eown.
Qed.

(** X14. [deletePost] called with a key that is not a document id but
    resolves, through the slug query, to a post the calling administrator
    owns, sends the delete to the document named by the key.  The store has
    no such document, so nothing is removed, yet the call returns [true]. *)
Theorem deletePost_via_slug (key : string) (w : Backend) (i : string) (d : Obj)
    (user : User) :
  posts w !! key = None -> 20 < String.length key ->
  firstWithSlug key (posts w) = Some (i, d) ->
  currentUser w = Some user -> isAdmin (Some user) = true ->
  prop d "authorId" = VStr (uid user) ->
  (deletePost key w).1 = Ok true
  /\ posts (deletePost key w).2 = posts w
  /\ posts (deletePost key w).2 !! i = Some d
  /\ calls (deletePost key w).2
     = (calls w ++ [DocGet key; QueryBySlug key; DocDelete key])%list.
Proof.
  intros Hmiss Hlong Hq Eu Ea Hown. apply Nat.ltb_lt in Hlong.
  rewrite (deletePost_run key w user Eu Ea).
  rewrite getPostByIdOrSlug_run, Hmiss, Hlong, Hq.
  cbn [fmap option_fmap option_map]. unfold viewOf. cbn [fst snd].
  rewrite prop_postView by discriminate. rewrite Hown. cbn [isStr].
  rewrite String.eqb_refl. cbn.
  apply whereSlug_some in Hq as [Hi _].
  split; [reflexivity|]. split; [apply delete_id, Hmiss|].
  split; [rewrite delete_id by exact Hmiss; exact Hi|].
  rewrite <- !app_assoc. reflexivity.
Qed.

Lemma validate_status_patch (status : string) :
  status = "draft" \/ status = "published" ->
  validatePostData urlProtocol {[ "status" := VStr status ]} true
  = Ok {[ "status" := VStr status ]}.
Proof.
  intros H. rewrite validatePostData_steps.
  rewrite (runSteps_singleton "status" (VStr status) _ checkStatus ∅
             (postSteps_NoDup urlProtocol true)); [|find_step | discriminate].
  destruct H as [-> | ->]; reflexivity.
Qed.

(** The stored post after a status update at clock time [t]. *)
Lemma status_patch_merge (status : string) (t : Z) (d : Obj) k :
  (<["updatedAt" := VTime t]> ({[ "status" := VStr status ]} : Obj) ∪ d) !! k
  = if decide (k = "status") then Some (VStr status)
    else if decide (k = "updatedAt") then Some (VTime t)
    else d !! k.
Proof.
  destruct (decide (k = "status")) as [->|H1].
  - apply lookup_union_Some_l. rewrite lookup_insert_ne by discriminate.
    apply lookup_singleton_eq.
  - destruct (decide (k = "updatedAt")) as [->|H2].
    + apply lookup_union_Some_l. apply lookup_insert_eq.
    + apply lookup_union_r. rewrite lookup_insert_ne by congruence.
      apply lookup_singleton_ne. congruence.
Qed.

Lemma setStatus_by_id (status : string) (id : string) (w : Backend) user d :
  status = "draft" \/ status = "published" ->
  currentUser w = Some user -> isAdmin (Some user) = true ->
  posts w !! id = Some d -> prop d "authorId" = VStr (uid user) ->
  exists post w',
    updatePost urlProtocol id {[ "status" := VStr status ]} w = (Ok post, w')
    /\ prop post "status" = VStr status
    /\ prop post "updatedAt" = VTime (clock w)
    /\ currentUser w' = currentUser w
    /\ clock w' = clockAfter w 0
    /\ (forall n, clockAfter w' n = clockAfter w (S n))
    /\ posts w' = <[id := <["updatedAt" := VTime (clock w)]>
                            ({[ "status" := VStr status ]} : Obj) ∪ d]> (posts w).
Proof.
  intros Hs Eu Ea Hd Hown.
  eexists _, _. split.
  - apply (updatePost_by_id urlProtocol id _ w user d _ Eu Ea Hd Hown
             (validate_status_patch status Hs)).
    intros s H. rewrite prop_singleton_ne in H by discriminate. discriminate.
  - split; [|split; [|repeat split]].
    + apply prop_lookup, lookup_union_Some_l.
      rewrite lookup_insert_ne by discriminate. apply lookup_singleton_eq.
    + apply prop_lookup, lookup_union_Some_l, lookup_insert_eq.
Qed.

(** X15. [publishPost] called with the document id by the administrator
    who is the post's author succeeds; afterwards the stored post has status
    [published] and [updatedAt] set to the current time, every other field
    of it is as before, and no other post has changed. *)
Theorem publishPost_by_id (id : string) (w : Backend) (user : User) (d : Obj) :
  currentUser w = Some user -> isAdmin (Some user) = true ->
  posts w !! id = Some d -> prop d "authorId" = VStr (uid user) ->
  exists post stored,
    (publishPost urlProtocol id w).1 = Ok post
    /\ prop post "status" = VStr "published"
    /\ posts (publishPost urlProtocol id w).2 !! id = Some stored
    /\ (forall k, stored !! k =
           if decide (k = "status") then Some (VStr "published")
           else if decide (k = "updatedAt") then Some (VTime (clock w))
           else d !! k)
    /\ (forall j, j <> id ->
           posts (publishPost urlProtocol id w).2 !! j = posts w !! j).
Proof.
  intros Eu Ea Hd Hown. unfold publishPost.
  destruct (setStatus_by_id "published" id w user d (or_intror eq_refl) Eu Ea Hd Hown)
    as (post & w' & -> & Hst & _ & _ & _ & _ & Hp).
  cbn [fst snd]. rewrite Hp. eexists post, _. split; [reflexivity|].
  split; [exact Hst|]. split; [apply lookup_insert_eq|].
  split; [apply status_patch_merge|].
  intros j Hj. apply lookup_insert_ne. congruence.
Qed.

(** X16. Publishing and then withdrawing a post (both by its author, by
    document id) succeeds and leaves the stored post as it was, except that
    its status is [draft] and [updatedAt] is the time of the second call:
    [publishPost] stamps the reading [clock w] it takes, [unpublishPost]
    takes the next reading, [clockAfter w 0], and stamps that one over it.
    For a post that was a draft only [updatedAt] has changed. *)
Theorem unpublish_after_publish (id : string) (w : Backend) (user : User) (d : Obj) :
  currentUser w = Some user -> isAdmin (Some user) = true ->
  posts w !! id = Some d -> prop d "authorId" = VStr (uid user) ->
  let w1 := (publishPost urlProtocol id w).2 in
  exists published post,
    posts w1 !! id = Some published
    /\ prop published "updatedAt" = VTime (clock w)
    /\ (unpublishPost urlProtocol id w1).1 = Ok post
    /\ prop post "updatedAt" = VTime (clockAfter w 0)
    /\ posts (unpublishPost urlProtocol id w1).2
       = <[id := <["updatedAt" := VTime (clockAfter w 0)]>
                   (<["status" := VStr "draft"]> d)]> (posts w)
    /\ (d !! "status" = Some (VStr "draft") ->
        posts (unpublishPost urlProtocol id w1).2
        = <[id := <["updatedAt" := VTime (clockAfter w 0)]> d]> (posts w))
    /\ clock (unpublishPost urlProtocol id w1).2 = clockAfter w 1.
Proof.
  intros Eu Ea Hd Hown w1. subst w1. unfold publishPost, unpublishPost.
  destruct (setStatus_by_id "published" id w user d (or_intror eq_refl) Eu Ea Hd Hown)
    as (post1 & w1 & -> & _ & _ & Hu1 & Hc1 & Ha1 & Hp1).
  cbn [fst snd].
  set (d1 := <["updatedAt" := VTime (clock w)]>
               ({[ "status" := VStr "published" ]} : Obj) ∪ d) in *.
  assert (Hd1 : posts w1 !! id = Some d1) by (rewrite Hp1; apply lookup_insert_eq).
  assert (Hown1 : prop d1 "authorId" = VStr (uid user)).
  { unfold prop, d1. rewrite status_patch_merge.
    do 2 (rewrite decide_False by discriminate). exact Hown. }
  rewrite <- Hu1 in Eu.
  destruct (setStatus_by_id "draft" id w1 user d1 (or_introl eq_refl) Eu Ea Hd1 Hown1)
    as (post2 & w2 & -> & _ & Hu2 & _ & Hk2 & _ & Hp2).
  rewrite Hc1 in Hu2. rewrite Ha1 in Hk2.
  cbn [fst snd]. exists d1, post2. split; [exact Hd1|].
  split; [unfold prop, d1; rewrite status_patch_merge; reflexivity|].
  split; [reflexivity|].
  assert (E : <["updatedAt" := VTime (clock w1)]> ({[ "status" := VStr "draft" ]} : Obj) ∪ d1
              = <["updatedAt" := VTime (clockAfter w 0)]> (<["status" := VStr "draft"]> d)).
  { apply map_eq. intros k. rewrite status_patch_merge, Hc1.
    destruct (decide (k = "status")) as [->|H1].
    - rewrite lookup_insert_ne by discriminate. symmetry. apply lookup_insert_eq.
    - destruct (decide (k = "updatedAt")) as [->|H2].
      + symmetry. apply lookup_insert_eq.
      + rewrite !lookup_insert_ne by congruence. unfold d1.
        rewrite status_patch_merge. rewrite !decide_False by assumption. reflexivity. }
  rewrite Hp2, Hp1, E, insert_insert_eq.
  split; [exact Hu2|]. split; [reflexivity|].
  split; [intros Hdraft; rewrite (insert_id d "status" _ Hdraft); reflexivity|].
  exact Hk2.
Qed.

End PostsMore.

(** ** The profile store *)

Section Profiles.

Variable urlProtocol : string -> option string.

Lemma updateMyProfile_run (data : Obj) (s : Site) :
  updateMyProfile urlProtocol data s =
    match currentUser (backend s) with
    | None => (Throw Unauthenticated, s)
    | Some user =>
        match validateProfileData urlProtocol data with
        | Throw e => (Throw e, s)
        | Ok v =>
            let patch := <["updatedAt" := VTime (clock (backend s))]> v in
            (Ok patch,
             {| profiles :=
                  <[uid user := patch ∪ default ∅ (profiles s !! uid user)]> (profiles s);
                backend := tickClock (backend s) |})
        end
    end.
Proof.
  destruct s as [pr w].
  unfold updateMyProfile, tryCatchP, mbind, P_bind, onBackend, requireAuth, liftP,
    timestampNow, profileSet, mret, P_ret.
  cbn [backend profiles].
  destruct (currentUser w) as [user|]; [|reflexivity].
  destruct (validateProfileData urlProtocol data) as [v|e]; reflexivity.
Qed.

(** X17. [updateMyProfile] writes only the profile of the signed-in user:
    the profile of every other uid is as before, whatever the input; when
    nobody is signed in it fails with [Unauthenticated], when validation
    refuses the input it fails with the validation error, and in both cases
    no profile has changed. *)
Theorem updateMyProfile_only_own (data : Obj) (s : Site) :
  (forall u, (forall user, currentUser (backend s) = Some user -> uid user <> u) ->
     profiles (updateMyProfile urlProtocol data s).2 !! u = profiles s !! u)
  /\ (currentUser (backend s) = None ->
      updateMyProfile urlProtocol data s = (Throw Unauthenticated, s))
  /\ (forall user e,
        currentUser (backend s) = Some user ->
        validateProfileData urlProtocol data = Throw e ->
        updateMyProfile urlProtocol data s = (Throw e, s)).
Proof.
  rewrite updateMyProfile_run. split; [|split].
  - intros u Hu. destruct (currentUser (backend s)) as [user|]; [|reflexivity].
    destruct (validateProfileData urlProtocol data) as [v|e]; [|reflexivity].
    cbn. apply lookup_insert_ne. apply Hu. reflexivity.
  - intros ->. reflexivity.
  - intros user e -> ->. reflexivity.
Qed.

(** X18. [updateMyProfile] is a partial merge: when it succeeds, the
    stored profile of the signed-in user has, for every field of the
    validated input and for [updatedAt], the validated value, and for every
    other field the value it had before; the call returns the validated
    fields with [updatedAt]. *)
Theorem updateMyProfile_merges (data : Obj) (s : Site) (user : User) (v : Obj) :
  currentUser (backend s) = Some user ->
  validateProfileData urlProtocol data = Ok v ->
  exists stored,
    (updateMyProfile urlProtocol data s).1
      = Ok (<["updatedAt" := VTime (clock (backend s))]> v)
    /\ profiles (updateMyProfile urlProtocol data s).2 !! uid user = Some stored
    /\ stored !! "updatedAt" = Some (VTime (clock (backend s)))
    /\ (forall k x, v !! k = Some x -> k <> "updatedAt" -> stored !! k = Some x)
    /\ (forall k, prop data k = VUndefined -> k <> "updatedAt" ->
          stored !! k = default ∅ (profiles s !! uid user) !! k).
Proof.
  intros Eu Hv. rewrite updateMyProfile_run, Eu, Hv. cbn.
  eexists. split; [reflexivity|]. split; [apply lookup_insert_eq|].
  split; [apply lookup_union_Some_l, lookup_insert_eq|]. split.
  - intros k x Hk Hne. apply lookup_union_Some_l.
    rewrite lookup_insert_ne by congruence. exact Hk.
  - intros k Hk Hne. apply lookup_union_r. rewrite lookup_insert_ne by congruence.
    destruct (decide (k ∈ profileFields)) as [Hin|Hout].
    + destruct (v !! k) as [x|] eqn:E; [|reflexivity]. exfalso.
      rewrite validateProfileData_steps in Hv.
      assert (Hs : exists c, (k, c) ∈ profileSteps urlProtocol).
      { unfold profileFields in Hin.
        repeat (apply elem_of_union in Hin as [Hin|Hin]);
          apply elem_of_singleton in Hin; subst k; eexists; find_step. }
      destruct Hs as [c Hc].
      destruct (runSteps_field _ _ _ _ _ _ (profileSteps_NoDup urlProtocol) Hv Hc)
        as [Ha _].
      rewrite (Ha Hk), lookup_empty in E. discriminate.
    + exact (validateProfileData_fields urlProtocol _ _ _ Hv Hout).
Qed.

Lemma checkText_string field limit s y :
  checkText field limit (VStr s) = Ok y -> y = VStr (trim s).
Proof.
  cbn [checkText]. destruct (limit <? String.length s)%nat; [discriminate|].
  intros [= <-]. reflexivity.
Qed.

(** X19. After a successful [updateMyProfile] whose input carries a
    display name and a bio, the stored profile is complete exactly when
    both are non-blank: a name or bio of white space only is accepted by the
    validation, stored empty, and leaves the profile incomplete. *)
Theorem updateMyProfile_complete (data : Obj) (s : Site) (user : User) (v : Obj)
    (name bio : string) :
  currentUser (backend s) = Some user ->
  validateProfileData urlProtocol data = Ok v ->
  prop data "displayName" = VStr name -> prop data "bio" = VStr bio ->
  isProfileComplete (profiles (updateMyProfile urlProtocol data s).2 !! uid user)
  = nonBlank (trim name) && nonBlank (trim bio).
Proof.
  intros Eu Hv Hn Hb. rewrite updateMyProfile_run, Eu, Hv. cbn [snd profiles].
  rewrite lookup_insert_eq. cbn [isProfileComplete].
  pose proof Hv as Hrun. rewrite validateProfileData_steps in Hrun.
  pose proof (profileSteps_NoDup urlProtocol) as Hnd.
  assert (Hf : forall k c s0, (k, c) ∈ profileSteps urlProtocol ->
            prop data k = VStr s0 ->
            (forall y, c (VStr s0) = Ok y -> y = VStr (trim s0)) ->
            forall old : Obj,
              prop (<["updatedAt" := VTime (clock (backend s))]> v ∪ old) k
              = VStr (trim s0)).
  { intros k c s0 Hin Hk Hc old.
    destruct (runSteps_field _ _ _ _ _ _ Hnd Hrun Hin) as [_ Hp].
    destruct Hp as (y & Hy & Hl); [rewrite Hk; discriminate|].
    rewrite Hk in Hy. rewrite (Hc y Hy) in Hl.
    apply prop_lookup, lookup_union_Some_l.
    destruct (decide (k = "updatedAt")) as [->|Hne].
    - exfalso. pose proof (validateProfileData_fields urlProtocol _ _ "updatedAt" Hv) as H.
      rewrite H in Hl; [discriminate|]. apply (bool_decide_unpack _). vm_compute. exact I.
    - rewrite lookup_insert_ne by congruence. exact Hl. }
  rewrite (Hf "displayName" _ name ltac:(find_step) Hn (checkText_string _ _ _)).
  rewrite (Hf "bio" _ bio ltac:(find_step) Hb (checkText_string _ _ _)).
  reflexivity.
Qed.

End Profiles.

Lemma getProfile_run (u : string) (s : Site) :
  getProfile u s = (Ok (postView u <$> profiles s !! u), s).
Proof.
  unfold getProfile, tryCatchP, mbind, P_bind, profileGet. cbn [snapData snapId].
  destruct (profiles s !! u); reflexivity.
Qed.

Lemma createInitialProfile_run (user : Identity) (s : Site) :
  exists p : Obj,
    createInitialProfile user s
      = (Ok p, {| profiles := <[uid (identityUser user) := p]> (profiles s);
                  backend := tickClock (tickClock (backend s)) |})
    /\ (prop p "displayName" = orEmpty (identityDisplayName user)
        /\ prop p "photoURL" = orEmpty (identityPhotoURL user)
        /\ prop p "nickname" = VStr "" /\ prop p "bio" = VStr ""
        /\ prop p "tags" = VArr []
        /\ prop p "siteBgUrl" = VStr "" /\ prop p "authorBgUrl" = VStr "")
    /\ prop p "createdAt" = VTime (clock (backend s))
    /\ prop p "updatedAt" = VTime (clockAfter (backend s) 0)
    /\ p !! "id" = None.
Proof.
  destruct s as [pr w]. eexists. split; [reflexivity|].
  repeat split; reflexivity.
Qed.

(** X20. [getOrCreateProfile] returns the stored profile of the user
    unchanged when there is one, and changes nothing.  When there is none
    it stores and returns, without an [id], the initial profile: the user's
    display name and photo (each the empty string when the user has none),
    an empty nickname and bio, no tags, empty background URLs, and two
    time stamps, [createdAt] with the reading taken first and [updatedAt]
    with the one taken after it; this profile is never complete, and
    neither the posts nor the request log change.  Either way a profile is
    stored afterwards, a second call returns it (with its [id]) and changes
    nothing, and no other user's profile is touched. *)
Theorem getOrCreateProfile_spec (user : Identity) (s : Site) :
  let u := uid (identityUser user) in
  let r := getOrCreateProfile user s in
  (forall d, profiles s !! u = Some d -> r = (Ok (postView u d), s))
  /\ (profiles s !! u = None ->
      exists p, r.1 = Ok p
        /\ profiles r.2 = <[u := p]> (profiles s)
        /\ posts (backend r.2) = posts (backend s)
        /\ calls (backend r.2) = calls (backend s)
        /\ clock (backend r.2) = clockAfter (backend s) 1
        /\ (prop p "displayName" = orEmpty (identityDisplayName user)
            /\ prop p "photoURL" = orEmpty (identityPhotoURL user)
            /\ prop p "nickname" = VStr "" /\ prop p "bio" = VStr ""
            /\ prop p "tags" = VArr []
            /\ prop p "siteBgUrl" = VStr "" /\ prop p "authorBgUrl" = VStr "")
        /\ prop p "createdAt" = VTime (clock (backend s))
        /\ prop p "updatedAt" = VTime (clockAfter (backend s) 0)
        /\ p !! "id" = None
        /\ isProfileComplete (Some p) = false)
  /\ (exists stored, profiles r.2 !! u = Some stored
        /\ getOrCreateProfile user r.2 = (Ok (postView u stored), r.2))
  /\ (forall j, j <> u -> profiles r.2 !! j = profiles s !! j).
Proof.
  intros u r. subst r.
  assert (Hhit : forall s0 d, profiles s0 !! u = Some d ->
            getOrCreateProfile user s0 = (Ok (postView u d), s0)).
  { intros s0 d Hd. unfold getOrCreateProfile, tryCatchP, mbind, P_bind.
    fold u. rewrite getProfile_run, Hd. reflexivity. }
  assert (Hmiss : profiles s !! u = None ->
            getOrCreateProfile user s = createInitialProfile user s).
  { intros Hn. unfold getOrCreateProfile, tryCatchP. unfold mbind at 1.
    unfold P_bind at 1. fold u. rewrite getProfile_run, Hn.
    cbn [fmap option_fmap option_map].
    destruct (createInitialProfile_run user s) as (p & -> & _). reflexivity. }
  destruct (createInitialProfile_run user s) as (p & Ep & Hf & Hc & Hu & Hid).
  fold u in Ep.
  split; [exact (Hhit s)|]. split; [|split].
  - intros Hnone. rewrite (Hmiss Hnone), Ep. exists p. cbn [fst snd profiles backend].
    split; [reflexivity|]. split; [reflexivity|]. split; [reflexivity|].
    split; [reflexivity|]. split; [reflexivity|].
    split; [exact Hf|]. split; [exact Hc|]. split; [exact Hu|]. split; [exact Hid|].
    destruct Hf as (_ & _ & _ & Hb & _).
    cbn [isProfileComplete]. rewrite Hb. apply andb_false_r.
  - destruct (profiles s !! u) as [d|] eqn:Ed.
    + rewrite (Hhit s d Ed). cbn [snd]. exists d. split; [exact Ed | apply Hhit, Ed].
    + rewrite (Hmiss eq_refl), Ep. cbn [snd profiles]. exists p.
      split; [apply lookup_insert_eq|]. apply Hhit. cbn [profiles]. apply lookup_insert_eq.
  - intros j Hj. destruct (profiles s !! u) as [d|] eqn:Ed.
    + rewrite (Hhit s d Ed). reflexivity.
    + rewrite (Hmiss eq_refl), Ep. cbn [snd profiles]. apply lookup_insert_ne. congruence.
Qed.

(** ** Batch upload *)

Lemma uploadImage_run (f : File) (folder : string) (w : Backend) :
  exists r,
    uploadImage (Some f) folder w
      = (r, if fileAccepted f
            then nextReply (logCall (Upload f (userFolder w folder)) w)
            else w)
    /\ (fileAccepted f = false -> r = Throw (refusal f)).
Proof.
  unfold uploadImage, tryCatch, mbind, M_bind, liftR, validateImageFile, getCurrentUser,
    fileAccepted, userFolder, postToHost, refusal.
  destruct (typeAllowed f); cbn [negb andb]; [|eexists; split; reflexivity].
  destruct (maxImageSize APP_CONFIG <? fileSize f)%Z; cbn [negb];
    [eexists; split; reflexivity|].
  destruct (hostReply w) as [m|st m|result];
    [| |destruct (negb (truthy (prop result "secure_url")))];
    eexists; (split; [reflexivity | discriminate]).
Qed.

Lemma uploadImage_null (folder : string) (w : Backend) :
  uploadImage None folder w = (Throw NoFile, w).
Proof. reflexivity. Qed.

Lemma afterUploads_cons (f : File) (files : list File) (folder : string) (w : Backend) :
  afterUploads (f :: files) folder w
  = afterUploads files folder (uploadImage (Some f) folder w).2.
Proof. reflexivity. Qed.

Lemma replyAt_nextReply (c : Call) (w : Backend) (n : nat) :
  replyAt (nextReply (logCall c w)) n = replyAt w (S n).
Proof. destruct n; reflexivity. Qed.

(** The backend after a run of uploads: the posts, the user and the clock
    are as before, one request was sent for each file that passes the
    validation, and as many replies of the host are used up. *)
Lemma afterUploads_state (files : list File) (folder : string) :
  forall w,
    let sent := List.filter fileAccepted files in
    let w' := afterUploads files folder w in
    posts w' = posts w /\ currentUser w' = currentUser w /\ clock w' = clock w
    /\ calls w' = (calls w ++ map (fun f => Upload f (userFolder w folder)) sent)%list
    /\ forall n, replyAt w' n = replyAt w (length sent + n).
Proof.
  induction files as [|f rest IH]; intros w.
  - cbn. rewrite app_nil_r. auto.
  - cbv zeta. rewrite afterUploads_cons.
    destruct (uploadImage_run f folder w) as (r & -> & _). cbn [snd List.filter].
    destruct (fileAccepted f).
    + destruct (IH (nextReply (logCall (Upload f (userFolder w folder)) w)))
        as (Hp & Hu & Hk & Hc & Hr).
      rewrite Hp, Hu, Hk, Hc. cbn [posts currentUser clock calls nextReply logCall map length].
      split; [reflexivity|]. split; [reflexivity|]. split; [reflexivity|].
      split; [rewrite <- app_assoc; reflexivity|].
      intros n. rewrite Hr, replyAt_nextReply. reflexivity.
    + apply IH.
Qed.

Section Batch.

Variable folder : string.
Variable onProgress : Callback.

(** The loop on files none of which is [null], as long as the callback
    throws neither [null] nor [undefined]. *)
Lemma uploadFrom_resolved (count : nat) (files : list File) :
  (forall progress, notify onProgress progress <> Some CaughtNullish) ->
  forall i b w,
    uploadFrom i count (Some <$> files) folder onProgress b w
    = (Resolved
         {| results :=
              results b
              ++ omap id (imap (fun k f => resultEntry (uploadOutcome files folder w k f))
                            files);
            errors :=
              errors b
              ++ omap id (imap (fun k f => errorEntry onProgress count (i + k) f
                                             (uploadOutcome files folder w k f))
                            files) |},
       afterUploads files folder w).
Proof.
  intros Hcb. induction files as [|f rest IH]; intros i b w.
  - cbn. rewrite !app_nil_r. destruct b; reflexivity.
  - cbn [fmap list_fmap uploadFrom]. rewrite afterUploads_cons.
    rewrite !imap_cons. unfold uploadOutcome at 1 3. cbn [take afterUploads foldl].
    destruct (uploadImage (Some f) folder w) as [r w1] eqn:E. cbn [fst snd].
    rewrite Nat.add_0_r.
    assert (Hres : imap ((fun k f0 => resultEntry (uploadOutcome (f :: rest) folder w k f0)) ∘ S)
                     rest
                   = imap (fun k f0 => resultEntry (uploadOutcome rest folder w1 k f0)) rest).
    { apply imap_ext. intros k x _. unfold compose, uploadOutcome.
      cbn [take]. rewrite afterUploads_cons, E. reflexivity. }
    assert (Herr : imap ((fun k f0 => errorEntry onProgress count (i + k) f0
                                        (uploadOutcome (f :: rest) folder w k f0)) ∘ S) rest
                   = imap (fun k f0 => errorEntry onProgress count (S i + k) f0
                                         (uploadOutcome rest folder w1 k f0)) rest).
    { apply imap_ext. intros k x _. unfold compose, uploadOutcome.
      cbn [take]. rewrite afterUploads_cons, E. cbn [snd].
      replace (i + S k) with (S i + k) by lia. reflexivity. }
    rewrite Hres, Herr. clear Hres Herr.
    destruct r as [result|e]; cbn [resultEntry errorEntry].
    + pose proof (Hcb {| completed := S i; total := count; current := result |}) as Hn.
      destruct (notify onProgress {| completed := S i; total := count; current := result |})
        as [[message|]|]; [| destruct Hn; reflexivity |].
      * rewrite IH. cbn [pushError pushResult results errors omap id].
        rewrite <- !app_assoc. reflexivity.
      * rewrite IH. cbn [pushResult results errors omap id].
        rewrite <- !app_assoc. reflexivity.
    + rewrite IH. cbn [pushError results errors omap id].
      rewrite <- !app_assoc. reflexivity.
Qed.

(** A [null] entry ends the batch with a rejection, wherever it stands. *)
Lemma uploadFrom_null (count : nat) (files : list (option File)) :
  None ∈ files ->
  forall i b w, (uploadFrom i count files folder onProgress b w).1 = Rejected.
Proof.
  induction files as [|file rest IH]; intros Hin i b w.
  - apply elem_of_nil in Hin as [].
  - cbn [uploadFrom]. destruct file as [f|].
    + apply elem_of_cons in Hin as [Hin|Hin]; [discriminate|].
      destruct (uploadImage (Some f) folder w) as [[result|e] w1].
      * destruct (notify onProgress _) as [[message|]|];
          [apply IH, Hin | reflexivity | apply IH, Hin].
      * apply IH, Hin.
    + rewrite uploadImage_null. reflexivity.
Qed.

(** Where the loop leaves the backend: it has uploaded a prefix of the
    files, all of them when it resolves. *)
Lemma uploadFrom_state (count : nat) (files : list File) :
  forall i b w,
  exists n,
    n <= length files
    /\ (uploadFrom i count (Some <$> files) folder onProgress b w).2
       = afterUploads (take n files) folder w
    /\ ((exists batch, (uploadFrom i count (Some <$> files) folder onProgress b w).1
                       = Resolved batch) -> n = length files).
Proof.
  induction files as [|f rest IH]; intros i b w.
  - exists 0. cbn. auto.
  - cbn [fmap list_fmap uploadFrom].
    destruct (uploadImage (Some f) folder w) as [r w1] eqn:E.
    assert (Hgo : forall b1,
              exists n, n <= length (f :: rest)
                /\ (uploadFrom (S i) count (Some <$> rest) folder onProgress b1 w1).2
                   = afterUploads (take n (f :: rest)) folder w
                /\ ((exists batch,
                       (uploadFrom (S i) count (Some <$> rest) folder onProgress b1 w1).1
                       = Resolved batch) -> n = length (f :: rest))).
    { intros b1. destruct (IH (S i) b1 w1) as (n & Hn & Hs & Hr).
      exists (S n). cbn [length take]. rewrite afterUploads_cons, E. cbn [snd].
      split; [lia|]. split; [exact Hs|]. intros H. rewrite (Hr H). reflexivity. }
    destruct r as [result|e]; [|apply Hgo].
    destruct (notify onProgress _) as [[message|]|]; [apply Hgo | | apply Hgo].
    exists 1. cbn [length take fst snd]. rewrite afterUploads_cons, E.
    split; [lia|]. split; [reflexivity|]. intros [batch H]. discriminate.
Qed.

End Batch.

(** A callback that throws [null] or [undefined] whenever it is called
    makes the batch reject as soon as one upload succeeds. *)
Lemma uploadFrom_nullish (folder : string) (run : Progress -> option Caught)
    (count : nat) (files : list File) :
  (forall progress, run progress = Some CaughtNullish) ->
  forall i b w,
    (uploadFrom i count (Some <$> files) folder (Function run) b w).1 = Rejected
    <-> exists k f result,
          files !! k = Some f /\ uploadOutcome files folder w k f = Ok result.
Proof.
  intros Hrun. induction files as [|f rest IH]; intros i b w.
  - cbn. split; [discriminate|]. intros (k & f & result & H & _).
    rewrite lookup_nil in H. discriminate.
  - cbn [fmap list_fmap uploadFrom].
    destruct (uploadImage (Some f) folder w) as [r w1] eqn:E.
    destruct r as [result|e].
    + cbn [notify]. rewrite Hrun. cbn [fst]. split; [intros _|reflexivity].
      exists 0, f, result. split; [reflexivity|].
      unfold uploadOutcome. cbn [take afterUploads foldl]. rewrite E. reflexivity.
    + rewrite IH. split.
      * intros (k & x & result & Hk & Ho). exists (S k), x, result.
        split; [exact Hk|]. unfold uploadOutcome in *. cbn [take].
        rewrite afterUploads_cons, E. exact Ho.
      * intros (k & x & result & Hk & Ho). destruct k as [|k].
        -- injection Hk as <-. unfold uploadOutcome in Ho.
           cbn [take afterUploads foldl] in Ho. rewrite E in Ho. discriminate.
        -- exists k, x, result. split; [exact Hk|]. unfold uploadOutcome in *.
           cbn [take] in Ho. rewrite afterUploads_cons, E in Ho. exact Ho.
Qed.

(** X21. A batch of files, none of them [null], with a callback that
    throws neither [null] nor [undefined], never rejects, and what it
    resolves to is determined file by file.  The file at index [k] is
    uploaded after its predecessors, on the backend they left; when its
    upload succeeds the result goes to [results], and to [errors] goes
    what the callback throws when told so, if it throws; when its upload
    fails, its name and the error go to [errors].  Both lists are in the
    order of the files.  A file that the validation refuses fails with the
    validation error; every file yields a result or an error, and without
    a callback never both. *)
Theorem uploadMultipleImages_batch (files : list File) (folder : string)
    (onProgress : Callback) (w : Backend) :
  (forall progress, notify onProgress progress <> Some CaughtNullish) ->
  let outcome := uploadOutcome files folder w in
  let count := length files in
  (uploadMultipleImages (Some <$> files) folder onProgress w).1
  = Resolved
      {| results := omap id (imap (fun k f => resultEntry (outcome k f)) files);
         errors := omap id (imap (fun k f => errorEntry onProgress count k f (outcome k f))
                              files) |}
  /\ (forall k f, fileAccepted f = false -> outcome k f = Throw (refusal f))
  /\ (forall k f, resultEntry (outcome k f) = None ->
                  errorEntry onProgress count k f (outcome k f) <> None)
  /\ (forall k f, resultEntry (outcome k f) <> None ->
                  errorEntry NoCallback count k f (outcome k f) = None).
Proof.
  intros Hcb outcome count. split; [|split; [|split]].
  - unfold uploadMultipleImages. rewrite length_fmap.
    rewrite (uploadFrom_resolved folder onProgress (length files) files Hcb). reflexivity.
  - intros k f Hf. unfold outcome, uploadOutcome.
    destruct (uploadImage_run f folder (afterUploads (take k files) folder w))
      as (r & -> & Hr). exact (Hr Hf).
  - intros k f. destruct (outcome k f); cbn; [discriminate | intros _; discriminate].
  - intros k f. destruct (outcome k f); cbn; [reflexivity | intros H; destruct H; reflexivity].
Qed.

(** X26. When [uploadMultipleImages] rejects.  A [null] or [undefined]
    entry in [files] makes the call reject, whatever else the batch holds:
    the [catch] block reads the name of the entry.  A callback that throws
    [null] or [undefined] on every call makes a batch of files reject
    exactly when the upload of one of them succeeds; the results pushed
    until then are lost. *)
Theorem uploadMultipleImages_rejects (folder : string) (w : Backend) :
  (forall files onProgress,
      None ∈ files -> (uploadMultipleImages files folder onProgress w).1 = Rejected)
  /\ (forall (files : list File) run,
        (forall progress, run progress = Some CaughtNullish) ->
        ((uploadMultipleImages (Some <$> files) folder (Function run) w).1 = Rejected
         <-> exists k f result,
               files !! k = Some f /\ uploadOutcome files folder w k f = Ok result)).
Proof.
  split.
  - intros files onProgress Hin. apply uploadFrom_null, Hin.
  - intros files run Hrun. apply uploadFrom_nullish, Hrun.
Qed.

(** X27. The requests of a batch.  Whatever the callback does, the batch
    leaves the backend as it is after uploading a prefix of the files, all
    of them when it resolves.  After any prefix the posts, the user and the
    clock are as before, the image host has been sent exactly one request
    for each file of the prefix that passes the validation, in order and
    with the user's folder, and the next upload gets the reply that follows
    the ones these requests used up: each upload is answered by a reply of
    its own. *)
Theorem uploadMultipleImages_requests (files : list File) (folder : string)
    (onProgress : Callback) (w : Backend) :
  let run := uploadMultipleImages (Some <$> files) folder onProgress w in
  exists n,
    n <= length files
    /\ run.2 = afterUploads (take n files) folder w
    /\ ((exists batch, run.1 = Resolved batch) -> n = length files)
    /\ forall m,
         let sent := List.filter fileAccepted (take m files) in
         let wm := afterUploads (take m files) folder w in
         posts wm = posts w /\ currentUser wm = currentUser w /\ clock wm = clock w
         /\ calls wm
            = (calls w ++ map (fun f => Upload f (userFolder w folder)) sent)%list
         /\ hostReply wm = replyAt w (length sent).
Proof.
  intros run. subst run. unfold uploadMultipleImages.
  destruct (uploadFrom_state folder onProgress (length (Some <$> files)) files 0
              {| results := []; errors := [] |} w) as (n & Hn & Hs & Hr).
  exists n. split; [exact Hn|]. split; [exact Hs|]. split; [exact Hr|].
  intros m.
  destruct (afterUploads_state (take m files) folder w) as (Hp & Hu & Hk & Hc & Hrep).
  split; [exact Hp|]. split; [exact Hu|]. split; [exact Hk|]. split; [exact Hc|].
  specialize (Hrep 0). rewrite Nat.add_0_r in Hrep. exact Hrep.
Qed.

(** ** The hash router *)

Lemma isSlash_eq (c d : ascii) : isSlash c = true -> isSlash d = true -> c = d.
Proof.
  unfold isSlash, code. intros Hc Hd.
  apply N.eqb_eq in Hc. apply N.eqb_eq in Hd.
  rewrite <- (ascii_N_embedding c), <- (ascii_N_embedding d), Hc, Hd. reflexivity.
Qed.

Lemma isColon_eq (c : ascii) : isColon c = true -> c = ":"%char.
Proof.
  unfold isColon, code. intros Hc. apply N.eqb_eq in Hc.
  rewrite <- (ascii_N_embedding c), Hc. reflexivity.
Qed.

Lemma splitSlash_nonempty (s : string) : splitSlash s <> [].
Proof.
  destruct s as [|c r]; cbn [splitSlash]; [discriminate|].
  destruct (isSlash c); [discriminate|]. destruct (splitSlash r); discriminate.
Qed.

Lemma splitSlash_injective (s t : string) : splitSlash s = splitSlash t -> s = t.
Proof.
  revert t. induction s as [|c r IH]; intros [|d u]; cbn [splitSlash]; intros H.
  - reflexivity.
  - destruct (isSlash d).
    + injection H as H. symmetry in H. destruct (splitSlash_nonempty _ H).
    + destruct (splitSlash u); discriminate.
  - destruct (isSlash c).
    + injection H as H. destruct (splitSlash_nonempty _ H).
    + destruct (splitSlash r); discriminate.
  - destruct (isSlash c) eqn:Ec, (isSlash d) eqn:Ed.
    + injection H as H. rewrite (IH _ H), (isSlash_eq _ _ Ec Ed). reflexivity.
    + destruct (splitSlash u); discriminate.
    + destruct (splitSlash r); discriminate.
    + destruct (splitSlash r) as [|h tl] eqn:Er; [destruct (splitSlash_nonempty _ Er)|].
      destruct (splitSlash u) as [|h' tl'] eqn:Eu; [destruct (splitSlash_nonempty _ Eu)|].
      injection H as -> -> ->. rewrite (IH u); [reflexivity|]. rewrite Eu. reflexivity.
Qed.

Lemma splitSlash_parts (s : string) :
  Forall (fun part => allChars (fun c => negb (isSlash c)) part = true) (splitSlash s).
Proof.
  induction s as [|c r IH]; cbn [splitSlash].
  - repeat constructor.
  - destruct (isSlash c) eqn:Ec; [constructor; [reflexivity | exact IH]|].
    destruct (splitSlash r) as [|h tl].
    + repeat constructor. cbn [allChars]. rewrite Ec. reflexivity.
    + inversion IH as [|? ? Hh Htl]; subst. constructor; [|exact Htl].
      cbn [allChars]. rewrite Ec, Hh. reflexivity.
Qed.

Lemma matchParts_matches (patternParts : list string) :
  forall pathParts params,
    length patternParts = length pathParts ->
    (matchParts patternParts pathParts params <> None
     <-> Forall2 (fun p q => partMatches p q = true) patternParts pathParts).
Proof.
  induction patternParts as [|p ps IH]; intros [|q qs] params Hlen;
    cbn [length] in Hlen; try discriminate.
  - cbn. split; [constructor | discriminate].
  - injection Hlen as Hlen. cbn [matchParts]. unfold partMatches at 1.
    destruct (isParam p) eqn:Ep; cbn [orb].
    + rewrite (IH qs _ Hlen). split.
      * intros H. constructor; [unfold partMatches; rewrite Ep; reflexivity | exact H].
      * intros H. inversion H; subst. assumption.
    + destruct (String.eqb p q) eqn:Eq; cbn [negb].
      * rewrite (IH qs _ Hlen). split.
        -- intros H. constructor; [unfold partMatches; rewrite Ep, Eq; reflexivity | exact H].
        -- intros H. inversion H; subst. assumption.
      * split; [intros H; destruct H; reflexivity|].
        intros H. inversion H as [|? ? ? ? Hpq]; subst.
        unfold partMatches in Hpq. rewrite Ep, Eq in Hpq. discriminate.
Qed.

Lemma matchParts_params (patternParts : list string) :
  forall pathParts params params',
    matchParts patternParts pathParts params = Some params' ->
    forall name value,
      params' !! name = Some value ->
      params !! name = Some value
      \/ (name <> "__proto__"
          /\ exists i p, patternParts !! i = Some p /\ isParam p = true
                         /\ slice1 p = name /\ pathParts !! i = Some value).
Proof.
  induction patternParts as [|p ps IH]; intros [|q qs] params params' H name value Hv;
    cbn [matchParts] in H; try (injection H as <-; left; exact Hv).
  destruct (isParam p) eqn:Ep.
  - destruct (IH _ _ _ H _ _ Hv) as [Hin|(Hn & i & p' & H1 & H2 & H3 & H4)].
    + unfold setParam in Hin. destruct (String.eqb (slice1 p) "__proto__") eqn:Epr;
        [left; exact Hin|].
      destruct (decide (slice1 p = name)) as [En|En].
      * subst name. unfold Params in *. rewrite lookup_insert_eq in Hin. injection Hin as ->.
        right. split; [apply String.eqb_neq; exact Epr|].
        exists 0, p. repeat split; assumption.
      * unfold Params in *. rewrite lookup_insert_ne in Hin by exact En. left; exact Hin.
    + right. split; [exact Hn|]. exists (S i), p'. repeat split; assumption.
  - destruct (String.eqb p q); cbn [negb] in H; [|discriminate].
    destruct (IH _ _ _ H _ _ Hv) as [Hin|(Hn & i & p' & H1 & H2 & H3 & H4)];
      [left; exact Hin|].
    right. split; [exact Hn|]. exists (S i), p'. repeat split; assumption.
Qed.

Lemma matchParts_static (patternParts : list string) :
  forall pathParts params,
    Forall (fun p => isParam p = false) patternParts ->
    length patternParts = length pathParts ->
    patternParts <> pathParts ->
    matchParts patternParts pathParts params = None.
Proof.
  induction patternParts as [|p ps IH]; intros [|q qs] params Hst Hlen Hne;
    cbn [length] in Hlen; try discriminate.
  - destruct Hne; reflexivity.
  - inversion Hst as [|? ? Hp Hps]; subst. cbn [matchParts]. rewrite Hp.
    destruct (String.eqb p q) eqn:Eq; cbn [negb]; [|reflexivity].
    apply String.eqb_eq in Eq. subst q. apply IH; [exact Hps | lia |].
    intros ->. destruct Hne; reflexivity.
Qed.

Lemma partMatches_refl (l : list string) :
  Forall2 (fun p q => partMatches p q = true) l l.
Proof.
  induction l as [|p l IH]; constructor; [|exact IH].
  unfold partMatches. rewrite String.eqb_refl. apply orb_true_r.
Qed.

(** X22. [matchRoute] matches exactly when pattern and path have the same
    number of slash-separated parts and every pattern part either starts
    with a colon or equals the path part at its place; a parameter part
    matches any path part, the empty one included. *)
Theorem matchRoute_matches (pattern path : string) :
  matchRoute pattern path <> None
  <-> Forall2 (fun p q => partMatches p q = true) (splitSlash pattern) (splitSlash path).
Proof.
  unfold matchRoute. destruct (String.eqb pattern path) eqn:E.
  - apply String.eqb_eq in E. subst path. split; [intros _; apply partMatches_refl | discriminate].
  - destruct (Nat.eqb (length (splitSlash pattern)) (length (splitSlash path))) eqn:El; cbn [negb].
    + apply Nat.eqb_eq in El. apply matchParts_matches. exact El.
    + apply Nat.eqb_neq in El. split; [intros H; destruct H; reflexivity|].
      intros H. destruct El. eapply Forall2_length. exact H.
Qed.

(** X23. Every parameter that [matchRoute] returns comes from a pattern
    part [:name] and carries the path part at the same place, which contains
    no slash; the name is never [__proto__]. *)
Theorem matchRoute_params (pattern path : string) (params : Params)
    (name value : string) :
  matchRoute pattern path = Some params ->
  params !! name = Some value ->
  name <> "__proto__"
  /\ allChars (fun c => negb (isSlash c)) value = true
  /\ exists i, splitSlash pattern !! i = Some (String ":" name)
              /\ splitSlash path !! i = Some value.
Proof.
  unfold matchRoute, Params in *. intros H Hv. destruct (String.eqb pattern path).
  - injection H as <-. rewrite lookup_empty in Hv. discriminate.
  - destruct (negb _); [discriminate|].
    destruct (matchParts_params _ _ _ _ H _ _ Hv)
      as [Hin|(Hn & i & p & H1 & H2 & H3 & H4)];
      [unfold Params in Hin; rewrite lookup_empty in Hin; discriminate|].
    split; [exact Hn|]. split.
    + pose proof (splitSlash_parts path) as Hall.
      rewrite Forall_forall in Hall. apply Hall.
      eapply list_elem_of_lookup_2. exact H4.
    + exists i. split; [|exact H4]. rewrite H1. f_equal.
      destruct p as [|c r]; [discriminate|]. cbn in H2, H3. subst r.
      f_equal. apply isColon_eq. exact H2.
Qed.

(** X24. A pattern without parameter parts matches its own path only, with
    no parameters. *)
Theorem matchRoute_static (pattern path : string) :
  Forall (fun p => isParam p = false) (splitSlash pattern) ->
  matchRoute pattern path = if String.eqb pattern path then Some ∅ else None.
Proof.
  intros Hst. unfold matchRoute. destruct (String.eqb pattern path) eqn:E; [reflexivity|].
  destruct (Nat.eqb (length (splitSlash pattern)) (length (splitSlash path))) eqn:El;
    cbn [negb]; [|reflexivity].
  apply Nat.eqb_eq in El. apply matchParts_static; [exact Hst | exact El |].
  intros Heq. apply splitSlash_injective in Heq. apply String.eqb_neq in E. contradiction.
Qed.

Section RouterProperties.

Variable Handler : Type.

Lemma firstMatch_some (routes : Routes Handler) (hash pattern : string)
    (handler : Handler) (params : Params) :
  firstMatch Handler routes hash = Some (pattern, handler, params) ->
  In (pattern, handler) routes /\ matchRoute pattern hash = Some params.
Proof.
  induction routes as [|[p h] rest IH]; cbn [firstMatch]; [discriminate|].
  destruct (matchRoute p hash) as [ps|] eqn:E.
  - intros H. injection H as -> -> ->. split; [left; reflexivity | exact E].
  - intros H. destruct (IH H) as [H1 H2]. split; [right; exact H1 | exact H2].
Qed.

Lemma firstMatch_none (routes : Routes Handler) (hash : string) :
  firstMatch Handler routes hash = None ->
  forall pattern handler, In (pattern, handler) routes -> matchRoute pattern hash = None.
Proof.
  induction routes as [|[p h] rest IH]; cbn [firstMatch]; intros H pattern handler Hin;
    [destruct Hin|].
  destruct (matchRoute p hash) eqn:E; [discriminate|].
  destruct Hin as [Heq|Hin]; [injection Heq as <- <-; exact E | exact (IH H _ _ Hin)].
Qed.

Lemma routesGet_in (routes : Routes Handler) (key : string) (handler : Handler) :
  routesGet Handler key routes = Some handler -> In (key, handler) routes.
Proof.
  induction routes as [|[p h] rest IH]; cbn [routesGet]; [discriminate|].
  destruct (String.eqb p key) eqn:E.
  - intros H. injection H as ->. apply String.eqb_eq in E. subst p. left; reflexivity.
  - intros H. right. exact (IH H).
Qed.

(** X25. [handleRoute] calls at most one handler.  The handler called is a
    registered one: either its pattern matches the hash, it receives the
    parameters of the match and [currentRoute] becomes that route, or no
    registered pattern matches, the handler is the one registered for [/],
    it receives no parameters and [currentRoute] keeps its former value.
    When no handler is called, nothing matches, [/] is not registered and
    [currentRoute] is unchanged. *)
Theorem handleRoute_dispatch (routes : Routes Handler) (currentRoute : option Route)
    (locationHash : string) :
  let hash := routeHash locationHash in
  match handleRoute Handler routes currentRoute locationHash with
  | (Some (handler, params), current') =>
      (exists pattern,
          In (pattern, handler) routes
          /\ matchRoute pattern hash = Some params
          /\ current' = Some {| routePattern := pattern; routeParams := params |})
      \/ ((forall pattern h, In (pattern, h) routes -> matchRoute pattern hash = None)
          /\ In ("/", handler) routes /\ params = ∅ /\ current' = currentRoute)
  | (None, current') =>
      (forall pattern h, In (pattern, h) routes -> matchRoute pattern hash = None)
      /\ routesGet Handler "/" routes = None
      /\ current' = currentRoute
  end.
Proof.
  intros hash. unfold handleRoute. fold hash.
  destruct (firstMatch Handler routes hash) as [[[pattern handler] params]|] eqn:E.
  - left. exists pattern. destruct (firstMatch_some _ _ _ _ _ E) as [H1 H2].
    repeat split; assumption.
  - pose proof (firstMatch_none _ _ E) as Hnone.
    destruct (routesGet Handler "/" routes) as [h|] eqn:Eg.
    + right. repeat split; [exact Hnone | apply routesGet_in; exact Eg].
    + repeat split. exact Hnone.
Qed.

End RouterProperties.

(** * Further sample runs *)

Lemma validatePostData_output_witness :
  validatePostData sampleUrlProtocol (createInput secondPostArgs) false
  = Ok secondPostValidated
  /\ fieldIs secondPostValidated "title" (trimmedWithin (maxTitleLength APP_CONFIG))
  /\ fieldIs secondPostValidated "tags" goodTags
  /\ fieldIs secondPostValidated "slug" goodSlug.
Proof.
  assert (H : validatePostData sampleUrlProtocol (createInput secondPostArgs) false
              = Ok secondPostValidated) by (vm_compute; reflexivity).
  destruct (validatePostData_output sampleUrlProtocol _ _ _ H)
    as (_ & Ht & _ & _ & Hg & _ & Hs).
  split; [exact H|]. split; [exact Ht|]. split; [exact Hg | exact Hs].
Defined.

Lemma validateProfileData_output_witness :
  validateProfileData sampleUrlProtocol sampleProfile = Ok sampleProfileValidated
  /\ fieldIs sampleProfileValidated "displayName"
       (trimmedWithin (maxDisplayNameLength APP_CONFIG))
  /\ fieldIs sampleProfileValidated "tags" goodTags
  /\ fieldIs sampleProfileValidated "photoURL" (goodUrl sampleUrlProtocol).
Proof.
  assert (H : validateProfileData sampleUrlProtocol sampleProfile
              = Ok sampleProfileValidated) by (vm_compute; reflexivity).
  destruct (validateProfileData_output sampleUrlProtocol _ _ H)
    as (_ & Hd & _ & _ & Hg & Hp & _).
  split; [exact H|]. split; [exact Hd|]. split; [exact Hg | exact Hp].
Defined.

Lemma validatePostData_update_idempotent_witness :
  validatePostData sampleUrlProtocol retitlePatch true = Ok retitlePatchValidated
  /\ validatePostData sampleUrlProtocol retitlePatchValidated true
     = Ok retitlePatchValidated.
Proof.
  assert (H : validatePostData sampleUrlProtocol retitlePatch true
              = Ok retitlePatchValidated) by (vm_compute; reflexivity).
  split; [exact H|].
  exact (validatePostData_update_idempotent sampleUrlProtocol _ _ H).
Defined.

Lemma validatePostData_create_blank_witness :
  blankTitle <> "" /\ trim blankTitle = ""
  /\ validatePostData sampleUrlProtocol {[ "title" := VStr blankTitle ]} false
     = Ok {[ "title" := VStr "" ]}
  /\ validatePostData sampleUrlProtocol {[ "title" := VStr "" ]} false
     = Throw (RequiredFieldMissing "title").
Proof.
  assert (H1 : ("title" = "title" /\ String.length blankTitle <= maxTitleLength APP_CONFIG)
               \/ "title" = "contentHtml")
    by (left; split; [reflexivity | vm_compute; lia]).
  assert (H2 : blankTitle <> "") by discriminate.
  assert (H3 : trim blankTitle = "") by reflexivity.
  split; [exact H2|]. split; [exact H3|].
  exact (validatePostData_create_blank sampleUrlProtocol "title" blankTitle H1 H2 H3).
Defined.

Lemma formatTagsInput_tagsToString_witness :
  tagsToString (Some sampleTags) = "rocq, js"
  /\ formatTagsInput (VStr (tagsToString (Some sampleTags))) = sampleTags.
Proof.
  assert (H1 : length sampleTags <= maxTagCount APP_CONFIG) by (vm_compute; lia).
  assert (H2 : Forall (fun tag => tag <> "" /\ separatorFree tag = true) sampleTags)
    by (repeat constructor; discriminate).
  split; [reflexivity|].
  exact (formatTagsInput_tagsToString sampleTags H1 H2).
Defined.

Lemma post_writes_require_admin_witness :
  isAdmin (currentUser readerBackend) = false
  /\ updatePost sampleUrlProtocol firstPostId publishPatch readerBackend
     = (Throw (Forbidden NotAdmin), readerBackend)
  /\ deletePost firstPostId readerBackend = (Throw (Forbidden NotAdmin), readerBackend).
Proof.
  assert (H : isAdmin (currentUser readerBackend) = false) by reflexivity.
  destruct (post_writes_require_admin sampleUrlProtocol readerBackend H) as (_ & Hu & Hd).
  split; [exact H|].
  split; [exact (Hu firstPostId publishPatch) | exact (Hd firstPostId)].
Defined.

Lemma deletePost_by_id_witness :
  (deletePost firstPostId (backendWith shortSlug)).1 = Ok true
  /\ posts (deletePost firstPostId (backendWith shortSlug)).2 !! firstPostId = None
  /\ calls (deletePost firstPostId (backendWith shortSlug)).2
     = [DocGet firstPostId; DocDelete firstPostId].
Proof.
  assert (H1 : currentUser (backendWith shortSlug) = Some admin) by reflexivity.
  assert (H2 : isAdmin (Some admin) = true) by reflexivity.
  assert (H3 : posts (backendWith shortSlug) !! firstPostId = Some (samplePost shortSlug))
    by reflexivity.
  assert (H4 : prop (samplePost shortSlug) "authorId" = VStr (uid admin)) by reflexivity.
  destruct (deletePost_by_id firstPostId (backendWith shortSlug) admin
              (samplePost shortSlug) H1 H2 H3 H4) as (Hr & _ & Hn & _ & Hc).
  split; [exact Hr|]. split; [exact Hn | exact Hc].
Defined.

Lemma deletePost_via_slug_witness :
  posts (backendWith longSlug) !! longSlug = None
  /\ firstWithSlug longSlug (posts (backendWith longSlug))
     = Some (firstPostId, samplePost longSlug)
  /\ (deletePost longSlug (backendWith longSlug)).1 = Ok true
  /\ posts (deletePost longSlug (backendWith longSlug)).2 !! firstPostId
     = Some (samplePost longSlug)
  /\ calls (deletePost longSlug (backendWith longSlug)).2
     = [DocGet longSlug; QueryBySlug longSlug; DocDelete longSlug].
Proof.
  assert (H1 : posts (backendWith longSlug) !! longSlug = None) by reflexivity.
  assert (H2 : 20 < String.length longSlug) by (vm_compute; lia).
  assert (H3 : firstWithSlug longSlug (posts (backendWith longSlug))
               = Some (firstPostId, samplePost longSlug)) by (vm_compute; reflexivity).
  assert (H4 : currentUser (backendWith longSlug) = Some admin) by reflexivity.
  assert (H5 : isAdmin (Some admin) = true) by reflexivity.
  assert (H6 : prop (samplePost longSlug) "authorId" = VStr (uid admin)) by reflexivity.
  destruct (deletePost_via_slug longSlug (backendWith longSlug) firstPostId
              (samplePost longSlug) admin H1 H2 H3 H4 H5 H6) as (Hr & _ & Hs & Hc).
  split; [exact H1|]. split; [exact H3|]. split; [exact Hr|]. split; [exact Hs | exact Hc].
Defined.

Lemma publishPost_by_id_witness :
  exists post stored,
    (publishPost sampleUrlProtocol firstPostId (backendWith shortSlug)).1 = Ok post
    /\ prop post "status" = VStr "published"
    /\ posts (publishPost sampleUrlProtocol firstPostId (backendWith shortSlug)).2
         !! firstPostId = Some stored
    /\ stored !! "status" = Some (VStr "published")
    /\ stored !! "title" = Some (VStr "First post").
Proof.
  assert (H1 : currentUser (backendWith shortSlug) = Some admin) by reflexivity.
  assert (H2 : isAdmin (Some admin) = true) by reflexivity.
  assert (H3 : posts (backendWith shortSlug) !! firstPostId = Some (samplePost shortSlug))
    by reflexivity.
  assert (H4 : prop (samplePost shortSlug) "authorId" = VStr (uid admin)) by reflexivity.
  destruct (publishPost_by_id sampleUrlProtocol firstPostId (backendWith shortSlug) admin
              (samplePost shortSlug) H1 H2 H3 H4) as (post & stored & Hr & Hs & Hp & Hk & _).
  exists post, stored. split; [exact Hr|]. split; [exact Hs|]. split; [exact Hp|].
  split; [exact (Hk "status") | exact (Hk "title")].
Defined.

Lemma unpublish_after_publish_witness :
  samplePost shortSlug !! "status" = Some (VStr "draft")
  /\ (exists published,
        posts (publishPost sampleUrlProtocol firstPostId (backendWith shortSlug)).2
          !! firstPostId = Some published
        /\ prop published "updatedAt" = VTime 1700000500)
  /\ posts (unpublishPost sampleUrlProtocol firstPostId
              (publishPost sampleUrlProtocol firstPostId (backendWith shortSlug)).2).2
     = <[firstPostId := <["updatedAt" := VTime 1700000560]> (samplePost shortSlug)]>
         (posts (backendWith shortSlug)).
Proof.
  assert (H1 : currentUser (backendWith shortSlug) = Some admin) by reflexivity.
  assert (H2 : isAdmin (Some admin) = true) by reflexivity.
  assert (H3 : posts (backendWith shortSlug) !! firstPostId = Some (samplePost shortSlug))
    by reflexivity.
  assert (H4 : prop (samplePost shortSlug) "authorId" = VStr (uid admin)) by reflexivity.
  assert (H5 : samplePost shortSlug !! "status" = Some (VStr "draft")) by reflexivity.
  destruct (unpublish_after_publish sampleUrlProtocol firstPostId (backendWith shortSlug)
              admin (samplePost shortSlug) H1 H2 H3 H4)
    as (published & post & Hp & Hu & _ & _ & _ & Hd & _).
  split; [exact H5|]. split; [exists published; split; [exact Hp | exact Hu]|].
  exact (Hd H5).
Defined.

Lemma updateMyProfile_merges_witness :
  validateProfileData sampleUrlProtocol sampleProfile = Ok sampleProfileValidated
  /\ exists stored,
       profiles (updateMyProfile sampleUrlProtocol sampleProfile sampleSite).2 !! uid admin
       = Some stored
       /\ stored !! "bio" = Some (VStr "writes")
       /\ stored !! "nickname" = Some (VStr "annie").
Proof.
  assert (H1 : currentUser (backend sampleSite) = Some admin) by reflexivity.
  assert (H2 : validateProfileData sampleUrlProtocol sampleProfile
               = Ok sampleProfileValidated) by (vm_compute; reflexivity).
  destruct (updateMyProfile_merges sampleUrlProtocol sampleProfile sampleSite admin
              sampleProfileValidated H1 H2) as (stored & _ & Hs & _ & Hnew & Hold).
  split; [exact H2|]. exists stored. split; [exact Hs|]. split.
  - apply (Hnew "bio"); [reflexivity | discriminate].
  - rewrite (Hold "nickname"); [reflexivity | reflexivity | discriminate].
Defined.

Lemma updateMyProfile_complete_witness :
  isProfileComplete (profiles sampleSite !! uid admin) = false
  /\ isProfileComplete
       (profiles (updateMyProfile sampleUrlProtocol sampleProfile sampleSite).2 !! uid admin)
     = true.
Proof.
  assert (H1 : currentUser (backend sampleSite) = Some admin) by reflexivity.
  assert (H2 : validateProfileData sampleUrlProtocol sampleProfile
               = Ok sampleProfileValidated) by (vm_compute; reflexivity).
  assert (H3 : prop sampleProfile "displayName" = VStr "  Ann  ") by reflexivity.
  assert (H4 : prop sampleProfile "bio" = VStr "writes ") by reflexivity.
  split; [reflexivity|].
  exact (updateMyProfile_complete sampleUrlProtocol sampleProfile sampleSite admin
           sampleProfileValidated "  Ann  " "writes " H1 H2 H3 H4).
Defined.

Lemma matchRoute_params_witness :
  matchRoute postRoute "/post/Xk3pQ9" = Some {[ "id" := "Xk3pQ9" ]}
  /\ allChars (fun c => negb (isSlash c)) "Xk3pQ9" = true
  /\ exists i, splitSlash postRoute !! i = Some ":id"
               /\ splitSlash "/post/Xk3pQ9" !! i = Some "Xk3pQ9".
Proof.
  assert (H1 : matchRoute postRoute "/post/Xk3pQ9" = Some {[ "id" := "Xk3pQ9" ]})
    by (vm_compute; reflexivity).
  assert (H2 : ({[ "id" := "Xk3pQ9" ]} : Params) !! "id" = Some "Xk3pQ9") by reflexivity.
  destruct (matchRoute_params postRoute "/post/Xk3pQ9" _ "id" "Xk3pQ9" H1 H2)
    as (_ & Hc & Hi).
  split; [exact H1|]. split; [exact Hc | exact Hi].
Defined.

Lemma matchRoute_static_witness :
  matchRoute aboutRoute "/about" = Some ∅
  /\ matchRoute aboutRoute "/about/" = None
  /\ matchRoute aboutRoute "/" = None.
Proof.
  assert (H : Forall (fun p => isParam p = false) (splitSlash aboutRoute))
    by (repeat constructor).
  split; [exact (matchRoute_static aboutRoute "/about" H)|].
  split; [exact (matchRoute_static aboutRoute "/about/" H)
         | exact (matchRoute_static aboutRoute "/" H)].
Defined.

Lemma uploadMultipleImages_batch_witness :
  exists stored,
    (uploadMultipleImages (Some <$> sampleBatch) "posts" failingCallback uploadBackend).1
    = Resolved
        {| results := [stored];
           errors :=
             [ {| errorFile := "notes.txt"; errorMessage := UploadMessage InvalidFile |};
               {| errorFile := "cover.png";
                  errorMessage := ThrownMessage (VStr "no progress bar") |};
               {| errorFile := "cover.png";
                  errorMessage := UploadMessage (UploadFailed (HostStatus 503)) |} ] |}
    /\ prop stored "publicId" = VStr "posts/cover".
Proof.
  assert (H : forall progress, notify failingCallback progress <> Some CaughtNullish).
  { intros progress. cbn. destruct (Nat.eqb (completed progress) 2); discriminate. }
  destruct (uploadMultipleImages_batch sampleBatch "posts" failingCallback uploadBackend H)
    as (Hr & _).
  eexists. rewrite Hr. split; [vm_compute; reflexivity | reflexivity].
Defined.
